(** * ai-quality-testing: frontend extraction pipeline and Cypress node tasks

    A shallow embedding of
    - [cypress/e2e/data_extraction.cy.js] (the per-company extraction loop),
    - the custom command [extractCompanyFields] (label/value resolution on
      the rendered page), and
    - the three node tasks of [cypress.config.js] ([clearDownloads],
      [moveDownloadedFile], [updateConfigWithMemoPath]),
    together with the properties the specification states about them.

    A JavaScript string is modelled as the [string] of its UTF-8 bytes.
    The white space that [trim] strips is all of ECMAScript's, each code
    point as its bytes; letter case is changed on ASCII letters only
    ([toLowerCase] is applied to file names, for the [.pdf] test). *)

From stdpp Require Import gmap strings list fin_maps pretty.
From Stdlib Require Import ZArith Lia Ascii.

Set Default Proof Using "Type".
Local Open Scope Z_scope.

(* ===================================================================== *)
(** * JavaScript strings *)
(* ===================================================================== *)

Module JsString.

(** [s.startsWith(p)] *)
Fixpoint startsWith (s p : string) : bool :=
  match p with
  | EmptyString => true
  | String a p' =>
      match s with
      | EmptyString => false
      | String b s' => if Ascii.eqb a b then startsWith s' p' else false
      end
  end.

(** [s.includes(p)] *)
Fixpoint includes (s p : string) : bool :=
  startsWith s p ||
  match s with
  | EmptyString => false
  | String _ s' => includes s' p
  end.

(** [s.endsWith(p)] *)
Definition endsWith (s p : string) : bool :=
  startsWith (String.rev s) (String.rev p).

Definition lower_ascii (a : ascii) : ascii :=
  let n := Ascii.N_of_ascii a in
  if ((65 <=? n) && (n <=? 90))%N then Ascii.ascii_of_N (n + 32) else a.

(** [s.toLowerCase()] *)
Fixpoint toLowerCase (s : string) : string :=
  match s with
  | EmptyString => EmptyString
  | String a s' => String (lower_ascii a) (toLowerCase s')
  end.

(** The string with the given bytes. *)
Definition bytes (l : list N) : string :=
  foldr (λ b s, String (Ascii.ascii_of_N b) s) EmptyString l.

(** The white space of ECMAScript (the code points of WhiteSpace and
    LineTerminator), each as its UTF-8 bytes: U+0009 to U+000D, U+0020,
    U+00A0, U+1680, U+2000 to U+200A, U+2028, U+2029, U+202F, U+205F,
    U+3000 and U+FEFF. *)
Definition white_space : list string :=
  [ bytes [9]; bytes [10]; bytes [11]; bytes [12]; bytes [13]; bytes [32];
    bytes [194; 160];
    bytes [225; 154; 128];
    bytes [226; 128; 128]; bytes [226; 128; 129]; bytes [226; 128; 130];
    bytes [226; 128; 131]; bytes [226; 128; 132]; bytes [226; 128; 133];
    bytes [226; 128; 134]; bytes [226; 128; 135]; bytes [226; 128; 136];
    bytes [226; 128; 137]; bytes [226; 128; 138];
    bytes [226; 128; 168]; bytes [226; 128; 169];
    bytes [226; 128; 175];
    bytes [226; 129; 159];
    bytes [227; 128; 128];
    bytes [239; 187; 191] ]%N.

(** [s] without the members of [ws] it starts with; the members of [ws]
    are one to three bytes long. *)
Fixpoint strip (ws : list string) (s : string) : string :=
  match s with
  | EmptyString => EmptyString
  | String a s1 =>
      if bool_decide (String a "" ∈ ws) then strip ws s1
      else
        match s1 with
        | EmptyString => s
        | String b s2 =>
            if bool_decide (String a (String b "") ∈ ws) then strip ws s2
            else
              match s2 with
              | EmptyString => s
              | String c s3 =>
                  if bool_decide (String a (String b (String c "")) ∈ ws)
                  then strip ws s3 else s
              end
        end
  end.

(** [s.trimStart()], [s.trimEnd()] and [s.trim()] *)
Definition trimStart (s : string) : string := strip white_space s.

Definition trimEnd (s : string) : string :=
  String.rev (strip (String.rev <$> white_space) (String.rev s)).

Definition trim (s : string) : string := trimEnd (trimStart s).

(** [l.join(sep)] on an array of strings *)
Fixpoint join (sep : string) (l : list string) : string :=
  match l with
  | [] => ""
  | [x] => x
  | x :: l' => x +:+ sep +:+ join sep l'
  end.

Definition is_empty (s : string) : bool :=
  match s with EmptyString => true | _ => false end.

End JsString.

(* ===================================================================== *)
(** * JavaScript values (the JSON fragment) *)
(* ===================================================================== *)

Module Js.
Import JsString.

(** Objects keep their own string keys in insertion order, so an object is
    an association list; numbers are the integers. *)
#[warnings="-register-all"]
Inductive jsval :=
| JNull
| JBool (b : bool)
| JNum (n : Z)
| JStr (s : string)
| JArr (items : list jsval)
| JObj (props : list (string * jsval)).

Definition object := list (string * jsval).

(** [Object.keys(o)] *)
Definition keys (o : object) : list string := o.*1.

(** [o[k]] *)
Fixpoint get_prop (k : string) (o : object) : option jsval :=
  match o with
  | [] => None
  | (k', v) :: o' => if String.eqb k k' then Some v else get_prop k o'
  end.

(** [o[k] = v]: an existing key keeps its place, a new one goes last. *)
Fixpoint set_prop (k : string) (v : jsval) (o : object) : object :=
  match o with
  | [] => [(k, v)]
  | (k', v') :: o' =>
      if String.eqb k k' then (k', v) :: o' else (k', v') :: set_prop k v o'
  end.

(** Truthiness, as used by [&&] and [if]. *)
Definition truthy (v : jsval) : bool :=
  match v with
  | JNull => false
  | JBool b => b
  | JNum n => negb (n =? 0)
  | JStr s => negb (is_empty s)
  | JArr _ | JObj _ => true
  end.

(** [v.toString()]; [null] has no such method, the caller has tested
    truthiness first.  Inside an array [null] prints as the empty
    string. *)
Fixpoint toString (v : jsval) : string :=
  match v with
  | JNull => ""
  | JBool true => "true"
  | JBool false => "false"
  | JNum n => pretty n
  | JStr s => s
  | JArr items => join "," (List.map toString items)
  | JObj _ => "[object Object]"
  end.

End Js.

(* ===================================================================== *)
(** * The rendered page: a DOM tree and the jQuery calls made on it *)
(* ===================================================================== *)

Module Dom.
Import JsString.

(** An element carries its tag name, the raw text of its [class]
    attribute (empty when absent) and its child nodes. *)
#[warnings="-register-all"]
Inductive node :=
| TextNode (data : string)
| Element (tag : string) (class : string) (children : list node).

(** An element is identified by the child indices leading to it from
    [<body>]; a jQuery object is a list of such paths. *)
Definition path := list nat.
Definition jquery := list path.

(** [elem.textContent]: the text of all descendant text nodes, in
    order. *)
Fixpoint textContent (n : node) : string :=
  match n with
  | TextNode s => s
  | Element _ _ kids =>
      (fix go (ks : list node) : string :=
         match ks with
         | [] => ""
         | k :: ks' => textContent k +:+ go ks'
         end) kids
  end.

Fixpoint node_at (n : node) (p : path) : option node :=
  match p with
  | [] => Some n
  | i :: q =>
      match n with
      | Element _ _ kids => kids !! i ≫= λ k, node_at k q
      | TextNode _ => None
      end
  end.

(** The elements of the subtree at [n] (itself located at [here]), in
    document order: an element comes before its descendants, and these
    before its following siblings. *)
Fixpoint subtree_elements (here : path) (n : node) : list path :=
  match n with
  | TextNode _ => []
  | Element _ _ kids =>
      here ::
      (fix go (i : nat) (ks : list node) : list path :=
         match ks with
         | [] => []
         | k :: ks' => subtree_elements (here ++ [i]) k ++ go (S i) ks'
         end) 0%nat kids
  end.

Definition elements (body : node) : list path := subtree_elements [] body.


Definition is_html_space (a : ascii) : bool :=
  match a with
  | "009" | "010" | "012" | "013" | " " => true
  | _ => false
  end%char.

(** The tokens of a [class] attribute; [acc] holds the current token
    reversed. *)
Fixpoint class_tokens_from (acc : string) (s : string) : list string :=
  let flush := if is_empty acc then [] else [String.rev acc] in
  match s with
  | EmptyString => flush
  | String a s' =>
      if is_html_space a then flush ++ class_tokens_from "" s'
      else class_tokens_from (String a acc) s'
  end.

Definition class_tokens (s : string) : list string := class_tokens_from "" s.

(** A compound selector [tag.c1.c2[class*="x"]:contains("t")]. *)
Record compound := {
  sel_tag : option string;
  sel_classes : list string;
  sel_class_has : list string;
  sel_contains : option string
}.

(** A selector list [s1, s2, ...] matches what any of its members
    matches. *)
Definition selector := list compound.

Definition matches_compound (c : compound) (n : node) : bool :=
  match n with
  | TextNode _ => false
  | Element tag cls _ =>
      from_option (String.eqb (toLowerCase tag)) true (sel_tag c)
      && forallb (λ k, existsb (String.eqb k) (class_tokens cls)) (sel_classes c)
      && forallb (includes cls) (sel_class_has c)
      && from_option (includes (textContent n)) true (sel_contains c)
  end.

Definition matches (sel : selector) (n : node) : bool :=
  existsb (λ c, matches_compound c n) sel.

Definition matches_at (body : node) (sel : selector) (p : path) : bool :=
  from_option (matches sel) false (node_at body p).

Fixpoint strict_prefix (a p : path) : bool :=
  match a, p with
  | [], _ :: _ => true
  | x :: a', y :: p' => Nat.eqb x y && strict_prefix a' p'
  | _, _ => false
  end.

(** [$set.find(sel)]: the descendants of the members of [$set] that match
    [sel], each once, in document order. *)
Definition find (body : node) (sel : selector) (set : jquery) : jquery :=
  List.filter
    (λ q, existsb (λ a, strict_prefix a q) set && matches_at body sel q)
    (elements body).

(** All prefixes of a path, shortest first. *)
Fixpoint inits (p : path) : list path :=
  [] :: match p with
        | [] => []
        | i :: q => List.map (cons i) (inits q)
        end.

(** The nearest of the element itself and its ancestors that matches. *)
Definition closest1 (body : node) (sel : selector) (p : path) : option path :=
  head (List.filter (matches_at body sel) (rev (inits p))).

(** [$set.closest(sel)]: the nearest match of every member, each once, in
    document order. *)
Definition closest (body : node) (sel : selector) (set : jquery) : jquery :=
  let matched := omap (closest1 body sel) set in
  List.filter (λ q, bool_decide (q ∈ matched)) (elements body).

(** [$set.first()] *)
Definition first (set : jquery) : jquery := take 1 set.

(** [$set.text()]: the combined text of the members. *)
Definition text (body : node) (set : jquery) : string :=
  foldr (λ p acc, from_option textContent "" (node_at body p) +:+ acc) "" set.

End Dom.

(* ===================================================================== *)
(** * The custom command [extractCompanyFields] *)
(* ===================================================================== *)

Module Commands.
Import JsString Js Dom.

(** The schema: [(label, key)] pairs, in the order of the source. *)
Definition fields : list (string * string) :=
  [ ("Company name", "company_name");
    ("Industry", "industry");
    ("Location", "location");
    ("Founders", "founders");
    ("Founder Email", "founder_email");
    ("Year Founded", "year_founded");
    ("Funding Stage", "funding_stage");
    ("Latest Valuation", "latest_valuation");
    ("Fund Raise Target", "fund_raise_target");
    ("Amount Raised", "amount_raised");
    ("Revenue", "revenue");
    ("List of investors", "list_of_investors");
    ("Lead Investor", "lead_investor");
    ("Verticals", "verticals");
    ("Keywords", "keywords") ].

(** [[class*="text-content-secondary"]:contains("${label}")] *)
Definition label_selector (label : string) : selector :=
  [ {| sel_tag := None; sel_classes := [];
       sel_class_has := ["text-content-secondary"];
       sel_contains := Some label |} ].

(** [div[class*="rounded"]] *)
Definition container_selector : selector :=
  [ {| sel_tag := Some "div"; sel_classes := [];
       sel_class_has := ["rounded"]; sel_contains := None |} ].

(** [div.mt-1.line-clamp-2.text-sm.font-medium.text-content-primary] *)
Definition structural_value : compound :=
  {| sel_tag := Some "div";
     sel_classes := ["mt-1"; "line-clamp-2"; "text-sm"; "font-medium";
                     "text-content-primary"];
     sel_class_has := []; sel_contains := None |}.

(** [span.text-sm.font-medium.text-content-primary] *)
Definition span_value : compound :=
  {| sel_tag := Some "span";
     sel_classes := ["text-sm"; "font-medium"; "text-content-primary"];
     sel_class_has := []; sel_contains := None |}.

(** [[class*="font-medium"][class*="text-content-primary"]] *)
Definition broad_value : compound :=
  {| sel_tag := None; sel_classes := [];
     sel_class_has := ["font-medium"; "text-content-primary"];
     sel_contains := None |}.

(** The three selectors joined with [', '] into one selector list. *)
Definition value_selector : selector :=
  [structural_value; span_value; broad_value].

(** The value elements the command looks at for a label: the matches of
    the joined selector below the containers of the label elements. *)
Definition value_candidates (body : node) (label : string) : jquery :=
  let label_els := find body (label_selector label) [[]] in
  let container := closest body container_selector label_els in
  find body value_selector container.

(** The body of the callback run for one field: [Some value] when a value
    element is found, [None] on either of the two "not found" branches
    (which only log). *)
Definition resolveField (body : node) (label : string) : option string :=
  let label_els := find body (label_selector label) [[]] in
  if (0 <? length label_els)%nat then
    let container := closest body container_selector label_els in
    let valueEl := first (find body value_selector container) in
    if (0 <? length valueEl)%nat then Some (trim (text body valueEl))
    else None
  else None.

(** One iteration of [fields.forEach], with the resolution step [res]
    factored out: a found value is stored under the field's key, a miss
    leaves the record as it is. *)
Definition assign_field (res : string → option string)
    (verifyRecords : object) (f : string * string) : object :=
  match res f.1 with
  | Some value => set_prop f.2 (JStr value) verifyRecords
  | None => verifyRecords
  end.

Definition extractCompanyFields_with (res : string → option string)
    (verifyRecords : object) : object :=
  fold_left (assign_field res) fields verifyRecords.

(** [cy.extractCompanyFields(verifyRecords)] on the page [body]; the
    record is mutated in place, here it is passed through. *)
Definition extractCompanyFields (body : node) (verifyRecords : object) : object :=
  extractCompanyFields_with (resolveField body) verifyRecords.

End Commands.

(* ===================================================================== *)
(** * The spec file [data_extraction.cy.js] *)
(* ===================================================================== *)

Module DataExtraction.
Import JsString Js Dom Commands.

(** An entry of [config.companies]. *)
Record company := {
  id : jsval;
  name : string;
  frontend_url : string
}.

(** What the browser shows once [cy.visit] and the settle delay are over. *)
Record page := {
  url : string;
  body : node
}.

(** The application under test: the page reached from an address, or
    [None] when the load itself fails. *)
Definition browser := string → option page.

(** The record as initialised at the top of the callback. *)
Definition initial_record (now : string) (c : company) : object :=
  [ ("company_name", JStr "");
    ("industry", JStr "");
    ("location", JStr "");
    ("founders", JStr "");
    ("founder_email", JStr "");
    ("year_founded", JStr "");
    ("funding_stage", JStr "");
    ("latest_valuation", JStr "");
    ("fund_raise_target", JStr "");
    ("amount_raised", JStr "");
    ("revenue", JStr "");
    ("list_of_investors", JStr "");
    ("lead_investor", JStr "");
    ("verticals", JStr "");
    ("keywords", JStr "");
    ("_extraction_metadata",
      JObj [ ("extracted_at", JStr now);
             ("company_id", id c);
             ("frontend_url", JStr (frontend_url c));
             ("extraction_type", JStr "ai_output_verification");
             ("total_fields", JNum 15) ]) ].

(** The predicate of the [filter] over [Object.keys(verifyRecords)]. *)
Definition has_data (verifyRecords : object) (key : string) : bool :=
  negb (startsWith key "_")
  && match get_prop key verifyRecords with
     | Some v => truthy v && negb (String.eqb (trim (toString v)) "")
     | None => false
     end.

Definition fieldsWithData (verifyRecords : object) : nat :=
  length (List.filter (has_data verifyRecords) (keys verifyRecords)).

(** The two assignments into [verifyRecords._extraction_metadata]; they
    throw when that property is not an object. *)
Definition add_summary (verifyRecords : object) : string + object :=
  let n := fieldsWithData verifyRecords in
  match get_prop "_extraction_metadata" verifyRecords with
  | Some (JObj meta) =>
      let meta := set_prop "fields_extracted" (JNum (Z.of_nat n)) meta in
      let meta := set_prop "extraction_success" (JBool (0 <? n)%nat) meta in
      inr (set_prop "_extraction_metadata" (JObj meta) verifyRecords)
  | _ => inl "TypeError: Cannot set properties of undefined"
  end.

Definition output_file (c : company) : string :=
  "data/extracted/" +:+ name c +:+ "_frontend_data.json".

(** The commands queued for one company.  A failed command ([cy.visit]
    that cannot load, the [should('include', 'company-detail')] assertion)
    fails the test: the result is [inl] and nothing queued after it runs.
    Otherwise the result is the file name and the record handed to
    [JSON.stringify] and [cy.writeFile]. *)
Definition process_company (visit : browser) (now : string) (c : company)
    : string + (string * object) :=
  let verifyRecords := initial_record now c in
  match visit (frontend_url c) with
  | None => inl "cy.visit() failed trying to load"
  | Some pg =>
      if includes (url pg) "company-detail" then
        let verifyRecords := extractCompanyFields (body pg) verifyRecords in
        match add_summary verifyRecords with
        | inl err => inl err
        | inr verifyRecords => inr (output_file c, verifyRecords)
        end
      else inl "AssertionError: expected url to include 'company-detail'"
  end.

(** The outcome of the test: the files written, in order, and the error
    that failed it, if any. *)
Record run_result := {
  written : list (string * string);
  failure : option string
}.

Section Run.
(** [JSON.stringify(value, null, 2)] *)
Variable JSON_stringify : jsval → string.
Variable visit : browser.
(** [new Date().toISOString()] when the callback of the company at a given
    index runs. *)
Variable clock : nat → string.

(** [cy.wrap(companies).each(...)] from index [index] on: the companies
    are taken in order, and the first failing command ends the test. *)
Fixpoint each (index : nat) (companies : list company) : run_result :=
  match companies with
  | [] => {| written := []; failure := None |}
  | c :: rest =>
      match process_company visit (clock index) c with
      | inl err => {| written := []; failure := Some err |}
      | inr (file, verifyRecords) =>
          let r := each (S index) rest in
          {| written := (file, JSON_stringify (JObj verifyRecords)) :: written r;
             failure := failure r |}
      end
  end.

Definition run (companies : list company) : run_result := each 0%nat companies.

End Run.

End DataExtraction.

(* ===================================================================== *)
(** * The file system seen by the node tasks *)
(* ===================================================================== *)

Module Fs.
Import JsString.

Record attrs := {
  mtime : Z;
  readable : bool;
  writable : bool
}.

(** A regular file or a directory; the whole file system is its root
    directory.  Links and special files are not modelled, and the
    modification time of a directory is left alone when its entries
    change. *)
#[warnings="-register-all"]
Inductive inode :=
| File (content : string) (a : attrs)
| Dir (entries : gmap string inode) (a : attrs).

(** A normalised absolute path: its components from the root. *)
Definition path := list string.

Definition attrs_of (n : inode) : attrs :=
  match n with File _ a | Dir _ a => a end.

Definition is_file (n : inode) : bool :=
  match n with File _ _ => true | Dir _ _ => false end.

Fixpoint lookup_path (p : path) (n : inode) : option inode :=
  match p with
  | [] => Some n
  | x :: q =>
      match n with
      | Dir es _ => es !! x ≫= lookup_path q
      | File _ _ => None
      end
  end.

(** Change the entries of the directory at [p]; nothing happens when [p]
    is not a directory. *)
Fixpoint alter_dir (f : gmap string inode → gmap string inode)
    (p : path) (n : inode) : inode :=
  match n with
  | File _ _ => n
  | Dir es a =>
      match p with
      | [] => Dir (f es) a
      | x :: q => Dir (alter (alter_dir f q) x es) a
      end
  end.

(** Directory and base name of a path. *)
Fixpoint split_last (p : path) : option (path * string) :=
  match p with
  | [] => None
  | x :: q =>
      match split_last q with
      | None => Some ([], x)
      | Some (d, n) => Some (x :: d, n)
      end
  end.

Fixpoint is_prefix (a p : path) : bool :=
  match a, p with
  | [], _ => true
  | x :: a', y :: p' => String.eqb x y && is_prefix a' p'
  | _ :: _, [] => false
  end.

(** ** Paths written as strings *)

(** The pieces of [s] between the separators ['/']; [acc] holds the
    current piece reversed. *)
Fixpoint split_slash (acc : string) (s : string) : list string :=
  match s with
  | EmptyString => [String.rev acc]
  | String a s' =>
      if Ascii.eqb a "/" then String.rev acc :: split_slash "" s'
      else split_slash (String a acc) s'
  end.

(** Normalisation as [path.join] does it: empty and ["."] pieces vanish,
    [".."] drops the piece before it and stays at the root.  [stack] is
    the path so far, reversed. *)
Fixpoint normalize (stack : list string) (pieces : list string) : path :=
  match pieces with
  | [] => rev stack
  | c :: cs =>
      if String.eqb c "" || String.eqb c "." then normalize stack cs
      else if String.eqb c ".." then normalize (tail stack) cs
      else normalize (c :: stack) cs
  end.

(** [path.join(base, rel)] for a normalised absolute [base]. *)
Definition path_join (base : path) (rel : string) : path :=
  normalize (rev base) (split_slash "" rel).

Definition path_to_string (p : path) : string :=
  foldr (λ c acc, "/" +:+ c +:+ acc) "" p.

(** ** Computations that read and write the file system and may throw *)

Definition io (A : Type) : Type := inode → (string + A) * inode.

Definition ret {A} (x : A) : io A := λ fs, (inr x, fs).

Definition throw {A} (message : string) : io A := λ fs, (inl message, fs).

Definition bind {A B} (m : io A) (k : A → io B) : io B :=
  λ fs, match m fs with
        | (inr x, fs') => k x fs'
        | (inl e, fs') => (inl e, fs')
        end.

(** [try { body } catch (error) { handler(error.message) }] *)
Definition try_catch {A} (body : io A) (handler : string → io A) : io A :=
  λ fs, match body fs with
        | (inl e, fs') => handler e fs'
        | (inr x, fs') => (inr x, fs')
        end.

Notation "'do' x <- m ; k" := (bind m (λ x, k))
  (at level 10, x name, m at level 100, k at level 200).
Notation "m ;; k" := (bind m (λ _, k))
  (at level 100, k at level 200, right associativity).

(** [l.forEach(f)] *)
Fixpoint forEach {A} (l : list A) (f : A → io unit) : io unit :=
  match l with
  | [] => ret tt
  | x :: l' => f x ;; forEach l' f
  end.

(** [l.map(f)] for an [f] that reads the file system *)
Fixpoint mapM {A B} (f : A → io B) (l : list A) : io (list B) :=
  match l with
  | [] => ret []
  | x :: l' => do y <- f x; do ys <- mapM f l'; ret (y :: ys)
  end.

(** ** The calls of the [fs] module *)

Definition existsSync (p : path) : io bool :=
  λ fs, (inr (match lookup_path p fs with Some _ => true | None => false end), fs).

Record stats := {
  isFile : bool;
  st_mtime : Z
}.

Definition statSync (p : path) : io stats :=
  λ fs, match lookup_path p fs with
        | Some n => (inr {| isFile := is_file n; st_mtime := mtime (attrs_of n) |}, fs)
        | None => (inl "ENOENT: no such file or directory, stat", fs)
        end.

Definition readdirSync (p : path) : io (list string) :=
  λ fs, match lookup_path p fs with
        | Some (Dir es a) =>
            if readable a then (inr (map_to_list es).*1, fs)
            else (inl "EACCES: permission denied, scandir", fs)
        | Some (File _ _) => (inl "ENOTDIR: not a directory, scandir", fs)
        | None => (inl "ENOENT: no such file or directory, scandir", fs)
        end.

Definition unlinkSync (p : path) : io unit :=
  λ fs, match lookup_path p fs, split_last p with
        | Some (File _ _), Some (dir, base) =>
            match lookup_path dir fs with
            | Some (Dir _ a) =>
                if writable a then (inr tt, alter_dir (delete base) dir fs)
                else (inl "EACCES: permission denied, unlink", fs)
            | _ => (inl "ENOENT: no such file or directory, unlink", fs)
            end
        | Some (Dir _ _), _ => (inl "EPERM: operation not permitted, unlink", fs)
        | _, _ => (inl "ENOENT: no such file or directory, unlink", fs)
        end.

(** [mkdirSync(p, { recursive: true })] below the directory [n]: missing
    directories are created with modification time [now]. *)
Fixpoint mkdir_p (now : Z) (p : path) (n : inode) : string + inode :=
  match n with
  | File _ _ => inl "ENOTDIR: not a directory, mkdir"
  | Dir es a =>
      match p with
      | [] => inr n
      | x :: q =>
          match es !! x with
          | Some child =>
              match mkdir_p now q child with
              | inr child' => inr (Dir (<[x := child']> es) a)
              | inl e => inl e
              end
          | None =>
              if writable a then
                match mkdir_p now q
                        (Dir ∅ {| mtime := now; readable := true; writable := true |}) with
                | inr child' => inr (Dir (<[x := child']> es) a)
                | inl e => inl e
                end
              else inl "EACCES: permission denied, mkdir"
          end
      end
  end.

Definition mkdirSync_recursive (now : Z) (p : path) : io unit :=
  λ fs, match mkdir_p now p fs with
        | inr fs' => (inr tt, fs')
        | inl e => (inl e, fs)
        end.

Definition renameSync (src dst : path) : io unit :=
  λ fs,
    match lookup_path src fs, split_last src, split_last dst with
    | Some n, Some (sdir, sbase), Some (ddir, dbase) =>
        match lookup_path sdir fs, lookup_path ddir fs with
        | Some (Dir _ sa), Some (Dir des da) =>
            let moved := alter_dir <[dbase := n]> ddir (alter_dir (delete sbase) sdir fs) in
            if bool_decide (src = dst) then (inr tt, fs)
            else if is_prefix src dst then (inl "EINVAL: invalid argument, rename", fs)
            else if negb (writable sa && writable da) then
              (inl "EACCES: permission denied, rename", fs)
            else
              match n, des !! dbase with
              | File _ _, Some (Dir _ _) =>
                  (inl "EISDIR: illegal operation on a directory, rename", fs)
              | Dir _ _, Some (File _ _) => (inl "ENOTDIR: not a directory, rename", fs)
              | Dir _ _, Some (Dir es' _) =>
                  match map_to_list es' with
                  | [] => (inr tt, moved)
                  | _ :: _ => (inl "ENOTEMPTY: directory not empty, rename", fs)
                  end
              | _, _ => (inr tt, moved)
              end
        | _, Some (File _ _) => (inl "ENOTDIR: not a directory, rename", fs)
        | _, _ => (inl "ENOENT: no such file or directory, rename", fs)
        end
    | None, _, _ => (inl "ENOENT: no such file or directory, rename", fs)
    | _, _, _ => (inl "EBUSY: resource busy or locked, rename", fs)
    end.

(** [readFileSync(p, 'utf8')] *)
Definition readFileSync (p : path) : io string :=
  λ fs, match lookup_path p fs with
        | Some (File content a) =>
            if readable a then (inr content, fs)
            else (inl "EACCES: permission denied, open", fs)
        | Some (Dir _ _) => (inl "EISDIR: illegal operation on a directory, read", fs)
        | None => (inl "ENOENT: no such file or directory, open", fs)
        end.

Definition writeFileSync (now : Z) (p : path) (data : string) : io unit :=
  λ fs, match lookup_path p fs, split_last p with
        | Some (File _ a), Some (dir, base) =>
            if writable a then
              (inr tt,
               alter_dir <[base := File data {| mtime := now; readable := readable a;
                                                writable := writable a |}]> dir fs)
            else (inl "EACCES: permission denied, open", fs)
        | Some (Dir _ _), _ => (inl "EISDIR: illegal operation on a directory, open", fs)
        | None, Some (dir, base) =>
            match lookup_path dir fs with
            | Some (Dir _ a) =>
                if writable a then
                  (inr tt,
                   alter_dir <[base := File data {| mtime := now; readable := true;
                                                    writable := true |}]> dir fs)
                else (inl "EACCES: permission denied, open", fs)
            | _ => (inl "ENOENT: no such file or directory, open", fs)
            end
        | _, _ => (inl "EISDIR: illegal operation on a directory, open", fs)
        end.

End Fs.

(* ===================================================================== *)
(** * The node tasks of [cypress.config.js] *)
(* ===================================================================== *)

Module Tasks.
Import JsString Js Fs.

(** What [moveDownloadedFile] collects about a listed name. *)
Record listed := {
  l_name : string;
  l_path : path;
  l_mtime : Z
}.

(** [files.sort((a, b) => b.mtime - a.mtime)]: newest first, and names
    with equal times stay in their listed order. *)
Fixpoint insert_newest_first (x : listed) (sorted : list listed) : list listed :=
  match sorted with
  | [] => [x]
  | y :: rest =>
      if l_mtime y <=? l_mtime x then x :: sorted
      else y :: insert_newest_first x rest
  end.

Definition sort_newest_first (files : list listed) : list listed :=
  foldr insert_newest_first [] files.

(** The value [moveDownloadedFile] returns: [{ success: true, filename,
    fullPath }] or [{ success: false, error }]. *)
Inductive move_result :=
| Moved (filename fullPath : string)
| NotMoved (error : string).

Definition move_success (r : move_result) : bool :=
  match r with Moved _ _ => true | NotMoved _ => false end.

(** An element of [results] in [updateConfigWithMemoPath]:
    [{ path, success: true, message, memoPath }] or
    [{ path, success: false, error }]. *)
Inductive patch_entry :=
| Patched (path message memoPath : string)
| NotPatched (path error : string).

Definition entry_path (e : patch_entry) : string :=
  match e with Patched p _ _ | NotPatched p _ => p end.

Definition entry_success (e : patch_entry) : bool :=
  match e with Patched _ _ _ => true | NotPatched _ _ => false end.

Definition entry_error (e : patch_entry) : option string :=
  match e with Patched _ _ _ => None | NotPatched _ err => Some err end.

Definition entry_message (e : patch_entry) : option string :=
  match e with Patched _ msg _ => Some msg | NotPatched _ _ => None end.

(** The object [updateConfigWithMemoPath] returns. *)
Record patch_report := {
  success : bool;
  totalFiles : nat;
  successCount : nat;
  results : list patch_entry;
  summary : string
}.

Definition configPaths : list string :=
  [ "cypress/fixtures/config.json"; "config.json" ].

(** [companies.find(c => c.name === companyName)], as the index of the
    company found.  Reading [name] off a [null] element throws. *)
Fixpoint find_company (companyName : string) (index : nat) (companies : list jsval)
    : string + option nat :=
  match companies with
  | [] => inr None
  | c :: rest =>
      match c with
      | JNull => inl "Cannot read properties of null (reading 'name')"
      | JObj props =>
          match get_prop "name" props with
          | Some (JStr n) =>
              if String.eqb n companyName then inr (Some index)
              else find_company companyName (S index) rest
          | _ => find_company companyName (S index) rest
          end
      | _ => find_company companyName (S index) rest
      end
  end.

(** [configData.companies], which must be an array for [find] to be
    callable. *)
Definition companies_of (configData : jsval) : string + list jsval :=
  match configData with
  | JNull => inl "Cannot read properties of null (reading 'companies')"
  | JObj props =>
      match get_prop "companies" props with
      | Some (JArr companies) => inr companies
      | Some _ => inl "configData.companies.find is not a function"
      | None => inl "Cannot read properties of undefined (reading 'find')"
      end
  | _ => inl "Cannot read properties of undefined (reading 'find')"
  end.

(** [configData] after [company.ai_generated_memo = memoPath] on the
    company at [index]. *)
Definition set_memo (configData : jsval) (index : nat) (memoPath : string) : jsval :=
  match configData with
  | JObj props =>
      match get_prop "companies" props with
      | Some (JArr companies) =>
          let patch c :=
            match c with
            | JObj cprops => JObj (set_prop "ai_generated_memo" (JStr memoPath) cprops)
            | _ => c
            end in
          JObj (set_prop "companies" (JArr (alter patch index companies)) props)
      | _ => configData
      end
  | _ => configData
  end.

Section WithEnvironment.
(** [JSON.parse], [None] when it throws a [SyntaxError], and
    [JSON.stringify(value, null, 2)]. *)
Variable JSON_parse : string → option jsval.
Variable JSON_stringify : jsval → string.
(** [config.downloadsFolder], [process.cwd()] and the time of the call. *)
Variable downloadsFolder : path.
Variable cwd : path.
Variable now : Z.

Definition clearDownloads : io jsval :=
  let downloadsPath := downloadsFolder in
  do present <- existsSync downloadsPath;
  if present then
    do files <- readdirSync downloadsPath;
    forEach files (λ file,
      let filePath := downloadsPath ++ [file] in
      do st <- statSync filePath;
      if isFile st then unlinkSync filePath else ret tt) ;;
    ret JNull
  else ret JNull.

Definition is_pdf_name (file : string) : bool :=
  endsWith (toLowerCase file) ".pdf".

Definition moveDownloadedFile (companyName targetFolder : string) : io move_result :=
  try_catch
    (let downloadsPath := downloadsFolder in
     let targetPath := path_join cwd targetFolder in
     do present <- existsSync targetPath;
     (if negb present then mkdirSync_recursive now targetPath else ret tt) ;;
     do names <- readdirSync downloadsPath;
     do files <-
       mapM (λ file,
               do st <- statSync (downloadsPath ++ [file]);
               ret {| l_name := file;
                      l_path := downloadsPath ++ [file];
                      l_mtime := st_mtime st |})
            (List.filter is_pdf_name names);
     let files := sort_newest_first files in
     match files with
     | [] => ret (NotMoved "No PDF file found in downloads")
     | mostRecentFile :: _ =>
         let targetFileName := companyName +:+ "_Investment_Memo.pdf" in
         let targetFilePath := path_join targetPath targetFileName in
         renameSync (l_path mostRecentFile) targetFilePath ;;
         ret (Moved targetFileName (path_to_string targetFilePath))
     end)
    (λ error, ret (NotMoved error)).

(** The callback of [configPaths.forEach]; [results.push] is the append
    to the list passed along. *)
Definition update_config (companyName : string) (results : list patch_entry)
    (configPath : string) : io (list patch_entry) :=
  try_catch
    (let fullConfigPath := path_join cwd configPath in
     do present <- existsSync fullConfigPath;
     if negb present then
       ret (results ++ [NotPatched configPath ("File does not exist: " +:+ configPath)])
     else
       do text <- readFileSync fullConfigPath;
       match JSON_parse text with
       | None => throw "Unexpected token in JSON"
       | Some configData =>
           match companies_of configData with
           | inl e => throw e
           | inr companies =>
               match find_company companyName 0 companies with
               | inl e => throw e
               | inr (Some index) =>
                   let memoPath :=
                     "data/ai_outputs/" +:+ companyName +:+ "_Investment_Memo.pdf" in
                   let configData := set_memo configData index memoPath in
                   writeFileSync now fullConfigPath (JSON_stringify configData) ;;
                   ret (results ++
                        [Patched configPath
                           ("Updated " +:+ configPath +:+ " with memo path for "
                            +:+ companyName)
                           memoPath])
               | inr None =>
                   ret (results ++
                        [NotPatched configPath
                           ("Company " +:+ companyName +:+ " not found in "
                            +:+ configPath)])
               end
           end
       end)
    (λ error,
       ret (results ++
            [NotPatched configPath
               ("Error updating " +:+ configPath +:+ ": " +:+ error)])).

(** [configPaths.forEach(...)], threading [results]. *)
Fixpoint update_configs (companyName : string) (results : list patch_entry)
    (paths : list string) : io (list patch_entry) :=
  match paths with
  | [] => ret results
  | configPath :: rest =>
      do results <- update_config companyName results configPath;
      update_configs companyName results rest
  end.

Definition updateConfigWithMemoPath (companyName : string) : io patch_report :=
  do results <- update_configs companyName [] configPaths;
  let successCount := length (List.filter entry_success results) in
  ret {| success := (0 <? successCount)%nat;
         totalFiles := length configPaths;
         successCount := successCount;
         results := results;
         summary := "Updated " +:+ pretty successCount +:+ "/"
                    +:+ pretty (length configPaths) +:+ " config files for "
                    +:+ companyName |}.

End WithEnvironment.

End Tasks.

(* ===================================================================== *)
(** * Notions used to state the properties *)
(* ===================================================================== *)

Module Notions.
Import JsString Js Dom Commands DataExtraction.

(** The entry a field starts with, and the one it ends with under the
    resolution [res]. *)
Definition blank (f : string * string) : string * jsval := (f.2, JStr "").

Definition stored (res : string → option string) (f : string * string)
    : string * jsval :=
  (f.2, JStr (default "" (res f.1))).

(** The metadata object as initialised. *)
Definition initial_metadata (now : string) (c : company) : object :=
  [ ("extracted_at", JStr now);
    ("company_id", id c);
    ("frontend_url", JStr (frontend_url c));
    ("extraction_type", JStr "ai_output_verification");
    ("total_fields", JNum 15) ].

(** The record after the field loop and after the summary, in closed
    form. *)
Definition extracted (res : string → option string) (now : string) (c : company)
    : object :=
  (stored res <$> fields)
  ++ [("_extraction_metadata", JObj (initial_metadata now c))].

Definition summarised (res : string → option string) (now : string) (c : company)
    : object :=
  let n := fieldsWithData (extracted res now c) in
  (stored res <$> fields)
  ++ [("_extraction_metadata",
       JObj (initial_metadata now c
             ++ [("fields_extracted", JNum (Z.of_nat n));
                 ("extraction_success", JBool (0 <? n)%nat)]))].

(** The keys of a verification record: the schema keys, then the
    metadata. *)
Definition record_keys : list string := fields.*2 ++ ["_extraction_metadata"].

(** The number of keys that do not start with an underscore and hold a
    string that is not empty once trimmed. *)
Definition filled (rec : object) (key : string) : bool :=
  negb (startsWith key "_")
  && match get_prop key rec with
     | Some (JStr s) => negb (String.eqb (trim s) "")
     | _ => false
     end.

Definition count_filled (rec : object) : nat :=
  length (List.filter (filled rec) (keys rec)).

(** The record with the [extracted_at] of its metadata overwritten. *)
Definition with_extracted_at (t : string) (rec : object) : object :=
  match get_prop "_extraction_metadata" rec with
  | Some (JObj meta) =>
      set_prop "_extraction_metadata"
        (JObj (set_prop "extracted_at" (JStr t) meta)) rec
  | _ => rec
  end.

(** Navigation for [c] ends on a page whose address names the detail
    view. *)
Definition lands_on_detail (visit : browser) (c : company) : Prop :=
  ∃ pg, visit (frontend_url c) = Some pg
        ∧ includes (url pg) "company-detail" = true.

(** Navigation for [c] loads a page, but not the detail view. *)
Definition lands_elsewhere (visit : browser) (c : company) : Prop :=
  ∃ pg, visit (frontend_url c) = Some pg
        ∧ includes (url pg) "company-detail" = false.

(** The resolution [res] with the field labelled [label] forced to
    "not found". *)
Definition force_not_found (label : string) (res : string → option string)
    : string → option string :=
  λ l, if String.eqb l label then None else res l.

(** [rec] lists exactly the record keys, and every schema key holds what
    its field resolved to on [pg], the empty string when nothing was
    found. *)
Definition schema_complete (pg : page) (rec : object) : Prop :=
  keys rec = record_keys
  ∧ ∀ f, f ∈ fields →
      get_prop f.2 rec = Some (JStr (default "" (resolveField (body pg) f.1))).

(** The behaviour the specification describes for a wrong page, on the
    companies of a run: the company that lands elsewhere gets a record
    with no field extracted, and every company after it gets its file. *)
Definition continues_past_wrong_page (JSON_stringify : jsval → string)
    (visit : browser) (clock : nat → string) (companies : list company) : Prop :=
  ∀ before c after,
    companies = before ++ c :: after →
    lands_elsewhere visit c →
    let r := run JSON_stringify visit clock companies in
    (∃ rec meta,
        (output_file c, JSON_stringify (JObj rec)) ∈ written r
        ∧ get_prop "_extraction_metadata" rec = Some (JObj meta)
        ∧ get_prop "fields_extracted" meta = Some (JNum 0)
        ∧ get_prop "extraction_success" meta = Some (JBool false))
    ∧ ∀ c', c' ∈ after → output_file c' ∈ (written r).*1.

(** The elements below the children [ks] of the element at [here], the
    first of which has index [i]: the inner loop of [subtree_elements]. *)
Definition kids_elements (here : path) : nat → list node → list path :=
  fix go (i : nat) (ks : list node) : list path :=
    match ks with
    | [] => []
    | k :: ks' => subtree_elements (here ++ [i]) k ++ go (S i) ks'
    end.


End Notions.

Module FsNotions.
Import JsString Js Fs Tasks.

(** The file system with the entries [names] of the directory at [d]
    deleted. *)
Definition remove_names (names : list string) (d : path) (fs : inode) : inode :=
  alter_dir (λ es, foldr delete es names) d fs.

(** [name] is a regular file directly inside the directory at [d]. *)
Definition file_in (d : path) (fs : inode) (name : string) : Prop :=
  ∃ content a, lookup_path (d ++ [name]) fs = Some (File content a).

(** [p] lies strictly inside the directory at [d]. *)
Definition inside (p d : path) : Prop := ∃ x r, p = d ++ x :: r.

(** The file system as [moveDownloadedFile] finds it when it lists the
    downloads folder, that is, once it has made sure of the target
    folder. *)
Definition prepared (cwd : path) (now : Z) (targetFolder : string) (fs : inode)
    : inode :=
  let targetPath := path_join cwd targetFolder in
  ((do present <- existsSync targetPath;
    if negb present then mkdirSync_recursive now targetPath else ret tt) fs).2.

(** What [moveDownloadedFile] records for the name [file] of the
    directory at [d]. *)
Definition listed_at (d : path) (fs : inode) (file : string) : Tasks.listed :=
  {| l_name := file;
     l_path := d ++ [file];
     l_mtime := from_option (λ n, mtime (attrs_of n)) 0 (lookup_path (d ++ [file]) fs) |}.

(** The configuration store [configPath] can be patched for
    [companyName]: it is a readable and writable file whose text parses to
    an object listing a company of that name. *)
Definition patchable (JSON_parse : string → option jsval) (cwd : path)
    (companyName configPath : string) (fs : inode) : Prop :=
  ∃ content a configData companies index,
    lookup_path (path_join cwd configPath) fs = Some (File content a)
    ∧ readable a = true
    ∧ writable a = true
    ∧ JSON_parse content = Some configData
    ∧ Tasks.companies_of configData = inr companies
    ∧ Tasks.find_company companyName 0 companies = inr (Some index).

(** The configuration store [configPath] does not exist. *)
Definition missing (cwd : path) (configPath : string) (fs : inode) : Prop :=
  lookup_path (path_join cwd configPath) fs = None.

(** The head of a list, when there is one, is at least as recent as
    every member. *)
Definition newest_at_head (l : list Tasks.listed) : Prop :=
  match l with
  | [] => True
  | h :: _ => ∀ y, y ∈ l → l_mtime y ≤ l_mtime h
  end.

(** The path recorded for the memo of [companyName]. *)
Definition memo_path (companyName : string) : string :=
  "data/ai_outputs/" +:+ companyName +:+ "_Investment_Memo.pdf".

(** One call of the callback of [updateConfigWithMemoPath] has rewritten
    the store [configPath]: the store was a file whose text parsed to a
    configuration in which [find] found the company, and [fs'] is [fs]
    with that file replaced by the serialisation of the configuration
    with the memo path set on the company found, written at [now]. *)
Definition store_written (JSON_parse : string → option jsval)
    (JSON_stringify : jsval → string) (cwd : path) (now : Z)
    (companyName configPath : string) (fs fs' : inode) : Prop :=
  ∃ dir base content a0 configData companies index,
    path_join cwd configPath = dir ++ [base]
    ∧ lookup_path (dir ++ [base]) fs = Some (File content a0)
    ∧ JSON_parse content = Some configData
    ∧ Tasks.companies_of configData = inr companies
    ∧ Tasks.find_company companyName 0 companies = inr (Some index)
    ∧ fs' = alter_dir
              <[base := File (JSON_stringify
                                (Tasks.set_memo configData index
                                   (memo_path companyName)))
                          {| mtime := now; readable := readable a0;
                             writable := writable a0 |}]> dir fs.

(** Between [fs] and [fs'] the store at [p] has been updated with the
    memo path of [companyName]: its text in [fs] parsed to a
    configuration listing the company, and in [fs'] it is the
    serialisation, written at [now], of that configuration changed in one
    place: the first company of the list with that name now carries the
    memo path under [ai_generated_memo]. *)
Definition store_updated (JSON_parse : string → option jsval)
    (JSON_stringify : jsval → string) (now : Z)
    (companyName : string) (p : path) (fs fs' : inode) : Prop :=
  ∃ content a configData companies index props configData' companies',
    lookup_path p fs = Some (File content a)
    ∧ JSON_parse content = Some configData
    ∧ Tasks.companies_of configData = inr companies
    ∧ Tasks.find_company companyName 0 companies = inr (Some index)
    ∧ companies !! index = Some (JObj props)
    ∧ get_prop "name" props = Some (JStr companyName)
    ∧ lookup_path p fs'
      = Some (File (JSON_stringify configData')
                {| mtime := now; readable := readable a; writable := writable a |})
    ∧ configData' = Tasks.set_memo configData index (memo_path companyName)
    ∧ Tasks.companies_of configData' = inr companies'
    ∧ length companies' = length companies
    ∧ companies' !! index
      = Some (JObj (set_prop "ai_generated_memo" (JStr (memo_path companyName)) props))
    ∧ get_prop "ai_generated_memo"
        (set_prop "ai_generated_memo" (JStr (memo_path companyName)) props)
      = Some (JStr (memo_path companyName))
    ∧ ∀ j, j ≠ index → companies' !! j = companies !! j.

End FsNotions.

(* ===================================================================== *)
(** * Sample inputs *)
(* ===================================================================== *)

Module Samples.
Import JsString Js Dom Commands DataExtraction Notions.

(** A card as the application renders it: a container, a label and the
    elements given for the value. *)
Definition card (label : string) (value : list node) : node :=
  Element "div" "rounded-lg border p-4"
    (Element "span" "text-xs text-content-secondary" [TextNode label] :: value).

Definition structural_cell (text : string) : node :=
  Element "div" "mt-1 line-clamp-2 text-sm font-medium text-content-primary"
    [TextNode text].


(** A detail view showing two fields and a label without value. *)
Definition detail_body : node :=
  Element "body" ""
    [ card "Industry" [structural_cell "  Fintech "];
      card "Location" [structural_cell "Jakarta"];
      card "Founders" [] ].


Definition detail_page : page :=
  {| url := "https://alphame.adgo.dev/company-detail/7"; body := detail_body |}.

Definition login_page : page :=
  {| url := "https://alphame.adgo.dev/login"; body := Element "body" "" [] |}.

Definition acme : company :=
  {| id := JNum 3; name := "Acme";
     frontend_url := "https://alphame.adgo.dev/company-detail/3" |}.

Definition globex : company :=
  {| id := JNum 7; name := "Globex";
     frontend_url := "https://alphame.adgo.dev/company-detail/7" |}.

(** The application serves the detail view of company 7 and sends every
    other address to the login page. *)
Definition sample_visit : browser :=
  λ address,
    if String.eqb address "https://alphame.adgo.dev/company-detail/7"
    then Some detail_page else Some login_page.

Definition sample_clock (index : nat) : string :=
  "2025-01-01T00:00:0" +:+ pretty index +:+ ".000Z".

(** A stand-in for [JSON.stringify] that prints the filled-field count. *)
Definition sample_stringify (v : jsval) : string :=
  match v with
  | JObj rec => pretty (count_filled rec)
  | _ => ""
  end.

End Samples.

Module FsSamples.
Import JsString Js Fs Tasks FsNotions.

Definition rw (t : Z) : attrs :=
  {| mtime := t; readable := true; writable := true |}.

(** A downloads folder with two PDF files, another file and a
    subdirectory. *)
Definition sample_downloads : inode :=
  Dir (list_to_map
         [ ("a.pdf", File "older memo" (rw 5));
           ("b.PDF", File "newer memo" (rw 9));
           ("note.txt", File "note" (rw 20));
           ("sub", Dir (list_to_map [("c.pdf", File "kept" (rw 30))]) (rw 1)) ])
      (rw 2).

(** A project at [/proj] with the fixtures copy of [config.json] and no
    copy at the project root. *)
Definition sample_fs : inode :=
  Dir (list_to_map
         [ ("proj",
            Dir (list_to_map
                   [ ("cypress",
                      Dir (list_to_map
                             [ ("downloads", sample_downloads);
                               ("fixtures",
                                Dir (list_to_map
                                       [("config.json", File "CONFIG" (rw 3))])
                                    (rw 1)) ])
                          (rw 1)) ])
                (rw 1)) ])
      (rw 0).

Definition sample_cwd : path := ["proj"].
Definition sample_downloadsFolder : path := ["proj"; "cypress"; "downloads"].

Definition sample_config : jsval :=
  JObj [("companies", JArr [JObj [("id", JNum 1); ("name", JStr "Acme")]])].

(** Stand-ins for [JSON.parse] and [JSON.stringify] on the sample
    store. *)
Definition sample_parse (text : string) : option jsval :=
  if String.eqb text "CONFIG" then Some sample_config else None.

Definition sample_print (v : jsval) : string :=
  match companies_of v with
  | inr [JObj props] => from_option toString "" (get_prop "ai_generated_memo" props)
  | _ => ""
  end.

End FsSamples.

(* ===================================================================== *)
(** * Further notions and sample inputs *)
(* ===================================================================== *)

Module ExtractionNotions.
Import JsString Js Dom Commands DataExtraction Notions.

(** No white space at the start, none at the end. *)
Definition starts_clean (s : string) : Prop :=
  ∀ w, w ∈ white_space → startsWith s w = false.

Definition ends_clean (s : string) : Prop :=
  ∀ w, w ∈ white_space → endsWith s w = false.

(** The members of [ws] are one to three bytes long. *)
Definition short (ws : list string) : Prop :=
  Forall (λ w, (1 ≤ String.length w ≤ 3)%nat) ws.

(** The field resolves on the page to text that is not blank. *)
Definition resolves_nonblank (body : node) (f : string * string) : bool :=
  match resolveField body f.1 with
  | Some v => negb (String.eqb v "")
  | None => false
  end.

(** [w] is the file written for [c], the company at position [i] of the
    run: navigation reached the detail view [pg], and [w] is the name
    built from the company name with the serialisation of the record
    that [process_company] returned at the time of that callback, a
    schema-complete record for [pg]. *)
Definition written_at (JSON_stringify : jsval → string) (visit : browser)
    (clock : nat → string) (i : nat) (c : company) (w : string * string) : Prop :=
  ∃ pg rec,
    visit (frontend_url c) = Some pg
    ∧ includes (url pg) "company-detail" = true
    ∧ process_company visit (clock i) c = inr (w.1, rec)
    ∧ w.1 = output_file c
    ∧ w.2 = JSON_stringify (JObj rec)
    ∧ schema_complete pg rec.

(** The companies of a run up to the first that does not land on the
    detail view, and those from it on. *)
Definition reaches_detail (visit : browser) (companies processed rest : list company)
    : Prop :=
  companies = processed ++ rest
  ∧ Forall (lands_on_detail visit) processed
  ∧ match rest with
    | [] => True
    | c :: _ => ¬ lands_on_detail visit c
    end.
(** The page with the node at [q] taken out.  An empty text node stands
    in for it, so that every other node keeps its path; selectors and
    [text()] do not see an empty text node. *)
Fixpoint remove_at (q : path) (n : node) : node :=
  match q with
  | [] => TextNode ""
  | i :: q' =>
      match n with
      | Element tag cls kids => Element tag cls (alter (remove_at q') i kids)
      | TextNode _ => n
      end
  end.

(** [p] is [q] or lies below it. *)
Fixpoint at_or_below (q p : path) : bool :=
  match q, p with
  | [], _ => true
  | i :: q', j :: p' => Nat.eqb i j && at_or_below q' p'
  | _ :: _, [] => false
  end.

(** No member of the selector list looks at the text of an element. *)
Definition ignores_text (sel : selector) : Prop :=
  Forall (λ c, sel_contains c = None) sel.

(** Independence of the fields on a page, as the specification has it:
    when a part [q] of the card of a field [f] is taken out of the page
    so that [f] is not found any more, the value stored for any other
    field [g] is what it was. *)
Definition independent_on_page (body : node) (rec : object) : Prop :=
  ∀ f g q,
    f ∈ fields → g ∈ fields → f ≠ g →
    (∃ c, c ∈ closest body container_selector (find body (label_selector f.1) [[]])
          ∧ at_or_below c q = true) →
    resolveField (remove_at q body) f.1 = None →
    get_prop g.2 (extractCompanyFields (remove_at q body) rec)
    = get_prop g.2 (extractCompanyFields body rec).

End ExtractionNotions.

Module FrameNotions.
Import JsString Js Fs Tasks.

(** Neither path leads to the other. *)
Definition diverge (p q : path) : Prop :=
  is_prefix p q = false ∧ is_prefix q p = false.

(** [name] is an entry of [es] that is a regular file. *)
Definition file_entry (es : gmap string inode) (name : string) : bool :=
  match es !! name with
  | Some (File _ _) => true
  | _ => false
  end.

End FrameNotions.

Module ExtractionSamples.
Import JsString Js Dom Commands DataExtraction Notions Samples.

(** Detail views that differ in how a field is left out: a value cell
    holding white space only, and no value cell at all. *)
Definition blank_cell_page : page :=
  {| url := "https://alphame.adgo.dev/company-detail/7";
     body := Element "body" ""
               [ card "Industry" [structural_cell "Fintech"];
                 card "Founders" [structural_cell "   "] ] |}.

Definition no_cell_page : page :=
  {| url := "https://alphame.adgo.dev/company-detail/7";
     body := Element "body" ""
               [ card "Industry" [structural_cell "Fintech"];
                 card "Founders" [] ] |}.

(** A detail view on which nothing is rendered yet. *)
Definition blank_detail_page : page :=
  {| url := "https://alphame.adgo.dev/company-detail/9";
     body := Element "body" "" [Element "div" "spinner" []] |}.

(** A detail view in which the card of "Sub-Industry" comes before the
    card of "Industry". *)
Definition overlapping_body : node :=
  Element "body" ""
    [ card "Sub-Industry" [structural_cell "Payments"];
      card "Industry" [structural_cell "Fintech"] ].

(** U+00A0, the no-break space. *)
Definition nbsp : string := bytes [194; 160]%N.

(** A detail view whose cells hold no-break spaces: nothing else for
    "Industry", around the text for "Location". *)
Definition nbsp_page : page :=
  {| url := "https://alphame.adgo.dev/company-detail/7";
     body := Element "body" ""
               [ card "Industry" [structural_cell nbsp];
                 card "Location" [structural_cell (nbsp +:+ "Jakarta" +:+ nbsp)];
                 card "Founders" [structural_cell "Ada"] ] |}.

Definition nbsp_visit : browser := λ _, Some nbsp_page.

(** Two cards inside a wrapper that carries the class of a label and is
    itself a rounded [div]. *)
Definition wrapper_body : node :=
  Element "body" ""
    [ Element "div" "rounded-xl text-content-secondary"
        [ card "Location" [structural_cell "Jakarta"];
          card "Industry" [structural_cell "Fintech"] ] ].

End ExtractionSamples.

Module TaskSamples.
Import JsString Js Fs Tasks FsNotions FsSamples.

(** The sample project with a downloads folder that may be listed but
    not written to. *)
Definition locked_fs : inode :=
  Dir (list_to_map
         [ ("proj",
            Dir (list_to_map
                   [ ("cypress",
                      Dir (list_to_map
                             [ ("downloads",
                                Dir (list_to_map
                                       [ ("a.pdf", File "memo" (rw 5));
                                         ("sub", Dir ∅ (rw 1)) ])
                                    {| mtime := 2; readable := true;
                                       writable := false |}) ])
                          (rw 1)) ])
                (rw 1)) ])
      (rw 0).

(** A configuration that lists the same company name twice. *)
Definition duplicate_config : jsval :=
  JObj [ ("version", JNum 2);
         ("companies",
          JArr [ JObj [("id", JNum 1); ("name", JStr "Beta")];
                 JObj [("id", JNum 2); ("name", JStr "Acme")];
                 JObj [("id", JNum 3); ("name", JStr "Acme")] ]) ].

(** The reports of [updateConfigWithMemoPath] on the sample project, for
    a company the store does not list and for one it lists. *)
Definition nobody_report : patch_report :=
  {| success := false;
     totalFiles := 2;
     successCount := 0;
     results :=
       [ NotPatched "cypress/fixtures/config.json"
           "Company Nobody not found in cypress/fixtures/config.json";
         NotPatched "config.json" "File does not exist: config.json" ];
     summary := "Updated 0/2 config files for Nobody" |}.

Definition acme_report : patch_report :=
  {| success := true;
     totalFiles := 2;
     successCount := 1;
     results :=
       [ Patched "cypress/fixtures/config.json"
           "Updated cypress/fixtures/config.json with memo path for Acme"
           "data/ai_outputs/Acme_Investment_Memo.pdf";
         NotPatched "config.json" "File does not exist: config.json" ];
     summary := "Updated 1/2 config files for Acme" |}.

(** The sample project with a downloads folder that holds a PDF file and
    a more recent directory whose name ends in [.pdf]. *)
Definition scan_fs : inode :=
  Dir (list_to_map
         [ ("proj",
            Dir (list_to_map
                   [ ("cypress",
                      Dir (list_to_map
                             [ ("downloads",
                                Dir (list_to_map
                                       [ ("memo.pdf", File "memo" (rw 5));
                                         ("scan.pdf",
                                          Dir (list_to_map
                                                 [("page1.png", File "scan" (rw 8))])
                                              (rw 9)) ])
                                    (rw 2)) ])
                          (rw 1)) ])
                (rw 1)) ])
      (rw 0).

End TaskSamples.

(* ===================================================================== *)
(** * Properties *)
(* ===================================================================== *)

(** ** Strings and objects *)

Section JsFacts.
Import JsString Js.

Lemma trim_empty : trim "" = "".
Proof. reflexivity. Qed.

Lemma get_set_prop_eq k v o : get_prop k (set_prop k v o) = Some v.
Proof.
  induction o as [|[k' v'] o IH]; simpl.
  - by rewrite String.eqb_refl.
  - destruct (String.eqb k k') eqn:E; simpl; rewrite E; auto.
Qed.

Lemma get_set_prop_ne k k' v o :
  k ≠ k' → get_prop k' (set_prop k v o) = get_prop k' o.
Proof.
  intros Hne. induction o as [|[k0 v0] o IH]; simpl.
  - destruct (String.eqb k' k) eqn:E; [|done].
    apply String.eqb_eq in E. congruence.
  - destruct (String.eqb k k0) eqn:E; simpl.
    + apply String.eqb_eq in E. subst k0.
      destruct (String.eqb k' k) eqn:E'; [|done].
      apply String.eqb_eq in E'. congruence.
    + by rewrite IH.
Qed.

Lemma get_prop_None k o : k ∉ keys o → get_prop k o = None.
Proof.
  unfold keys. induction o as [|[k' v'] o IH]; simpl; [done|].
  intros Hk. apply not_elem_of_cons in Hk as [Hne Hk].
  destruct (String.eqb k k') eqn:E; [|auto].
  apply String.eqb_eq in E. congruence.
Qed.

Lemma get_prop_app_here k w pre post :
  k ∉ keys pre → get_prop k (pre ++ (k, w) :: post) = Some w.
Proof.
  unfold keys. induction pre as [|[k' v'] pre IH]; simpl.
  - by rewrite String.eqb_refl.
  - intros Hk. apply not_elem_of_cons in Hk as [Hne Hk].
    destruct (String.eqb k k') eqn:E; [|auto].
    apply String.eqb_eq in E. congruence.
Qed.

Lemma set_prop_app_here k v w pre post :
  k ∉ keys pre → set_prop k v (pre ++ (k, w) :: post) = pre ++ (k, v) :: post.
Proof.
  unfold keys. induction pre as [|[k' v'] pre IH]; simpl.
  - by rewrite String.eqb_refl.
  - intros Hk. apply not_elem_of_cons in Hk as [Hne Hk].
    destruct (String.eqb k k') eqn:E.
    + apply String.eqb_eq in E. congruence.
    + by rewrite IH.
Qed.

Lemma keys_set_prop_here k v w pre post :
  keys (pre ++ (k, v) :: post) = keys (pre ++ (k, w) :: post).
Proof. unfold keys. by rewrite !fmap_app. Qed.

End JsFacts.

(** ** The record built by [extractCompanyFields] *)

Section RecordFacts.
Import JsString Js Dom Commands DataExtraction Notions.

Lemma fields_keys_NoDup : NoDup fields.*2.
Proof. compute_done. Qed.

Lemma fields_labels_NoDup : NoDup fields.*1.
Proof. compute_done. Qed.

Lemma fields_not_reserved k : k ∈ fields.*2 → startsWith k "_" = false.
Proof.
  intros Hk.
  assert (Forall (λ k, startsWith k "_" = false) fields.*2) as Hall
    by compute_done.
  by apply (proj1 (Forall_forall _ _) Hall).
Qed.

(** A field that is not listed again later keeps what one iteration
    stored for it. *)
Lemma get_prop_fold_other res fs rec k :
  k ∉ fs.*2 →
  get_prop k (fold_left (assign_field res) fs rec) = get_prop k rec.
Proof.
  revert rec. induction fs as [|f fs IH]; intros rec Hk; simpl; [done|].
  rewrite fmap_cons in Hk. apply not_elem_of_cons in Hk as [Hne Hk].
  rewrite IH by done. unfold assign_field.
  destruct (res f.1); [|done]. by apply get_set_prop_ne.
Qed.

(** What the loop leaves under a field's key depends on that field's own
    resolution only. *)
Lemma get_prop_fold_assign res fs rec g :
  NoDup fs.*2 → g ∈ fs →
  get_prop g.2 (fold_left (assign_field res) fs rec)
  = match res g.1 with
    | Some v => Some (JStr v)
    | None => get_prop g.2 rec
    end.
Proof.
  revert rec. induction fs as [|f fs IH]; intros rec Hnd Hg.
  - by apply elem_of_nil in Hg.
  - rewrite fmap_cons in Hnd. apply NoDup_cons in Hnd as [Hf Hnd].
    apply elem_of_cons in Hg as [->|Hg]; simpl.
    + rewrite get_prop_fold_other by done. unfold assign_field.
      destruct (res f.1); [|done]. apply get_set_prop_eq.
    + rewrite IH by done.
      assert (f.2 ≠ g.2) as Hne.
      { intros Heq. apply Hf. rewrite Heq. by apply list_elem_of_fmap_2. }
      destruct (res g.1); [done|]. unfold assign_field.
      destruct (res f.1); [|done]. by apply get_set_prop_ne.
Qed.

(** The loop in closed form, on a record that lists the fields in schema
    order with blank values. *)
Lemma fold_assign_blank res fs pre post :
  NoDup fs.*2 → (∀ k, k ∈ fs.*2 → k ∉ keys pre) →
  fold_left (assign_field res) fs (pre ++ (blank <$> fs) ++ post)
  = pre ++ (stored res <$> fs) ++ post.
Proof.
  revert pre. induction fs as [|f fs IH]; intros pre Hnd Hpre; [done|].
  rewrite fmap_cons in Hnd. apply NoDup_cons in Hnd as [Hf Hnd].
  rewrite !fmap_cons. simpl.
  assert (assign_field res (pre ++ blank f :: (blank <$> fs) ++ post) f
          = pre ++ stored res f :: (blank <$> fs) ++ post) as ->.
  { unfold assign_field, stored, blank. destruct (res f.1) as [v|]; simpl; [|done].
    apply set_prop_app_here, Hpre. rewrite fmap_cons. apply elem_of_cons; auto. }
  rewrite (cons_middle (stored res f) pre), (assoc_L (++)).
  rewrite IH; [by rewrite <- (assoc_L (++))|done|].
  intros k Hk. unfold keys. rewrite fmap_app. simpl.
  intros [Hin|Hin%list_elem_of_singleton]%elem_of_app.
  - apply (Hpre k); [|done]. rewrite fmap_cons. apply elem_of_cons; auto.
  - apply Hf. by rewrite <- Hin.
Qed.

Lemma initial_record_blank now c :
  initial_record now c
  = [] ++ (blank <$> fields) ++ [("_extraction_metadata", JObj (initial_metadata now c))].
Proof. reflexivity. Qed.

Lemma extractCompanyFields_with_initial res now c :
  extractCompanyFields_with res (initial_record now c) = extracted res now c.
Proof.
  unfold extractCompanyFields_with, extracted. rewrite initial_record_blank.
  rewrite fold_assign_blank; [done|apply fields_keys_NoDup|].
  intros k _. apply not_elem_of_nil.
Qed.

Lemma keys_stored res fs post :
  keys ((stored res <$> fs) ++ post) = fs.*2 ++ keys post.
Proof.
  unfold keys. rewrite fmap_app. f_equal.
  rewrite <- list_fmap_compose. by apply list_fmap_ext.
Qed.

Lemma metadata_key_fresh res : "_extraction_metadata" ∉ keys (stored res <$> fields).
Proof.
  pose proof (keys_stored res fields []) as Hk. rewrite !app_nil_r in Hk.
  rewrite Hk. compute_done.
Qed.

Lemma get_prop_stored res fs post f :
  NoDup fs.*2 → f ∈ fs →
  get_prop f.2 ((stored res <$> fs) ++ post) = Some (JStr (default "" (res f.1))).
Proof.
  induction fs as [|g fs IH]; intros Hnd Hf.
  - by apply elem_of_nil in Hf.
  - rewrite fmap_cons in Hnd. apply NoDup_cons in Hnd as [Hg Hnd].
    rewrite fmap_cons. simpl.
    apply elem_of_cons in Hf as [->|Hf].
    + by rewrite String.eqb_refl.
    + destruct (String.eqb f.2 g.2) eqn:E; [|by apply IH].
      apply String.eqb_eq in E. exfalso. apply Hg. rewrite <- E.
      by apply list_elem_of_fmap_2.
Qed.

(** On a string the test of the source amounts to "not empty once
    trimmed". *)
Lemma has_data_filled rec key :
  (startsWith key "_" = false → ∃ s, get_prop key rec = Some (JStr s)) →
  has_data rec key = filled rec key.
Proof.
  unfold has_data, filled. destruct (startsWith key "_"); [done|].
  intros [s ->]; [done|]. simpl.
  destruct s; [by rewrite trim_empty|done].
Qed.

Lemma add_summary_extracted res now c :
  add_summary (extracted res now c) = inr (summarised res now c).
Proof.
  unfold add_summary, extracted, summarised.
  rewrite get_prop_app_here by apply metadata_key_fresh.
  rewrite set_prop_app_here by apply metadata_key_fresh.
  reflexivity.
Qed.

Lemma process_company_detail visit now c pg :
  visit (frontend_url c) = Some pg →
  includes (url pg) "company-detail" = true →
  process_company visit now c
  = inr (output_file c, summarised (resolveField (body pg)) now c).
Proof.
  intros Hv Hu. unfold process_company. rewrite Hv, Hu.
  unfold extractCompanyFields. rewrite extractCompanyFields_with_initial.
  by rewrite (add_summary_extracted (resolveField (body pg)) now c).
Qed.

Lemma process_company_elsewhere visit now c pg :
  visit (frontend_url c) = Some pg →
  includes (url pg) "company-detail" = false →
  process_company visit now c
  = inl "AssertionError: expected url to include 'company-detail'".
Proof. intros Hv Hu. unfold process_company. by rewrite Hv, Hu. Qed.

Lemma process_company_inr visit now c file rec :
  process_company visit now c = inr (file, rec) →
  ∃ pg, visit (frontend_url c) = Some pg
        ∧ includes (url pg) "company-detail" = true
        ∧ file = output_file c
        ∧ rec = summarised (resolveField (body pg)) now c.
Proof.
  intros H. destruct (visit (frontend_url c)) as [pg|] eqn:Hv.
  - destruct (includes (url pg) "company-detail") eqn:Hu.
    + rewrite (process_company_detail _ _ _ pg Hv Hu) in H.
      exists pg. by simplify_eq.
    + by rewrite (process_company_elsewhere _ _ _ pg Hv Hu) in H.
  - unfold process_company in H. by rewrite Hv in H.
Qed.

(** The count of the source, taken before the summary is attached, is the
    count of filled keys of the finished record. *)
Lemma fieldsWithData_count_filled res now c :
  fieldsWithData (extracted res now c) = count_filled (summarised res now c).
Proof.
  unfold fieldsWithData, count_filled.
  assert (keys (summarised res now c) = keys (extracted res now c)) as ->.
  { unfold summarised, extracted. by rewrite !keys_stored. }
  apply (f_equal length), filter_ext_in. intros key Hkey.
  apply list_elem_of_In in Hkey. unfold extracted in Hkey.
  rewrite keys_stored in Hkey. apply elem_of_app in Hkey as [Hkey|Hkey].
  - apply list_elem_of_fmap in Hkey as [f [-> Hf]].
    rewrite has_data_filled.
    + unfold filled, extracted, summarised.
      by rewrite !get_prop_stored by (apply fields_keys_NoDup || done).
    + intros _. unfold extracted.
      rewrite get_prop_stored by (apply fields_keys_NoDup || done). eauto.
  - apply list_elem_of_singleton in Hkey. simpl in Hkey. subst key. reflexivity.
Qed.

End RecordFacts.

(** ** The extraction loop *)

Section ExtractionLoop.
Import JsString Js Dom Commands DataExtraction Notions Samples.
Import ExtractionNotions ExtractionSamples.

Lemma summarised_schema_complete pg now c :
  schema_complete pg (summarised (resolveField (body pg)) now c).
Proof.
  split.
  - unfold summarised. by rewrite keys_stored.
  - intros f Hf. unfold summarised.
    by rewrite get_prop_stored by (apply fields_keys_NoDup || done).
Qed.

Lemma ltb_bool_decide (n : nat) : (0 <? n)%nat = bool_decide (0 < n)%nat.
Proof.
  destruct (0 <? n)%nat eqn:E.
  - apply Nat.ltb_lt in E. by rewrite bool_decide_eq_true_2.
  - apply Nat.ltb_ge in E. rewrite bool_decide_eq_false_2; [done|lia].
Qed.

(** C1: in every record handed over for writing, the metadata field
    [fields_extracted] is the number of keys that do not start with an
    underscore and whose value is a string that is not empty once trimmed,
    and [extraction_success] is true exactly when that number is
    positive. *)
Theorem fields_extracted_counts_filled_keys visit now c file rec :
  process_company visit now c = inr (file, rec) →
  ∃ meta,
    get_prop "_extraction_metadata" rec = Some (JObj meta)
    ∧ get_prop "fields_extracted" meta
      = Some (JNum (Z.of_nat (count_filled rec)))
    ∧ get_prop "extraction_success" meta
      = Some (JBool (bool_decide (0 < count_filled rec)%nat)).
Proof.
  intros (pg & _ & _ & _ & ->)%process_company_inr.
  set (res := resolveField (body pg)).
  rewrite <- fieldsWithData_count_filled, <- ltb_bool_decide.
  eexists. split; [|split].
  - unfold summarised. apply get_prop_app_here, metadata_key_fresh.
  - reflexivity.
  - reflexivity.
Qed.

(** The loop from a given index on: it writes one file for each company
    up to the first that does not land on the detail view, and fails
    there. *)
Lemma each_processed JSON_stringify visit clock index companies :
  let r := each JSON_stringify visit clock index companies in
  ∃ processed rest,
    reaches_detail visit companies processed rest
    ∧ (failure r = None ↔ rest = [])
    ∧ length (written r) = length processed
    ∧ ∀ i c, processed !! i = Some c →
        ∃ w, written r !! i = Some w
             ∧ written_at JSON_stringify visit clock (index + i) c w.
Proof.
  revert index. induction companies as [|c cs IH]; intros index; simpl.
  - exists [], []. split; [by repeat split|]. split; [done|]. split; [done|].
    intros i c. by rewrite lookup_nil.
  - destruct (process_company visit (clock index) c) as [err|[file rec]] eqn:Hp.
    + exists [], (c :: cs). simpl. split.
      { split; [done|]. split; [constructor|].
        intros (pg & Hv & Hu). by rewrite (process_company_detail _ _ _ pg Hv Hu) in Hp. }
      split; [done|]. split; [done|]. intros i c'. by rewrite lookup_nil.
    + destruct (IH (S index)) as (processed & rest & (-> & Hall & Hrest) & Hf & Hlen & Hw).
      pose proof Hp as (pg & Hv & Hu & -> & ->)%process_company_inr.
      exists (c :: processed), rest. simpl. split.
      { split; [done|]. split; [|done]. constructor; [by exists pg|done]. }
      split; [done|]. split; [by rewrite Hlen|].
      intros [|i] c'; simpl.
      * intros [= <-]. eexists. split; [done|].
        exists pg, (summarised (resolveField (body pg)) (clock index) c).
        rewrite Nat.add_0_r. simpl. split; [done|]. split; [done|].
        split; [done|]. split; [done|]. split; [done|].
        apply summarised_schema_complete.
      * intros Hi. destruct (Hw i c' Hi) as (w & Hwi & Hat).
        exists w. split; [done|]. by replace (index + S i)%nat with (S index + i)%nat by lia.
Qed.

(** C4: a run writes exactly one file for every company up to the first
    whose navigation does not land on the detail view, in order, and none
    from that company on; it ends without failure exactly when there is
    no such company, and then every company has its file.  Each file
    holds the record of its company: the keys are the 15 schema keys
    followed by [_extraction_metadata], and a schema key holds what its
    field resolved to on the page, the empty string when the field was
    not found. *)
Theorem one_schema_complete_record_per_company JSON_stringify visit clock companies :
  let r := run JSON_stringify visit clock companies in
  length fields = 15%nat
  ∧ length record_keys = 16%nat
  ∧ (∃ processed rest,
       reaches_detail visit companies processed rest
       ∧ (failure r = None ↔ rest = [])
       ∧ length (written r) = length processed
       ∧ ∀ i c, processed !! i = Some c →
           ∃ w, written r !! i = Some w
                ∧ written_at JSON_stringify visit clock i c w)
  ∧ (Forall (lands_on_detail visit) companies →
     failure r = None
     ∧ length (written r) = length companies
     ∧ ∀ i c, companies !! i = Some c →
         ∃ w, written r !! i = Some w
              ∧ written_at JSON_stringify visit clock i c w).
Proof.
  split; [done|]. split; [done|].
  destruct (each_processed JSON_stringify visit clock 0 companies)
    as (processed & rest & Hreach & Hf & Hlen & Hw).
  split.
  { exists processed, rest. done. }
  intros Hall. destruct Hreach as (-> & _ & Hrest).
  destruct rest as [|c rest].
  - rewrite app_nil_r in *. split; [by apply Hf|]. done.
  - exfalso. apply Hrest. apply Forall_app in Hall as [_ Hall].
    by apply Forall_cons in Hall as [? _].
Qed.

Lemma fields_label_inj f g : f ∈ fields → g ∈ fields → f.1 = g.1 → f = g.
Proof.
  assert (Forall (λ f, Forall (λ g : string * string, f.1 = g.1 → f = g) fields)
            fields) as Hall by compute_done.
  intros Hf Hg. eapply (proj1 (Forall_forall _ _)) in Hall; [|exact Hf].
  eapply (proj1 (Forall_forall _ _)) in Hall; [|exact Hg]. done.
Qed.

Lemma fieldsWithData_extracted_time res t1 t2 c :
  fieldsWithData (extracted res t1 c) = fieldsWithData (extracted res t2 c).
Proof.
  unfold fieldsWithData.
  assert (keys (extracted res t1 c) = keys (extracted res t2 c)) as ->.
  { unfold extracted. by rewrite !keys_stored. }
  apply (f_equal length), filter_ext_in. intros key Hkey.
  apply list_elem_of_In in Hkey. unfold extracted in Hkey.
  rewrite keys_stored in Hkey. apply elem_of_app in Hkey as [Hkey|Hkey].
  - apply list_elem_of_fmap in Hkey as [f [-> Hf]].
    unfold has_data, extracted.
    by rewrite !get_prop_stored by (apply fields_keys_NoDup || done).
  - apply list_elem_of_singleton in Hkey. simpl in Hkey. subst key. reflexivity.
Qed.

Lemma with_extracted_at_summarised res t now c :
  with_extracted_at t (summarised res now c) = summarised res t c.
Proof.
  unfold with_extracted_at, summarised.
  rewrite get_prop_app_here by apply metadata_key_fresh.
  rewrite set_prop_app_here by apply metadata_key_fresh.
  by rewrite (fieldsWithData_extracted_time res now t c).
Qed.

(** C6: two extractions for the same company on the same, unchanged
    application, taken at times [t1] and [t2], either both fail with the
    same error or both write the same file name and records that are equal
    once [extracted_at] is overwritten by a common value; so are their
    serialisations. *)
Theorem extraction_deterministic_up_to_timestamp visit t1 t2 c :
  match process_company visit t1 c, process_company visit t2 c with
  | inr (file1, rec1), inr (file2, rec2) =>
      file1 = file2
      ∧ ∀ t, with_extracted_at t rec1 = with_extracted_at t rec2
             ∧ ∀ JSON_stringify : jsval → string,
                 JSON_stringify (JObj (with_extracted_at t rec1))
                 = JSON_stringify (JObj (with_extracted_at t rec2))
  | inl err1, inl err2 => err1 = err2
  | _, _ => False
  end.
Proof.
  destruct (visit (frontend_url c)) as [pg|] eqn:Hv.
  - destruct (includes (url pg) "company-detail") eqn:Hu.
    + rewrite !(process_company_detail _ _ _ pg Hv Hu).
      split; [done|]. intros t. rewrite !with_extracted_at_summarised. done.
    + by rewrite !(process_company_elsewhere _ _ _ pg Hv Hu).
  - unfold process_company. by rewrite Hv.
Qed.

Lemma each_detail_prefix JSON_stringify visit clock index before rest :
  Forall (lands_on_detail visit) before →
  let r := each JSON_stringify visit clock index (before ++ rest) in
  let r' := each JSON_stringify visit clock (index + length before) rest in
  (written r).*1 = (output_file <$> before) ++ (written r').*1
  ∧ failure r = failure r'.
Proof.
  intros Hall. revert index.
  induction Hall as [|c before (pg & Hv & Hu) _ IH]; intros index; simpl.
  - by rewrite Nat.add_0_r.
  - rewrite (process_company_detail _ _ _ pg Hv Hu). simpl.
    destruct (IH (S index)) as [Hw Hf].
    replace (index + S (length before))%nat with (S index + length before)%nat by lia.
    split; [by f_equal|done].
Qed.

(** C2, as the code has it: when navigation for a company ends on a page
    whose address does not contain [company-detail], and the companies
    before it reached the detail view, the run fails on the address
    assertion having written the files of the companies before it and
    nothing else: no record for that company, none for those after it. *)
Theorem wrong_page_fails_the_run JSON_stringify visit clock before c after :
  Forall (lands_on_detail visit) before →
  lands_elsewhere visit c →
  let r := run JSON_stringify visit clock (before ++ c :: after) in
  failure r = Some "AssertionError: expected url to include 'company-detail'"
  ∧ (written r).*1 = output_file <$> before.
Proof.
  intros Hbefore (pg & Hv & Hu). simpl. unfold run.
  destruct (each_detail_prefix JSON_stringify visit clock 0 before (c :: after) Hbefore)
    as [Hw Hf].
  rewrite Hw, Hf. simpl. rewrite (process_company_elsewhere _ _ _ pg Hv Hu). simpl.
  by rewrite app_nil_r.
Qed.

Lemma fields_extracted_counts_filled_keys_witness :
  let rec := summarised (resolveField (body nbsp_page)) (sample_clock 0) globex in
  get_prop "industry" rec = Some (JStr "")
  ∧ get_prop "location" rec = Some (JStr "Jakarta")
  ∧ count_filled rec = 2%nat
  ∧ ∃ meta,
      get_prop "_extraction_metadata" rec = Some (JObj meta)
      ∧ get_prop "fields_extracted" meta = Some (JNum (Z.of_nat (count_filled rec)))
      ∧ get_prop "extraction_success" meta
        = Some (JBool (bool_decide (0 < count_filled rec)%nat)).
Proof.
  intros rec. split; [by vm_compute|]. split; [by vm_compute|].
  split; [by vm_compute|].
  apply (fields_extracted_counts_filled_keys nbsp_visit (sample_clock 0) globex
           (output_file globex) rec).
  by vm_compute.
Defined.

Lemma wrong_page_fails_the_run_witness :
  let r := run sample_stringify sample_visit sample_clock [globex; acme; globex] in
  failure r = Some "AssertionError: expected url to include 'company-detail'"
  ∧ (written r).*1 = [output_file globex].
Proof.
  apply (wrong_page_fails_the_run sample_stringify sample_visit sample_clock
           [globex] acme [globex]).
  - constructor; [|constructor]. exists detail_page. split; reflexivity.
  - exists login_page. split; reflexivity.
Defined.

Lemma one_schema_complete_record_per_company_witness :
  let visit : browser := λ _, Some detail_page in
  let r := run sample_stringify visit sample_clock [globex; acme] in
  (written r).*1 = [ "data/extracted/Globex_frontend_data.json";
                     "data/extracted/Acme_frontend_data.json" ]
  ∧ failure r = None
  ∧ length (written r) = 2%nat
  ∧ ∀ i c, [globex; acme] !! i = Some c →
      ∃ w, written r !! i = Some w
           ∧ written_at sample_stringify visit sample_clock i c w.
Proof.
  intros visit r. split; [by vm_compute|].
  apply (one_schema_complete_record_per_company sample_stringify visit
           sample_clock [globex; acme]).
  repeat constructor; exists detail_page; split; reflexivity.
Defined.

Lemma extraction_deterministic_up_to_timestamp_witness :
  with_extracted_at "1970-01-01T00:00:00.000Z"
    (summarised (resolveField detail_body) (sample_clock 0) globex)
  = with_extracted_at "1970-01-01T00:00:00.000Z"
      (summarised (resolveField detail_body) (sample_clock 1) globex).
Proof.
  exact (proj1 (proj2 (extraction_deterministic_up_to_timestamp sample_visit
                         (sample_clock 0) (sample_clock 1) globex)
                  "1970-01-01T00:00:00.000Z")).
Defined.

(** C2, as the specification has it, fails on the code: when the first of
    two companies lands on the login page, nothing is written for it, and
    nothing for the company after it either. *)
Lemma wrong_page_record_not_produced :
  run sample_stringify sample_visit sample_clock [acme; globex]
  = {| written := [];
       failure := Some "AssertionError: expected url to include 'company-detail'" |}
  ∧ ¬ continues_past_wrong_page sample_stringify sample_visit sample_clock
        [acme; globex].
Proof.
  split; [reflexivity|]. intros H.
  destruct (H [] acme [globex] eq_refl) as [_ Hnext].
  { exists login_page. split; reflexivity. }
  specialize (Hnext globex ltac:(by apply list_elem_of_singleton)).
  vm_compute in Hnext. by apply elem_of_nil in Hnext.
Qed.

End ExtractionLoop.

(** ** The value selector *)

Section ValueSelector.
Import JsString Js Dom Commands DataExtraction Notions Samples.

Lemma find_nil body sel : find body sel [] = [].
Proof.
  unfold find. induction (elements body) as [|q l IH]; [done|]. simpl. exact IH.
Qed.

Lemma closest_nil body sel : closest body sel [] = [].
Proof.
  unfold closest. simpl. induction (elements body) as [|q l IH]; [done|].
  simpl. exact IH.
Qed.


Lemma elem_of_filter_bool {A} (P : A → bool) l x :
  x ∈ List.filter P l ↔ x ∈ l ∧ P x = true.
Proof. rewrite !list_elem_of_In. apply filter_In. Qed.

(** Induction on a node, with the property available for all children. *)
Lemma node_induction (P : node → Prop) :
  (∀ s, P (TextNode s)) →
  (∀ tag cls kids, Forall P kids → P (Element tag cls kids)) →
  ∀ n, P n.
Proof.
  intros Htext Helem. fix IH 1. intros [s|tag cls kids]; [apply Htext|].
  apply Helem. induction kids as [|k kids IHk]; constructor; [apply IH|apply IHk].
Qed.

Lemma subtree_elements_Element here tag cls kids :
  subtree_elements here (Element tag cls kids) = here :: kids_elements here 0%nat kids.
Proof. reflexivity. Qed.

Lemma kids_elements_below here kids :
  Forall (λ k, ∀ at_ p, p ∈ subtree_elements at_ k → ∃ r, p = at_ ++ r) kids →
  ∀ i p, p ∈ kids_elements here i kids → ∃ j r, (i ≤ j)%nat ∧ p = here ++ j :: r.
Proof.
  induction 1 as [|k kids Hk _ IH]; intros i p Hp; simpl in Hp.
  - by apply elem_of_nil in Hp.
  - apply elem_of_app in Hp as [Hp|Hp].
    + apply Hk in Hp as [r ->]. exists i, r. split; [lia|].
      by rewrite <- (assoc_L (++)).
    + apply IH in Hp as (j & r & Hj & ->). exists j, r. split; [lia|done].
Qed.

Lemma subtree_elements_below n :
  ∀ here p, p ∈ subtree_elements here n → ∃ r, p = here ++ r.
Proof.
  induction n as [s|tag cls kids IH] using node_induction; intros here p Hp.
  - by apply elem_of_nil in Hp.
  - rewrite subtree_elements_Element in Hp.
    apply elem_of_cons in Hp as [->|Hp]; [exists []; by rewrite app_nil_r|].
    apply (kids_elements_below here kids IH) in Hp as (j & r & _ & ->). eauto.
Qed.






(** The command returns the text of the head of the candidate list. *)
Lemma resolveField_candidates body label :
  resolveField body label
  = match value_candidates body label with
    | [] => None
    | p :: _ => Some (trim (text body [p]))
    end.
Proof.
  unfold resolveField, value_candidates.
  destruct (find body (label_selector label) [[]]) as [|lab labs] eqn:Hlab.
  - simpl. by rewrite closest_nil, find_nil.
  - simpl length. change (0 <? S (length labs))%nat with true. simpl.
    destruct (find body value_selector (closest body container_selector (lab :: labs)))
      as [|p rest]; done.
Qed.




End ValueSelector.

(** ** The file system *)

Section FsFacts.
Import JsString Js Fs.

Lemma split_last_app p x : split_last (p ++ [x]) = Some (p, x).
Proof. induction p as [|y p IH]; simpl; [done|]. by rewrite IH. Qed.

Lemma split_last_Some p d x : split_last p = Some (d, x) → p = d ++ [x].
Proof.
  revert d. induction p as [|y p IH]; intros d; simpl; [done|].
  destruct (split_last p) as [[d' x']|] eqn:E.
  - intros [= <- <-]. simpl. f_equal. by apply IH.
  - intros [= <- <-]. destruct p; [done|]. simpl in E.
    by destruct (split_last p) as [[? ?]|].
Qed.

Lemma is_prefix_spec a p : is_prefix a p = true ↔ ∃ r, p = a ++ r.
Proof.
  revert p. induction a as [|x a IH]; intros p; simpl.
  - split; [eauto|done].
  - destruct p as [|y p].
    + split; [done|]. by intros [r ?].
    + rewrite andb_true_iff, String.eqb_eq, IH. split.
      * intros [-> [r ->]]. by exists r.
      * intros [r [= -> ->]]. eauto.
Qed.

Lemma is_prefix_app a r : is_prefix a (a ++ r) = true.
Proof. apply is_prefix_spec. eauto. Qed.

Lemma lookup_path_app p q n :
  lookup_path (p ++ q) n = lookup_path p n ≫= lookup_path q.
Proof.
  revert n. induction p as [|x p IH]; intros n; simpl; [done|].
  destruct n as [|es a]; [done|]. destruct (es !! x); simpl; [apply IH|done].
Qed.

Lemma lookup_path_snoc p x n :
  lookup_path (p ++ [x]) n
  = match lookup_path p n with
    | Some (Dir es _) => es !! x
    | _ => None
    end.
Proof.
  rewrite lookup_path_app. destruct (lookup_path p n) as [[|es a]|]; simpl; try done.
  by destruct (es !! x).
Qed.

(** Changing the entries of the directory at [p] shows at [p]. *)
Lemma lookup_alter_dir_here f p fs es a :
  lookup_path p fs = Some (Dir es a) →
  lookup_path p (alter_dir f p fs) = Some (Dir (f es) a).
Proof.
  revert fs. induction p as [|x p IH]; intros fs; simpl.
  - intros [= ->]. done.
  - destruct fs as [|es0 a0]; [done|]. simpl.
    rewrite lookup_alter_eq. destruct (es0 !! x) as [child|]; simpl; [apply IH|done].
Qed.

Lemma alter_dir_compose f g p fs :
  alter_dir f p (alter_dir g p fs) = alter_dir (f ∘ g) p fs.
Proof.
  revert fs. induction p as [|x p IH]; intros [c a|es a]; simpl; try done.
  f_equal. rewrite alter_alter_eq. apply alter_ext. intros child _. apply IH.
Qed.

Lemma alter_dir_id p fs : alter_dir (λ es, es) p fs = fs.
Proof.
  revert fs. induction p as [|x p IH]; intros [c a|es a]; simpl; try done.
  f_equal. apply alter_id. intros child _. apply IH.
Qed.

(** A path that does not pass through the directory at [d] is not affected
    by a change of its entries, as far as its existence and kind go. *)
Lemma lookup_alter_dir_off f d p fs :
  is_prefix d p = false →
  match lookup_path p fs with
  | None => lookup_path p (alter_dir f d fs) = None
  | Some (File c a) => lookup_path p (alter_dir f d fs) = Some (File c a)
  | Some (Dir _ a) => ∃ es', lookup_path p (alter_dir f d fs) = Some (Dir es' a)
  end.
Proof.
  revert d fs. induction p as [|y p IH]; intros d fs Hpre.
  - destruct d as [|x d]; [done|]. simpl.
    destruct fs as [c a|es a]; simpl; eauto.
  - destruct d as [|x d]; [done|]. simpl in Hpre.
    destruct fs as [c a|es a]; simpl; [done|].
    destruct (decide (y = x)) as [->|Hne].
    + rewrite String.eqb_refl in Hpre. simpl in Hpre.
      rewrite lookup_alter_eq. destruct (es !! x) as [child|]; simpl; [|done].
      by apply IH.
    + rewrite lookup_alter_ne by done.
      destruct (es !! y) as [child|]; simpl; [|done].
      destruct (lookup_path p child) as [[c' a'|es' a']|]; eauto.
Qed.

Lemma lookup_foldr_delete (es : gmap string inode) names x :
  foldr delete es names !! x = if decide (x ∈ names) then None else es !! x.
Proof.
  induction names as [|y names IH].
  - destruct (decide (x ∈ [])) as [H|_]; [by apply elem_of_nil in H|done].
  - cbn [foldr]. destruct (decide (y = x)) as [->|Hne].
    + rewrite lookup_delete_eq.
      destruct (decide (x ∈ x :: names)) as [_|H]; [done|].
      exfalso. apply H, elem_of_cons. by left.
    + rewrite lookup_delete_ne by done. rewrite IH.
      destruct (decide (x ∈ names)) as [Hin|Hin];
        destruct (decide (x ∈ y :: names)) as [Hin'|Hin']; try done.
      * exfalso. apply Hin', elem_of_cons. by right.
      * apply elem_of_cons in Hin' as [->|?]; done.
Qed.

(** A sequence that returns has run both of its parts. *)
Lemma bind_inr {A B} (m : io A) (k : A → io B) fs y fs' :
  bind m k fs = (inr y, fs') →
  ∃ x fs1, m fs = (inr x, fs1) ∧ k x fs1 = (inr y, fs').
Proof.
  unfold bind. destruct (m fs) as [[e|x] fs1]; [done|]. eauto.
Qed.

(** A handler that returns makes the whole [try]/[catch] return. *)
Lemma try_catch_returns {A} (body : io A) (h : string → A) fs :
  ∃ x fs', try_catch body (λ e, ret (h e)) fs = (inr x, fs').
Proof.
  unfold try_catch, ret. destruct (body fs) as [[e|x] fs']; eauto.
Qed.

End FsFacts.

(** ** [clearDownloads] *)

Section ClearDownloads.
Import JsString Js Fs Tasks FsNotions.

Variable downloadsFolder : path.

Lemma lookup_remove_names names d fs es a x :
  lookup_path d fs = Some (Dir es a) →
  lookup_path (d ++ [x]) (remove_names names d fs)
  = if decide (x ∈ names) then None else es !! x.
Proof.
  intros Hd. unfold remove_names. rewrite lookup_path_snoc.
  rewrite (lookup_alter_dir_here _ _ _ _ _ Hd). apply lookup_foldr_delete.
Qed.

(** The loop over the listed names, started after [removed] have been
    deleted: it deletes regular files only, and when it returns normally
    every listed name is either deleted or not a regular file. *)
Lemma clear_loop fs es a names removed :
  let d := downloadsFolder in
  lookup_path d fs = Some (Dir es a) →
  (∀ x, x ∈ removed → ∃ c a', es !! x = Some (File c a')) →
  ∃ res removed',
    forEach names
      (λ file,
         let filePath := d ++ [file] in
         do st <- statSync filePath;
         if isFile st then unlinkSync filePath else ret tt)
      (remove_names removed d fs)
    = (res, remove_names removed' d fs)
    ∧ (∀ x, x ∈ removed' → ∃ c a', es !! x = Some (File c a'))
    ∧ (∀ x, x ∈ removed → x ∈ removed')
    ∧ (res = inr tt →
       ∀ x, x ∈ names → x ∈ removed' ∨ ∀ c a', es !! x ≠ Some (File c a')).
Proof.
  intros d Hd. revert removed.
  induction names as [|x names IH]; intros removed Hrem.
  - exists (inr tt), removed. split; [done|]. split; [done|]. split; [done|].
    intros _ x Hx. by apply elem_of_nil in Hx.
  - cbn [forEach]. unfold bind at 1. unfold bind at 1. unfold statSync at 1.
    rewrite (lookup_remove_names removed d fs es a x Hd).
    destruct (decide (x ∈ removed)) as [Hin|Hin].
    { exists (inl "ENOENT: no such file or directory, stat"), removed.
      split; [done|]. split; [done|]. split; [done|]. done. }
    destruct (es !! x) as [[c a'|es' a']|] eqn:Hx; cbn [is_file isFile].
    + unfold unlinkSync at 1.
      rewrite (lookup_remove_names removed d fs es a x Hd).
      rewrite decide_False by done. rewrite Hx, split_last_app.
      unfold remove_names at 1. rewrite (lookup_alter_dir_here _ _ _ _ _ Hd).
      destruct (writable a).
      * unfold remove_names at 1. rewrite alter_dir_compose.
        destruct (IH (x :: removed)) as (res & removed' & Hrun & Hfiles & Hmono & Hall).
        { intros y [->|Hy]%elem_of_cons; eauto. }
        exists res, removed'. split; [exact Hrun|]. split; [done|].
        split. { intros y Hy. apply Hmono, elem_of_cons. by right. }
        intros Hres y [->|Hy]%elem_of_cons; [|by apply Hall].
        left. apply Hmono, elem_of_cons. by left.
      * exists (inl "EACCES: permission denied, unlink"), removed.
        split; [done|]. split; [done|]. split; [done|]. done.
    + unfold ret at 1.
      destruct (IH removed Hrem) as (res & removed' & Hrun & Hfiles & Hmono & Hall).
      exists res, removed'. split; [exact Hrun|]. split; [done|]. split; [done|].
      intros Hres y [->|Hy]%elem_of_cons; [|by apply Hall].
      right. intros c a'' Hc. by rewrite Hx in Hc.
    + exists (inl "ENOENT: no such file or directory, stat"), removed.
      split; [done|]. split; [done|]. split; [done|]. done.
Qed.

(** C10: [clearDownloads] leaves a file system that differs from the one
    it started on by the deletion of entries of the downloads folder that
    were regular files; a subdirectory of the folder is still there with
    the same contents; when it returns normally it returns [null] and no
    regular file is left directly inside the folder; and when the folder
    does not exist it returns [null], without error, leaving the file
    system as it is. *)
Theorem clearDownloads_deletes_only_files fs :
  let d := downloadsFolder in
  let '(result, fs') := clearDownloads d fs in
  (∃ removed, fs' = remove_names removed d fs ∧ Forall (file_in d fs) removed)
  ∧ (∀ name es a,
       lookup_path (d ++ [name]) fs = Some (Dir es a) →
       lookup_path (d ++ [name]) fs' = Some (Dir es a))
  ∧ (∀ v, result = inr v →
       v = JNull ∧ ∀ name, ¬ file_in d fs' name)
  ∧ (lookup_path d fs = None → result = inr JNull ∧ fs' = fs).
Proof.
  intros d.
  assert ((∃ removed, fs = remove_names removed d fs ∧ Forall (file_in d fs) removed)
          ∧ (∀ name es a, lookup_path (d ++ [name]) fs = Some (Dir es a) →
               lookup_path (d ++ [name]) fs = Some (Dir es a))) as [Hsame1 Hsame2].
  { split; [|done]. exists []. split; [|constructor].
    unfold remove_names. simpl. by rewrite alter_dir_id. }
  unfold clearDownloads. unfold bind at 1. unfold existsSync at 1.
  destruct (lookup_path d fs) as [n|] eqn:Hd; cbn [ret].
  2:{ split; [done|]. split; [done|]. split; [|done].
      intros v [= <-]. split; [done|]. intros name (c & a' & Hc).
      by rewrite lookup_path_snoc, Hd in Hc. }
  unfold bind at 1. unfold readdirSync at 1. rewrite Hd.
  destruct n as [c a|es a]; [done|].
  destruct (readable a); [|done].
  unfold bind at 1.
  destruct (clear_loop fs es a (map_to_list es).*1 [] Hd)
    as (res & removed & Hrun & Hfiles & _ & Hall).
  { intros x Hx. by apply elem_of_nil in Hx. }
  assert (remove_names [] downloadsFolder fs = fs) as Hnil.
  { unfold remove_names. simpl. apply alter_dir_id. }
  rewrite Hnil in Hrun. cbv zeta in Hrun. subst d. rewrite Hrun.
  set (d := downloadsFolder) in *.
  assert (∀ name, lookup_path (d ++ [name]) (remove_names removed d fs)
            = if decide (name ∈ removed) then None else es !! name) as Hlook.
  { intros name. by apply lookup_remove_names with (a := a). }
  assert ((∃ removed0, remove_names removed d fs = remove_names removed0 d fs
                       ∧ Forall (file_in d fs) removed0)
          ∧ (∀ name es0 a0,
               lookup_path (d ++ [name]) fs = Some (Dir es0 a0) →
               lookup_path (d ++ [name]) (remove_names removed d fs)
               = Some (Dir es0 a0))) as [H1 H2].
  { split.
    - exists removed. split; [done|]. apply Forall_forall. intros x Hx.
      destruct (Hfiles x Hx) as (c & a' & Hc). exists c, a'.
      by rewrite lookup_path_snoc, Hd.
    - intros name es0 a0 Hname. rewrite Hlook.
      rewrite lookup_path_snoc, Hd in Hname.
      destruct (decide (name ∈ removed)) as [Hin|Hin]; [|done].
      destruct (Hfiles name Hin) as (c & a' & Hc). congruence. }
  destruct res as [e|[]]; cbn [ret]; [done|].
  split; [done|]. split; [done|]. split; [|done].
  intros v [= <-]. split; [done|]. intros name (c & a' & Hc).
  rewrite Hlook in Hc. destruct (decide (name ∈ removed)) as [Hin|Hin]; [done|].
  destruct (Hall eq_refl name) as [Hrem|Hnot]; [|done|by eapply Hnot].
  apply list_elem_of_fmap. exists (name, File c a'). split; [done|].
  by apply elem_of_map_to_list.
Qed.

End ClearDownloads.

Section ClearDownloadsSample.
Import JsString Js Fs Tasks FsNotions FsSamples.

Lemma clearDownloads_deletes_only_files_witness :
  let d := sample_downloadsFolder in
  let '(result, fs') := clearDownloads d sample_fs in
  (∃ removed, fs' = remove_names removed d sample_fs
              ∧ Forall (file_in d sample_fs) removed)
  ∧ (∀ name es a,
       lookup_path (d ++ [name]) sample_fs = Some (Dir es a) →
       lookup_path (d ++ [name]) fs' = Some (Dir es a))
  ∧ (∀ v, result = inr v → v = JNull ∧ ∀ name, ¬ file_in d fs' name)
  ∧ (lookup_path d sample_fs = None → result = inr JNull ∧ fs' = sample_fs).
Proof. exact (clearDownloads_deletes_only_files sample_downloadsFolder sample_fs). Defined.

(** On the sample the three files go and the subdirectory stays. *)
Example clearDownloads_sample :
  let '(result, fs') := clearDownloads sample_downloadsFolder sample_fs in
  result = inr JNull
  ∧ lookup_path sample_downloadsFolder fs'
    = Some (Dir (list_to_map
                   [("sub", Dir (list_to_map [("c.pdf", File "kept" (rw 30))]) (rw 1))])
                (rw 2))
  ∧ clearDownloads ["proj"; "nowhere"] sample_fs = (inr JNull, sample_fs).
Proof. by vm_compute. Qed.

End ClearDownloadsSample.

(** ** [moveDownloadedFile] *)

Section MoveFacts.
Import JsString Js Fs Tasks FsNotions.

Lemma is_prefix_app_r a p r : is_prefix a p = true → is_prefix a (p ++ r) = true.
Proof.
  intros [q ->]%is_prefix_spec. rewrite <- (assoc_L (++)). apply is_prefix_app.
Qed.

Lemma not_inside_prefix d t name :
  ¬ inside t d → is_prefix (d ++ [name]) t = false.
Proof.
  intros Hin. destruct (is_prefix (d ++ [name]) t) eqn:E; [|done].
  apply is_prefix_spec in E as [r ->]. exfalso. apply Hin.
  exists name, r. by rewrite <- (assoc_L (++)).
Qed.

(** Creating the directories of [t] does not touch a path that is not on
    the way to [t]. *)
Lemma mkdir_p_off now t p fs fs' :
  mkdir_p now t fs = inr fs' →
  is_prefix p t = false →
  lookup_path p fs' = lookup_path p fs.
Proof.
  revert p fs fs'. induction t as [|x t IH]; intros p fs fs' Hmk Hpre.
  - destruct fs; simpl in Hmk; [done|]. by simplify_eq.
  - destruct fs as [c a|es a]; simpl in Hmk; [done|].
    destruct p as [|y p]; [done|]. simpl in Hpre.
    destruct (es !! x) as [child|] eqn:Hx.
    + destruct (mkdir_p now t child) as [e|child'] eqn:Hchild; [done|].
      simplify_eq. simpl. destruct (decide (y = x)) as [->|Hne].
      * rewrite lookup_insert_eq, Hx. simpl.
        rewrite String.eqb_refl in Hpre. by apply (IH p child child').
      * by rewrite lookup_insert_ne.
    + destruct (writable a); [|done].
      destruct (mkdir_p now t _) as [e|child'] eqn:Hchild; [done|].
      simplify_eq. simpl. destruct (decide (y = x)) as [->|Hne].
      * rewrite lookup_insert_eq, Hx. simpl.
        rewrite String.eqb_refl in Hpre.
        rewrite (IH p _ child' Hchild Hpre).
        destruct p as [|z p]; [by destruct t|]. simpl. by rewrite lookup_empty.
      * by rewrite lookup_insert_ne.
Qed.

Lemma elem_of_insert_newest_first x sorted y :
  y ∈ insert_newest_first x sorted ↔ y = x ∨ y ∈ sorted.
Proof.
  induction sorted as [|z sorted IH]; simpl.
  - rewrite list_elem_of_singleton. split; [auto|]. intros [?|?%elem_of_nil]; done.
  - destruct (l_mtime z <=? l_mtime x).
    + by rewrite elem_of_cons.
    + rewrite !elem_of_cons, IH. tauto.
Qed.

Lemma elem_of_sort_newest_first files y :
  y ∈ sort_newest_first files ↔ y ∈ files.
Proof.
  induction files as [|x files IH]; simpl; [done|].
  rewrite elem_of_insert_newest_first, elem_of_cons, IH. done.
Qed.

Lemma insert_newest_first_head x sorted :
  newest_at_head sorted → newest_at_head (insert_newest_first x sorted).
Proof.
  destruct sorted as [|z sorted]; simpl.
  - intros _ y Hy. apply list_elem_of_singleton in Hy as ->. lia.
  - intros Hz. destruct (l_mtime z <=? l_mtime x) eqn:E.
    + apply Z.leb_le in E. intros y [->|Hy]%elem_of_cons; [lia|].
      specialize (Hz y Hy). lia.
    + apply Z.leb_gt in E. intros y [->|Hy]%elem_of_cons; [lia|].
      apply elem_of_insert_newest_first in Hy as [->|Hy]; [lia|].
      apply Hz. apply elem_of_cons. by right.
Qed.

Lemma sort_newest_first_head files : newest_at_head (sort_newest_first files).
Proof.
  induction files as [|x files IH]; simpl; [done|].
  by apply insert_newest_first_head.
Qed.

Lemma sort_newest_first_cons files x rest :
  sort_newest_first files = x :: rest →
  x ∈ files ∧ ∀ y, y ∈ files → l_mtime y ≤ l_mtime x.
Proof.
  intros Hs. pose proof (sort_newest_first_head files) as Hh.
  rewrite Hs in Hh. simpl in Hh. split.
  - apply elem_of_sort_newest_first. rewrite Hs. apply elem_of_cons. by left.
  - intros y Hy. apply Hh. rewrite <- Hs. by apply elem_of_sort_newest_first.
Qed.

(** Collecting the modification times of names that exist reads the file
    system and cannot throw. *)
Lemma mapM_stat d names fs :
  (∀ file, file ∈ names → is_Some (lookup_path (d ++ [file]) fs)) →
  mapM (λ file,
          do st <- statSync (d ++ [file]);
          ret {| l_name := file; l_path := d ++ [file]; l_mtime := st_mtime st |})
       names fs
  = (inr (listed_at d fs <$> names), fs).
Proof.
  induction names as [|x names IH]; intros Hex; [done|].
  cbn [mapM]. unfold bind at 1. unfold bind at 1. unfold statSync at 1.
  destruct (Hex x) as [n Hn]; [apply elem_of_cons; by left|].
  rewrite Hn. cbn [ret]. unfold bind at 1.
  rewrite IH by (intros file Hf; apply Hex, elem_of_cons; by right).
  unfold ret, listed_at. rewrite fmap_cons, Hn. done.
Qed.

(** Deleting an entry keeps every directory that is not at or below it. *)
Lemma lookup_alter_dir_delete base dir p fs es a :
  is_prefix (dir ++ [base]) p = false →
  lookup_path p fs = Some (Dir es a) →
  ∃ es', lookup_path p (alter_dir (delete base) dir fs) = Some (Dir es' a).
Proof.
  revert p fs. induction dir as [|x dir IH]; intros p fs Hpre Hp.
  - destruct fs as [c0 a0|es0 a0]; simpl; [eauto|].
    destruct p as [|y p]; simpl in *; [simplify_eq; eauto|].
    rewrite andb_true_r in Hpre. apply String.eqb_neq in Hpre.
    rewrite lookup_delete_ne by done. eauto.
  - destruct fs as [c0 a0|es0 a0]; simpl; [eauto|].
    destruct p as [|y p]; simpl in *; [simplify_eq; eauto|].
    destruct (decide (y = x)) as [->|Hne].
    + rewrite String.eqb_refl in Hpre. simpl in Hpre.
      rewrite lookup_alter_eq. destruct (es0 !! x) as [child|]; simpl in *; [|done].
      by apply IH.
    + rewrite lookup_alter_ne by done. eauto.
Qed.

Lemma lookup_path_nonempty r es a n :
  r ≠ [] → lookup_path r (Dir es a) = Some n → map_to_list es ≠ [].
Proof.
  destruct r as [|x r]; [done|]. intros _. simpl.
  destruct (es !! x) as [child|] eqn:Hx; [|done]. intros _ Hnil.
  apply map_to_list_empty_iff in Hnil. subst es. by rewrite lookup_empty in Hx.
Qed.

(** A rename that returns has put the inode of the source at the
    destination, and, unless the two are the same path, nothing is left at
    the source. *)
Lemma renameSync_moves src dst fs fs' n :
  lookup_path src fs = Some n →
  renameSync src dst fs = (inr tt, fs') →
  lookup_path dst fs' = Some n
  ∧ (src ≠ dst → lookup_path src fs' = None).
Proof.
  intros Hsrc. unfold renameSync. rewrite Hsrc.
  destruct (split_last src) as [[sdir sbase]|] eqn:Hs; [|done].
  destruct (split_last dst) as [[ddir dbase]|] eqn:Hdst; [|done].
  apply split_last_Some in Hs as ->. apply split_last_Some in Hdst as ->.
  destruct (lookup_path sdir fs) as [[c sa|ses sa]|] eqn:Hsdir;
    [by destruct (lookup_path ddir fs) as [[]|]| |by destruct (lookup_path ddir fs) as [[]|]].
  destruct (lookup_path ddir fs) as [[c da|des da]|] eqn:Hddir; [done| |done].
  cbv zeta. case_bool_decide as Heq.
  { intros ?. simplify_eq. by rewrite <- Heq. }
  destruct (is_prefix (sdir ++ [sbase]) (ddir ++ [dbase])) eqn:Hpre; [done|].
  destruct (negb (writable sa && writable da)); [done|].
  assert (is_prefix (sdir ++ [sbase]) ddir = false) as Hpre'.
  { destruct (is_prefix (sdir ++ [sbase]) ddir) eqn:E; [|done].
    by rewrite (is_prefix_app_r _ _ [dbase] E) in Hpre. }
  destruct (lookup_alter_dir_delete sbase sdir ddir fs des da Hpre' Hddir)
    as [des1 Hddir1].
  set (fs1 := alter_dir (delete sbase) sdir fs) in *.
  assert (lookup_path (sdir ++ [sbase]) fs1 = None) as Hgone.
  { unfold fs1. rewrite lookup_path_snoc, (lookup_alter_dir_here _ _ _ _ _ Hsdir).
    apply lookup_delete_eq. }
  assert (lookup_path (ddir ++ [dbase]) (alter_dir <[dbase:=n]> ddir fs1) = Some n
          ∧ ((des !! dbase = None
              ∨ (∃ es' a', des !! dbase = Some (Dir es' a') ∧ map_to_list es' = [])
              ∨ (∃ c' a', des !! dbase = Some (File c' a') ∧ is_file n = true)) →
             lookup_path (sdir ++ [sbase]) (alter_dir <[dbase:=n]> ddir fs1) = None))
    as [Hthere Hnot].
  { split.
    - rewrite lookup_path_snoc, (lookup_alter_dir_here _ _ _ _ _ Hddir1).
      apply lookup_insert_eq.
    - intros Hkind.
      destruct (is_prefix ddir (sdir ++ [sbase])) eqn:Hb.
      + apply is_prefix_spec in Hb as [r Hr].
        destruct r as [|r0 r].
        { rewrite app_nil_r in Hr. rewrite Hr, is_prefix_app in Hpre. done. }
        rewrite Hr, lookup_path_app, (lookup_alter_dir_here _ _ _ _ _ Hddir1).
        simpl. destruct (decide (r0 = dbase)) as [->|Hne].
        * exfalso. rewrite Hr, lookup_path_app, Hddir in Hsrc. simpl in Hsrc.
          destruct r as [|r1 r]; [by rewrite Hr in Heq|].
          destruct (des !! dbase) as [child|] eqn:Hchild; [|done]. simpl in Hsrc.
          destruct Hkind as [?|[(es' & a' & [= ->] & Hnil)|(c' & a' & [= ->] & _)]];
            [done| |done].
          by apply (lookup_path_nonempty (r1 :: r) es' a' n).
        * rewrite lookup_insert_ne by done.
          rewrite Hr, lookup_path_app, Hddir1 in Hgone. exact Hgone.
      + pose proof (lookup_alter_dir_off <[dbase:=n]> ddir (sdir ++ [sbase]) fs1 Hb)
          as Hoff.
        by rewrite Hgone in Hoff. }
  destruct n as [c na|nes na]; destruct (des !! dbase) as [[c' a'|es' a']|] eqn:Hd;
    try done.
  - intros ?. simplify_eq. split; [done|]. intros _. apply Hnot. right. right. eauto.
  - intros ?. simplify_eq. split; [done|]. intros _. apply Hnot. by left.
  - destruct (map_to_list es') eqn:Hl; [|done].
    intros ?. simplify_eq. split; [done|]. intros _. apply Hnot. right. left. eauto.
  - intros ?. simplify_eq. split; [done|]. intros _. apply Hnot. by left.
Qed.

End MoveFacts.

Section MoveTask.
Import JsString Js Fs Tasks FsNotions.

Variable downloadsFolder : path.
Variable cwd : path.
Variable now : Z.

(** Making sure the target folder exists leaves the entries of the
    downloads folder as they are, when the target is not inside it. *)
Lemma prepared_off targetFolder fs :
  ¬ inside (path_join cwd targetFolder) downloadsFolder →
  ∀ name, lookup_path (downloadsFolder ++ [name]) (prepared cwd now targetFolder fs)
          = lookup_path (downloadsFolder ++ [name]) fs.
Proof.
  intros Hin name. unfold prepared, bind, existsSync. cbv zeta.
  destruct (lookup_path (path_join cwd targetFolder) fs) as [n|];
    cbn [negb ret]; [done|].
  unfold mkdirSync_recursive.
  destruct (mkdir_p now (path_join cwd targetFolder) fs) as [e|fs1] eqn:Hmk; [done|].
  cbn [snd].
  apply (mkdir_p_off now (path_join cwd targetFolder) _ fs fs1 Hmk).
  by apply not_inside_prefix.
Qed.

(** Whatever the task reports as moved carries the name built from the
    company name. *)
Lemma moveDownloadedFile_filename companyName targetFolder fs r fs' :
  moveDownloadedFile downloadsFolder cwd now companyName targetFolder fs = (inr r, fs') →
  ∀ filename fullPath,
    r = Moved filename fullPath →
    filename = companyName +:+ "_Investment_Memo.pdf"
    ∧ fullPath
      = path_to_string
          (path_join (path_join cwd targetFolder)
             (companyName +:+ "_Investment_Memo.pdf")).
Proof.
  unfold moveDownloadedFile, try_catch. cbv zeta.
  match goal with
  | |- (let (_, _) := ?body fs in _) = _ → _ =>
      destruct (body fs) as [[e|x] fs1] eqn:Hbody
  end; [unfold ret; intros ? ? ? ?; by simplify_eq|].
  intros ? filename fullPath ->. simplify_eq.
  apply bind_inr in Hbody as (present & fs2 & _ & Hbody).
  apply bind_inr in Hbody as ([] & fs3 & _ & Hbody).
  apply bind_inr in Hbody as (names & fs4 & _ & Hbody).
  apply bind_inr in Hbody as (files & fs5 & _ & Hbody).
  destruct (sort_newest_first files) as [|mostRecentFile rest]; [done|].
  apply bind_inr in Hbody as ([] & fs6 & _ & Hbody).
  unfold ret in Hbody. by simplify_eq.
Qed.

(** Closes the branches in which the task returns [success: false]. *)
Local Ltac not_moved :=
  unfold ret; intros ?; simplify_eq; split; [done|eauto].

(** What [moveDownloadedFile] does in general: it always returns an
    object and never throws, and the file name it reports is the company
    name followed by [_Investment_Memo.pdf].  With the downloads folder
    taken as the task lists it: on [success: true] the entry moved, a
    file or a directory, is one whose name ends in [.pdf] (in any letter
    case) and whose modification time is the latest among such entries;
    it now sits at the target path; and if no entry has such a name, the
    task returns [success: false] with an error message.  The entries
    listed are those present at the call whenever the target folder does
    not lie inside the downloads folder. *)
Lemma moveDownloadedFile_outcome companyName targetFolder fs :
  let targetPath := path_join cwd targetFolder in
  let targetFileName := companyName +:+ "_Investment_Memo.pdf" in
  let targetFilePath := path_join targetPath targetFileName in
  let listed := prepared cwd now targetFolder fs in
  ∃ r fs',
    moveDownloadedFile downloadsFolder cwd now companyName targetFolder fs
    = (inr r, fs')
    ∧ (∀ filename fullPath,
         r = Moved filename fullPath →
         filename = targetFileName ∧ fullPath = path_to_string targetFilePath)
    ∧ (move_success r = true →
       ∃ name n,
         lookup_path (downloadsFolder ++ [name]) listed = Some n
         ∧ is_pdf_name name = true
         ∧ (∀ name' n',
              lookup_path (downloadsFolder ++ [name']) listed = Some n' →
              is_pdf_name name' = true →
              mtime (attrs_of n') ≤ mtime (attrs_of n))
         ∧ lookup_path targetFilePath fs' = Some n
         ∧ (downloadsFolder ++ [name] ≠ targetFilePath →
            lookup_path (downloadsFolder ++ [name]) fs' = None))
    ∧ ((∀ name n, lookup_path (downloadsFolder ++ [name]) listed = Some n →
                  is_pdf_name name = false) →
       ∃ error, r = NotMoved error)
    ∧ (¬ inside targetPath downloadsFolder →
       ∀ name, lookup_path (downloadsFolder ++ [name]) listed
               = lookup_path (downloadsFolder ++ [name]) fs).
Proof.
  intros targetPath targetFileName targetFilePath listed.
  destruct (try_catch_returns
              (let downloadsPath := downloadsFolder in
               let targetPath := path_join cwd targetFolder in
               do present <- existsSync targetPath;
               (if negb present then mkdirSync_recursive now targetPath else ret tt) ;;
               do names <- readdirSync downloadsPath;
               do files <-
                 mapM (λ file,
                         do st <- statSync (downloadsPath ++ [file]);
                         ret {| l_name := file;
                                l_path := downloadsPath ++ [file];
                                l_mtime := st_mtime st |})
                      (List.filter is_pdf_name names);
               let files := sort_newest_first files in
               match files with
               | [] => ret (NotMoved "No PDF file found in downloads")
               | mostRecentFile :: _ =>
                   let targetFileName := companyName +:+ "_Investment_Memo.pdf" in
                   let targetFilePath := path_join targetPath targetFileName in
                   renameSync (l_path mostRecentFile) targetFilePath ;;
                   ret (Moved targetFileName (path_to_string targetFilePath))
               end)
              NotMoved fs) as (r & fs' & Hrun).
  exists r, fs'. split; [exact Hrun|].
  split; [by apply (moveDownloadedFile_filename companyName targetFolder fs r fs')|].
  assert (∀ P Q : Prop, P ∧ Q →
            ∀ R : Prop, R → P ∧ Q ∧ R) as Hlast by tauto.
  apply Hlast; [|by apply prepared_off]. clear Hlast.
  destruct ((do present <- existsSync targetPath;
             if negb present then mkdirSync_recursive now targetPath else ret tt) fs)
    as [res1 fs1] eqn:Hens.
  assert (listed = fs1) as ->.
  { subst listed. unfold prepared. cbv zeta. fold targetPath. by rewrite Hens. }
  revert Hrun. unfold try_catch. cbv zeta. fold targetPath.
  unfold bind at 1. unfold bind at 1 in Hens.
  destruct (existsSync targetPath fs) as [[e|present] fs0] eqn:Hex.
  { unfold existsSync in Hex. done. }
  unfold bind at 1. rewrite Hens.
  destruct res1 as [e|[]].
  { not_moved. }
  unfold bind at 1. unfold readdirSync at 1.
  destruct (lookup_path downloadsFolder fs1) as [[c a|es a]|] eqn:Hd.
  { not_moved. }
  2:{ not_moved. }
  destruct (readable a) eqn:Hread.
  2:{ not_moved. }
  assert (∀ name, es !! name = lookup_path (downloadsFolder ++ [name]) fs1) as Hes.
  { intros name. by rewrite lookup_path_snoc, Hd. }
  set (names := (map_to_list es).*1).
  assert (∀ name, name ∈ names → is_Some (es !! name)) as Hnames.
  { intros name [[k n] [-> Hk]]%list_elem_of_fmap.
    apply elem_of_map_to_list in Hk. eauto. }
  unfold bind at 1. rewrite mapM_stat.
  2:{ intros file [Hf _]%elem_of_filter_bool. rewrite <- Hes. by apply Hnames. }
  destruct (sort_newest_first (listed_at downloadsFolder fs1 <$> List.filter is_pdf_name names))
    as [|x rest] eqn:Hsort.
  { not_moved. }
  apply sort_newest_first_cons in Hsort as [Hx Hmax].
  apply list_elem_of_fmap in Hx as (name & -> & [Hname Hpdf]%elem_of_filter_bool).
  destruct (Hnames name Hname) as [n Hn].
  assert (lookup_path (downloadsFolder ++ [name]) fs1 = Some n) as Hsrc.
  { by rewrite <- Hes. }
  cbn [l_path listed_at]. unfold bind at 1. fold targetFileName targetFilePath.
  destruct (renameSync (downloadsFolder ++ [name]) targetFilePath fs1)
    as [[e|[]] fs2] eqn:Hren.
  { not_moved. }
  unfold ret. intros ?. simplify_eq.
  destruct (renameSync_moves _ _ _ _ n Hsrc Hren) as [Hthere Hgone].
  split.
  - intros _. exists name, n.
    split; [done|]. split; [done|]. split; [|done].
    intros name' n' Hn' Hpdf'.
    assert (name' ∈ names) as Hname'.
    { apply list_elem_of_fmap. exists (name', n'). split; [done|].
      apply elem_of_map_to_list. by rewrite Hes. }
    assert (listed_at downloadsFolder fs1 name'
            ∈ listed_at downloadsFolder fs1 <$> List.filter is_pdf_name names)
      as Hlisted by by apply list_elem_of_fmap_2, elem_of_filter_bool.
    apply Hmax in Hlisted. unfold listed_at in Hlisted. cbn [l_mtime] in Hlisted.
    by rewrite Hsrc, Hn' in Hlisted.
  - intros Hnone. by rewrite (Hnone name n Hsrc) in Hpdf.
Qed.

End MoveTask.

Section MoveSample.
Import JsString Js Fs Tasks FsNotions FsSamples.

Lemma sample_target_outside_downloads :
  ¬ inside (path_join sample_cwd "data/ai_outputs") sample_downloadsFolder.
Proof. intros (x & rest & Hpath). vm_compute in Hpath. by simplify_eq. Defined.

(** On the sample the newer of the two PDF files is moved, whatever the
    case of its extension; the other entries stay where they are. *)
Example moveDownloadedFile_sample :
  let '(result, fs') :=
    moveDownloadedFile sample_downloadsFolder sample_cwd 100
      "Acme" "data/ai_outputs" sample_fs in
  result = inr (Moved "Acme_Investment_Memo.pdf"
                  "/proj/data/ai_outputs/Acme_Investment_Memo.pdf")
  ∧ lookup_path ["proj"; "data"; "ai_outputs"; "Acme_Investment_Memo.pdf"] fs'
    = Some (File "newer memo" (rw 9))
  ∧ lookup_path (sample_downloadsFolder ++ ["b.PDF"]) fs' = None
  ∧ lookup_path (sample_downloadsFolder ++ ["a.pdf"]) fs'
    = Some (File "older memo" (rw 5)).
Proof. by vm_compute. Qed.

(** A target folder inside the downloads folder is made before the
    folder is listed, so a target folder with a [.pdf] name is itself
    listed: here the downloads folder holds no PDF file at the call, and
    the directory just made is what the task moves. *)
Example moveDownloadedFile_sample_target_inside :
  let '(result, fs') :=
    moveDownloadedFile ["proj"; "cypress"; "fixtures"] sample_cwd 100
      "../../moved" "cypress/fixtures/x.pdf" sample_fs in
  result = inr (Moved "../../moved_Investment_Memo.pdf"
                  "/proj/cypress/moved_Investment_Memo.pdf")
  ∧ lookup_path ["proj"; "cypress"; "fixtures"; "x.pdf"]
      (prepared sample_cwd 100 "cypress/fixtures/x.pdf" sample_fs)
    = Some (Dir ∅ (rw 100))
  ∧ lookup_path ["proj"; "cypress"; "moved_Investment_Memo.pdf"] fs'
    = Some (Dir ∅ (rw 100)).
Proof. by vm_compute. Qed.

(** Without a PDF file the task reports the failure and returns. *)
Example moveDownloadedFile_sample_no_pdf :
  (moveDownloadedFile ["proj"; "cypress"; "fixtures"] sample_cwd 100
     "Acme" "data/ai_outputs" sample_fs).1
  = inr (NotMoved "No PDF file found in downloads").
Proof. by vm_compute. Qed.

End MoveSample.

(** ** [updateConfigWithMemoPath] *)

Section PatchReport.
Import JsString Js Fs Tasks FsNotions.

Variable JSON_parse : string → option jsval.
Variable JSON_stringify : jsval → string.
Variable cwd : path.
Variable now : Z.

(** Each call of the callback returns, having pushed exactly one entry,
    which carries the path it was called with; the store is rewritten when
    the entry reports success and the file system is left alone when it
    does not. *)
Lemma update_config_pushes_one companyName results configPath fs :
  ∃ e fs',
    update_config JSON_parse JSON_stringify cwd now companyName results configPath fs
    = (inr (results ++ [e]), fs')
    ∧ entry_path e = configPath
    ∧ if entry_success e
      then store_written JSON_parse JSON_stringify cwd now companyName configPath fs fs'
      else fs' = fs.
Proof.
  unfold update_config, try_catch, bind, existsSync, readFileSync,
    writeFileSync, ret, throw.
  repeat case_match; simplify_eq;
    try (eexists _, _; split; [done|split; [done|done]]).
  all: eexists _, _; split; [done|]; split; [done|]; simpl.
  all: match goal with H : split_last _ = Some _ |- _ => apply split_last_Some in H end.
  all: do 7 eexists; split; [eassumption|].
  all: match goal with H : path_join _ _ = _ |- _ => rewrite <- H end.
  all: split; [eassumption|]; split; [eassumption|].
  all: split; [eassumption|]; split; [eassumption|].
  all: match goal with H : writable _ = true |- _ => by rewrite H end.
Qed.

Lemma update_configs_pushes_each companyName results paths fs :
  ∃ entries fs',
    update_configs JSON_parse JSON_stringify cwd now companyName results paths fs = (inr (results ++ entries), fs')
    ∧ entry_path <$> entries = paths.
Proof.
  revert results fs. induction paths as [|configPath paths IH]; intros results fs.
  - exists [], fs. by rewrite app_nil_r.
  - cbn [update_configs]. unfold bind at 1.
    destruct (update_config_pushes_one companyName results configPath fs)
      as (e & fs1 & -> & He & _).
    destruct (IH (results ++ [e]) fs1) as (entries & fs' & -> & Hpaths).
    exists (e :: entries), fs'. split; [by rewrite <- (assoc_L (++))|].
    by rewrite fmap_cons, He, Hpaths.
Qed.

(** The report in terms of the entries pushed. *)
Lemma updateConfigWithMemoPath_report companyName fs :
  ∃ entries fs',
    update_configs JSON_parse JSON_stringify cwd now companyName [] configPaths fs = (inr entries, fs')
    ∧ entry_path <$> entries = configPaths
    ∧ updateConfigWithMemoPath JSON_parse JSON_stringify cwd now companyName fs
      = (inr {| success := (0 <? length (List.filter entry_success entries))%nat;
                totalFiles := 2;
                successCount := length (List.filter entry_success entries);
                results := entries;
                summary := "Updated "
                           +:+ pretty (length (List.filter entry_success entries))
                           +:+ "/2 config files for " +:+ companyName |},
         fs').
Proof.
  destruct (update_configs_pushes_each companyName [] configPaths fs)
    as (entries & fs' & Hrun & Hpaths).
  exists entries, fs'. split; [done|]. split; [done|].
  unfold updateConfigWithMemoPath, bind. rewrite Hrun. done.
Qed.

Lemma path_join_fixtures :
  path_join cwd "cypress/fixtures/config.json"
  = cwd ++ ["cypress"; "fixtures"; "config.json"].
Proof.
  unfold path_join. simpl. rewrite rev_involutive.
  by rewrite <- !(assoc_L (++)).
Qed.

Lemma path_join_root : path_join cwd "config.json" = cwd ++ ["config.json"].
Proof. unfold path_join. simpl. by rewrite rev_involutive. Qed.

Lemma update_config_missing companyName results configPath fs :
  missing cwd configPath fs →
  update_config JSON_parse JSON_stringify cwd now companyName results configPath fs
  = (inr (results ++ [NotPatched configPath ("File does not exist: " +:+ configPath)]),
     fs).
Proof.
  unfold missing. intros Hm.
  unfold update_config, try_catch, bind, existsSync. by rewrite Hm.
Qed.

Lemma update_config_patchable companyName results configPath fs dir base :
  path_join cwd configPath = dir ++ [base] →
  patchable JSON_parse cwd companyName configPath fs →
  ∃ data a,
    update_config JSON_parse JSON_stringify cwd now companyName results configPath fs
    = (inr (results ++
            [Patched configPath
               ("Updated " +:+ configPath +:+ " with memo path for " +:+ companyName)
               ("data/ai_outputs/" +:+ companyName +:+ "_Investment_Memo.pdf")]),
       alter_dir <[base := File data a]> dir fs).
Proof.
  intros Hp (content & a & configData & companies & index
             & Hfile & Hr & Hw & Hparse & Hcs & Hfind).
  unfold update_config, try_catch, bind, existsSync, readFileSync,
    writeFileSync, ret.
  rewrite Hfile. cbn [negb]. rewrite Hfile, Hr, Hparse, Hcs, Hfind.
  rewrite Hfile, Hw, Hp, split_last_app. eauto.
Qed.

Lemma is_prefix_app_both c a b : is_prefix (c ++ a) (c ++ b) = is_prefix a b.
Proof. induction c as [|x c IH]; simpl; [done|]. by rewrite String.eqb_refl. Qed.

Lemma fixtures_write_keeps_root_missing f fs :
  missing cwd "config.json" fs →
  missing cwd "config.json" (alter_dir f (cwd ++ ["cypress"; "fixtures"]) fs).
Proof.
  unfold missing. rewrite path_join_root. intros Hm.
  pose proof (lookup_alter_dir_off f (cwd ++ ["cypress"; "fixtures"])
                (cwd ++ ["config.json"]) fs) as Hoff.
  rewrite is_prefix_app_both, Hm in Hoff. by apply Hoff.
Qed.

(** The run of the two callbacks when the fixtures copy can be patched
    and the root copy is missing, and the other way round. *)
Lemma update_configs_fixtures_only companyName fs :
  patchable JSON_parse cwd companyName "cypress/fixtures/config.json" fs →
  missing cwd "config.json" fs →
  ∃ fs',
    update_configs JSON_parse JSON_stringify cwd now companyName [] configPaths fs
    = (inr [ Patched "cypress/fixtures/config.json"
               ("Updated cypress/fixtures/config.json with memo path for "
                +:+ companyName)
               ("data/ai_outputs/" +:+ companyName +:+ "_Investment_Memo.pdf");
             NotPatched "config.json" "File does not exist: config.json" ],
       fs').
Proof.
  intros Hp Hm. unfold configPaths. cbn [update_configs]. unfold bind at 1.
  destruct (update_config_patchable companyName [] "cypress/fixtures/config.json" fs
              (cwd ++ ["cypress"; "fixtures"]) "config.json") as (data & a & ->).
  { rewrite path_join_fixtures. by rewrite <- (assoc_L (++)). }
  { done. }
  unfold bind at 1.
  rewrite update_config_missing by by apply fixtures_write_keeps_root_missing.
  eexists. reflexivity.
Qed.

Lemma update_configs_root_only companyName fs :
  missing cwd "cypress/fixtures/config.json" fs →
  patchable JSON_parse cwd companyName "config.json" fs →
  ∃ fs',
    update_configs JSON_parse JSON_stringify cwd now companyName [] configPaths fs
    = (inr [ NotPatched "cypress/fixtures/config.json"
               "File does not exist: cypress/fixtures/config.json";
             Patched "config.json"
               ("Updated config.json with memo path for " +:+ companyName)
               ("data/ai_outputs/" +:+ companyName +:+ "_Investment_Memo.pdf") ],
       fs').
Proof.
  intros Hm Hp. unfold configPaths. cbn [update_configs]. unfold bind at 1.
  rewrite update_config_missing by done. unfold bind at 1.
  destruct (update_config_patchable companyName
              ([] ++ [NotPatched "cypress/fixtures/config.json"
                        ("File does not exist: " +:+ "cypress/fixtures/config.json")])
              "config.json" fs cwd "config.json") as (data & a & ->).
  { apply path_join_root. }
  { done. }
  eexists. reflexivity.
Qed.

(** C7: [updateConfigWithMemoPath] always returns a report and never
    throws.  The report has one entry per configuration path, in order,
    each with its path, its success flag and a message (on success) or an
    error (on failure); [totalFiles] is 2, [successCount] counts the
    successful entries and [summary] spells the two numbers out.  When one
    of the two copies can be patched and the other is missing, the report
    has [successCount] 1 of [totalFiles] 2 and the entry of the missing
    copy carries the error "File does not exist: <path>". *)
Theorem updateConfigWithMemoPath_reports_each_location companyName fs :
  ∃ report fs',
    updateConfigWithMemoPath JSON_parse JSON_stringify cwd now companyName fs
    = (inr report, fs')
    ∧ entry_path <$> results report = configPaths
    ∧ Forall (λ e, if entry_success e
                   then is_Some (entry_message e) ∧ entry_error e = None
                   else is_Some (entry_error e) ∧ entry_message e = None)
        (results report)
    ∧ totalFiles report = 2%nat
    ∧ successCount report = length (List.filter entry_success (results report))
    ∧ summary report
      = "Updated " +:+ pretty (successCount report) +:+ "/"
        +:+ pretty (totalFiles report) +:+ " config files for " +:+ companyName
    ∧ (patchable JSON_parse cwd companyName "cypress/fixtures/config.json" fs →
       missing cwd "config.json" fs →
       successCount report = 1%nat
       ∧ totalFiles report = 2%nat
       ∧ entry_success <$> results report = [true; false]
       ∧ results report !! 1%nat
         = Some (NotPatched "config.json" "File does not exist: config.json"))
    ∧ (missing cwd "cypress/fixtures/config.json" fs →
       patchable JSON_parse cwd companyName "config.json" fs →
       successCount report = 1%nat
       ∧ totalFiles report = 2%nat
       ∧ entry_success <$> results report = [false; true]
       ∧ results report !! 0%nat
         = Some (NotPatched "cypress/fixtures/config.json"
                   "File does not exist: cypress/fixtures/config.json")).
Proof.
  destruct (updateConfigWithMemoPath_report companyName fs)
    as (entries & fs' & Hrun & Hpaths & ->).
  eexists _, fs'. split; [done|]. cbn [results totalFiles successCount summary].
  split; [done|]. split.
  { apply Forall_forall. intros [p m memo|p err] _; simpl; eauto. }
  split; [done|]. split; [done|]. split; [done|]. split.
  - intros Hp Hm.
    destruct (update_configs_fixtures_only companyName fs Hp Hm) as [fs1 Hrun1].
    rewrite Hrun1 in Hrun. by simplify_eq.
  - intros Hm Hp.
    destruct (update_configs_root_only companyName fs Hm Hp) as [fs1 Hrun1].
    rewrite Hrun1 in Hrun. by simplify_eq.
Qed.

Lemma filter_nonempty_iff {A} (P : A → bool) l :
  (0 < length (List.filter P l))%nat ↔ ∃ x, x ∈ l ∧ P x = true.
Proof.
  split.
  - destruct (List.filter P l) as [|x l'] eqn:Hf; simpl; [lia|]. intros _.
    exists x. apply elem_of_filter_bool. rewrite Hf. apply elem_of_cons. by left.
  - intros (x & Hx & HP).
    assert (x ∈ List.filter P l) as Hin by by apply elem_of_filter_bool.
    destruct (List.filter P l); [by apply elem_of_nil in Hin|simpl; lia].
Qed.

End PatchReport.

Section PatchSample.
Import JsString Js Fs Tasks FsNotions FsSamples.

Lemma sample_fixtures_patchable :
  patchable sample_parse sample_cwd "Acme" "cypress/fixtures/config.json" sample_fs.
Proof.
  exists "CONFIG", (rw 3), sample_config,
    [JObj [("id", JNum 1); ("name", JStr "Acme")]], 0%nat.
  repeat split; reflexivity.
Defined.

Lemma updateConfigWithMemoPath_reports_each_location_witness :
  ∃ report fs',
    updateConfigWithMemoPath sample_parse sample_print sample_cwd 100 "Acme" sample_fs
    = (inr report, fs')
    ∧ successCount report = 1%nat
    ∧ totalFiles report = 2%nat
    ∧ results report !! 1%nat
      = Some (NotPatched "config.json" "File does not exist: config.json").
Proof.
  destruct (updateConfigWithMemoPath_reports_each_location
              sample_parse sample_print sample_cwd 100 "Acme" sample_fs)
    as (report & fs' & Hrun & _ & _ & _ & _ & _ & Hscenario & _).
  destruct (Hscenario sample_fixtures_patchable eq_refl) as (H1 & H2 & _ & H4).
  exists report, fs'. by repeat split.
Defined.

(** The sample run in full: the fixtures copy is rewritten, the root copy
    is reported missing. *)
Example updateConfigWithMemoPath_sample :
  (updateConfigWithMemoPath sample_parse sample_print sample_cwd 100 "Acme" sample_fs).1
  = inr {| success := true;
           totalFiles := 2;
           successCount := 1;
           results :=
             [ Patched "cypress/fixtures/config.json"
                 "Updated cypress/fixtures/config.json with memo path for Acme"
                 "data/ai_outputs/Acme_Investment_Memo.pdf";
               NotPatched "config.json" "File does not exist: config.json" ];
           summary := "Updated 1/2 config files for Acme" |}.
Proof. by vm_compute. Qed.

End PatchSample.

(* ===================================================================== *)
(** * Further properties of the embedded code *)
(* ===================================================================== *)

(** ** Strings *)

Section StringFacts.
Import JsString ExtractionNotions.

Lemma string_app_cons a s t : String a s +:+ t = String a (s +:+ t).
Proof. reflexivity. Qed.

Lemma string_app_nil_l t : "" +:+ t = t.
Proof. reflexivity. Qed.

Lemma string_app_nil_r s : s +:+ "" = s.
Proof. induction s as [|a s IH]; [done|]. by rewrite string_app_cons, IH. Qed.

Lemma string_app_assoc a b c : (a +:+ b) +:+ c = a +:+ (b +:+ c).
Proof. induction a as [|x a IH]; [done|]. by rewrite !string_app_cons, IH. Qed.

Lemma string_rev_app s t : String.rev_app s t = String.rev s +:+ t.
Proof.
  unfold String.rev. revert t. induction s as [|a s IH]; intros t; simpl; [done|].
  rewrite (IH (String a t)), (IH (String a "")). by rewrite string_app_assoc.
Qed.

Lemma string_rev_cons a s : String.rev (String a s) = String.rev s +:+ String a "".
Proof. unfold String.rev at 1. simpl. apply string_rev_app. Qed.

Lemma string_rev_app_distr a b : String.rev (a +:+ b) = String.rev b +:+ String.rev a.
Proof.
  induction a as [|x a IH].
  { rewrite string_app_nil_l. change (String.rev "") with "". by rewrite string_app_nil_r. }
  by rewrite string_app_cons, !string_rev_cons, IH, string_app_assoc.
Qed.

Lemma string_rev_involutive s : String.rev (String.rev s) = s.
Proof.
  induction s as [|a s IH]; [done|].
  rewrite string_rev_cons, string_rev_app_distr, IH. reflexivity.
Qed.

Lemma startsWith_spec s p : startsWith s p = true ↔ ∃ r, s = p +:+ r.
Proof.
  revert s. induction p as [|a p IH]; intros s; simpl.
  - split; [by exists s|by destruct s].
  - destruct s as [|b s].
    + split; [done|]. by intros [r ?].
    + simpl. destruct (Ascii.eqb a b) eqn:E.
      * apply Ascii.eqb_eq in E as ->. rewrite IH. split.
        -- intros [r ->]. by exists r.
        -- intros [r Hr]. rewrite string_app_cons in Hr. injection Hr as ->. eauto.
      * apply Ascii.eqb_neq in E. split; [done|].
        intros [r Hr]. rewrite string_app_cons in Hr. by injection Hr as -> ->.
Qed.

Lemma includes_spec s p : includes s p = true ↔ ∃ a b, s = a +:+ p +:+ b.
Proof.
  induction s as [|x s IH].
  - cbn [includes]. rewrite orb_false_r, startsWith_spec. split.
    + intros [r ->]. by exists "", r.
    + intros ([|y a] & b & Hs); [eauto|by rewrite string_app_cons in Hs].
  - cbn [includes]. rewrite orb_true_iff, startsWith_spec, IH. split.
    + intros [[r ->]|(a & b & ->)]; [by exists "", r|].
      exists (String x a), b. by rewrite string_app_cons.
    + intros ([|y a] & b & Hs); [left; eauto|].
      rewrite string_app_cons in Hs. injection Hs as -> ->. right. eauto.
Qed.

Lemma includes_trans s l l' :
  includes s l = true → includes l l' = true → includes s l' = true.
Proof.
  rewrite !includes_spec. intros (a & b & ->) (a' & b' & ->).
  exists (a +:+ a'), (b' +:+ b). by rewrite !string_app_assoc.
Qed.

Lemma white_space_short : short white_space.
Proof. unfold short. repeat constructor. Qed.

Lemma white_space_rev_short : short (String.rev <$> white_space).
Proof. unfold short. repeat constructor. Qed.

(** One step of [strip]: either nothing of [ws] starts [s], which is
    then returned, or a member of [ws] is dropped. *)
Lemma strip_step ws s :
  short ws →
  (strip ws s = s ∧ ∀ w, w ∈ ws → startsWith s w = false)
  ∨ ∃ w rest, w ∈ ws ∧ s = w +:+ rest ∧ strip ws s = strip ws rest.
Proof.
  intros Hshort.
  assert (∀ w, w ∈ ws →
            (∃ x, w = String x "") ∨ (∃ x y, w = String x (String y ""))
            ∨ ∃ x y z, w = String x (String y (String z ""))) as Hlen.
  { intros w Hw. apply (proj1 (Forall_forall _ _) Hshort) in Hw.
    destruct w as [|x [|y [|z [|? ?]]]]; simpl in Hw; try lia; eauto 6. }
  destruct s as [|a s1]; cbn [strip].
  { left. split; [done|]. intros w Hw.
    destruct (Hlen w Hw) as [[x ->]|[(x & y & ->)|(x & y & z & ->)]]; done. }
  case_bool_decide as H1.
  { right. by exists (String a ""), s1. }
  destruct s1 as [|b s2].
  { left. split; [done|]. intros w Hw.
    destruct (Hlen w Hw) as [[x ->]|[(x & y & ->)|(x & y & z & ->)]]; simpl.
    - destruct (Ascii.eqb x a) eqn:E; [|done]. apply Ascii.eqb_eq in E as ->. done.
    - by destruct (Ascii.eqb x a).
    - by destruct (Ascii.eqb x a). }
  case_bool_decide as H2.
  { right. by exists (String a (String b "")), s2. }
  destruct s2 as [|c s3].
  { left. split; [done|]. intros w Hw.
    destruct (Hlen w Hw) as [[x ->]|[(x & y & ->)|(x & y & z & ->)]]; simpl.
    - destruct (Ascii.eqb x a) eqn:E; [|done]. apply Ascii.eqb_eq in E as ->. done.
    - destruct (Ascii.eqb x a) eqn:E; [|done]. apply Ascii.eqb_eq in E as ->.
      destruct (Ascii.eqb y b) eqn:E'; [|done]. apply Ascii.eqb_eq in E' as ->. done.
    - destruct (Ascii.eqb x a); [|done]. by destruct (Ascii.eqb y b). }
  case_bool_decide as H3.
  { right. by exists (String a (String b (String c ""))), s3. }
  left. split; [done|]. intros w Hw.
  destruct (Hlen w Hw) as [[x ->]|[(x & y & ->)|(x & y & z & ->)]]; simpl.
  - destruct (Ascii.eqb x a) eqn:E; [|done]. apply Ascii.eqb_eq in E as ->. done.
  - destruct (Ascii.eqb x a) eqn:E; [|done]. apply Ascii.eqb_eq in E as ->.
    destruct (Ascii.eqb y b) eqn:E'; [|done]. apply Ascii.eqb_eq in E' as ->. done.
  - destruct (Ascii.eqb x a) eqn:E; [|done]. apply Ascii.eqb_eq in E as ->.
    destruct (Ascii.eqb y b) eqn:E'; [|done]. apply Ascii.eqb_eq in E' as ->.
    destruct (Ascii.eqb z c) eqn:E''; [|done]. apply Ascii.eqb_eq in E'' as ->. done.
Qed.

Lemma string_length_app a b :
  String.length (a +:+ b) = (String.length a + String.length b)%nat.
Proof. induction a as [|x a IH]; [done|]. simpl. by rewrite IH. Qed.

(** What [strip] returns starts with no member of [ws], and is what is
    left of [s] after a prefix. *)
Lemma strip_spec ws s :
  short ws →
  (∀ w, w ∈ ws → startsWith (strip ws s) w = false)
  ∧ ∃ pre, s = pre +:+ strip ws s.
Proof.
  intros Hshort.
  remember (String.length s) as n eqn:Hn. revert s Hn.
  induction (lt_wf n) as [n _ IH]. intros s ->.
  destruct (strip_step ws s Hshort) as [[-> Hclean]|(w & rest & Hw & -> & ->)].
  - split; [done|]. by exists "".
  - destruct (IH (String.length rest)) with (s := rest) as [Hclean [pre Hpre]];
      [|done|].
    { apply (proj1 (Forall_forall _ _) Hshort) in Hw.
      rewrite string_length_app. lia. }
    split; [done|]. exists (w +:+ pre). by rewrite string_app_assoc, <- Hpre.
Qed.

Lemma strip_id ws s :
  short ws → (∀ w, w ∈ ws → startsWith s w = false) → strip ws s = s.
Proof.
  intros Hshort Hclean.
  destruct (strip_step ws s Hshort) as [[-> _]|(w & rest & Hw & -> & _)]; [done|].
  specialize (Hclean w Hw).
  assert (startsWith (w +:+ rest) w = true) as Hst by (apply startsWith_spec; eauto).
  congruence.
Qed.

Lemma trimStart_clean s : starts_clean (trimStart s).
Proof. exact (proj1 (strip_spec white_space s white_space_short)). Qed.

(** What [trim] returns neither starts nor ends with white space. *)
Lemma trim_clean s : starts_clean (trim s) ∧ ends_clean (trim s).
Proof.
  unfold trim, trimEnd. set (u := trimStart s).
  destruct (strip_spec (String.rev <$> white_space) (String.rev u)
              white_space_rev_short) as [Hv [pre Hpre]].
  set (v := strip (String.rev <$> white_space) (String.rev u)) in *.
  split.
  - intros w Hw. destruct (startsWith (String.rev v) w) eqn:E; [|done].
    apply startsWith_spec in E as [r Hr].
    assert (u = String.rev v +:+ String.rev pre) as Hu.
    { by rewrite <- string_rev_app_distr, <- Hpre, string_rev_involutive. }
    pose proof (trimStart_clean s w Hw) as Hclean. fold u in Hclean.
    assert (startsWith u w = true) as Hst; [|congruence].
    apply startsWith_spec. exists (r +:+ String.rev pre).
    by rewrite Hu, Hr, string_app_assoc.
  - intros w Hw. unfold endsWith. rewrite string_rev_involutive.
    apply Hv. by apply list_elem_of_fmap_2.
Qed.

Lemma trim_idemp s : trim (trim s) = trim s.
Proof.
  destruct (trim_clean s) as [H1 H2].
  unfold trim at 1. unfold trimStart. rewrite (strip_id _ _ white_space_short H1).
  unfold trimEnd. rewrite strip_id; [apply string_rev_involutive|apply white_space_rev_short|].
  intros w (w0 & -> & Hw0)%list_elem_of_fmap. by apply H2.
Qed.

End StringFacts.

(** ** The extraction loop and the record it writes *)

Section ExtractionMore.
Import JsString Js Dom Commands DataExtraction Notions Samples.
Import ExtractionNotions ExtractionSamples.

Lemma process_company_inl visit now c err :
  process_company visit now c = inl err →
  err = "cy.visit() failed trying to load"
  ∨ err = "AssertionError: expected url to include 'company-detail'".
Proof.
  destruct (visit (frontend_url c)) as [pg|] eqn:Hv.
  - destruct (includes (url pg) "company-detail") eqn:Hu.
    + by rewrite (process_company_detail _ _ _ pg Hv Hu).
    + rewrite (process_company_elsewhere _ _ _ pg Hv Hu). intros [= <-]. by right.
  - unfold process_company. rewrite Hv. intros [= <-]. by left.
Qed.

Lemma each_failure JSON_stringify visit clock index companies err :
  failure (each JSON_stringify visit clock index companies) = Some err →
  err = "cy.visit() failed trying to load"
  ∨ err = "AssertionError: expected url to include 'company-detail'".
Proof.
  revert index. induction companies as [|c cs IH]; intros index; simpl; [done|].
  destruct (process_company visit (clock index) c) as [e|[file rec]] eqn:Hp; simpl.
  - intros [= <-]. by apply (process_company_inl visit (clock index) c).
  - apply IH.
Qed.

(** X1: the extraction test runs to its end exactly when every configured
    company lands on an address containing [company-detail]; it then has
    written one file per company, named after the company, in the order
    of the configuration.  Of the steps of the callback (visit, address
    assertion, extraction, summary) only the first two can fail: the
    [TypeError] that the summary would raise on a record without
    [_extraction_metadata] never arises.  ([cy.writeFile] is taken to
    succeed.) *)
Theorem run_completes_iff_all_detail JSON_stringify visit clock companies :
  let r := run JSON_stringify visit clock companies in
  (failure r = None ↔ Forall (lands_on_detail visit) companies)
  ∧ (failure r = None → (written r).*1 = output_file <$> companies)
  ∧ (∀ err, failure r = Some err →
       err = "cy.visit() failed trying to load"
       ∨ err = "AssertionError: expected url to include 'company-detail'").
Proof.
  assert (∀ index,
    let r := each JSON_stringify visit clock index companies in
    (failure r = None → Forall (lands_on_detail visit) companies)) as Hfwd.
  { induction companies as [|c cs IH]; intros index; simpl; [constructor|].
    destruct (process_company visit (clock index) c) as [err|[file rec]] eqn:Hp;
      simpl; [done|].
    intros Hf. constructor; [|by apply (IH (S index))].
    apply process_company_inr in Hp as (pg & Hv & Hu & _). by exists pg. }
  assert (Forall (lands_on_detail visit) companies →
          let r := run JSON_stringify visit clock companies in
          failure r = None ∧ (written r).*1 = output_file <$> companies) as Hbwd.
  { intros Hall.
    destruct (each_detail_prefix JSON_stringify visit clock 0 companies [] Hall)
      as [Hw Hf].
    rewrite app_nil_r in Hw, Hf. simpl in Hw, Hf. rewrite app_nil_r in Hw. done. }
  simpl. split; [|split].
  - split; [apply Hfwd|apply Hbwd].
  - intros Hf. apply Hbwd. by apply (Hfwd 0%nat).
  - apply each_failure.
Qed.

Lemma run_completes_iff_all_detail_witness :
  let r := run sample_stringify sample_visit sample_clock [globex; acme] in
  (failure r = None ↔ Forall (lands_on_detail sample_visit) [globex; acme])
  ∧ (failure r = None → (written r).*1 = output_file <$> [globex; acme])
  ∧ (∀ err, failure r = Some err →
       err = "cy.visit() failed trying to load"
       ∨ err = "AssertionError: expected url to include 'company-detail'").
Proof.
  exact (run_completes_iff_all_detail sample_stringify sample_visit sample_clock
           [globex; acme]).
Defined.

Lemma resolveField_trimmed body label v :
  resolveField body label = Some v → trim v = v.
Proof.
  rewrite resolveField_candidates.
  destruct (value_candidates body label); [done|]. intros [= <-]. apply trim_idemp.
Qed.

Lemma filter_fmap_length {A B} (P : B → bool) (g : A → B) l :
  length (List.filter P (g <$> l)) = length (List.filter (P ∘ g) l).
Proof.
  induction l as [|x l IH]; [done|].
  rewrite fmap_cons. cbn [List.filter compose].
  destruct (P (g x)); cbn [length]; by rewrite IH.
Qed.

Lemma fieldsWithData_extracted res now c :
  fieldsWithData (extracted res now c)
  = length (List.filter
              (λ f, negb (String.eqb (trim (default "" (res f.1))) "")) fields).
Proof.
  unfold fieldsWithData. unfold extracted at 2.
  rewrite keys_stored, List.filter_app, length_app.
  assert (length (List.filter (has_data (extracted res now c))
                    (keys [("_extraction_metadata", JObj (initial_metadata now c))]))
          = 0%nat) as -> by reflexivity.
  rewrite Nat.add_0_r, filter_fmap_length.
  apply (f_equal length), filter_ext_in.
  intros f Hf%list_elem_of_In. unfold compose, has_data, extracted.
  rewrite get_prop_stored by (apply fields_keys_NoDup || done).
  rewrite fields_not_reserved by by apply list_elem_of_fmap_2.
  cbn [negb andb truthy toString].
  destruct (default "" (res f.1)); [by rewrite trim_empty|done].
Qed.

Lemma filter_length_le {A} (P : A → bool) l : (length (List.filter P l) ≤ length l)%nat.
Proof. induction l as [|x l IH]; simpl; [done|]. destruct (P x); simpl; lia. Qed.

Lemma fieldsWithData_resolved pg now c :
  fieldsWithData (extracted (resolveField (body pg)) now c)
  = length (List.filter (resolves_nonblank (body pg)) fields).
Proof.
  rewrite fieldsWithData_extracted. apply (f_equal length), filter_ext_in.
  intros f _. unfold resolves_nonblank.
  destruct (resolveField (body pg) f.1) as [v|] eqn:Hres; simpl; [|done].
  by rewrite (resolveField_trimmed _ _ _ Hres).
Qed.

Lemma summarised_metadata pg now c :
  get_prop "_extraction_metadata" (summarised (resolveField (body pg)) now c)
  = Some (JObj (initial_metadata now c
                ++ [("fields_extracted",
                     JNum (Z.of_nat (length (List.filter (resolves_nonblank (body pg)) fields))));
                    ("extraction_success",
                     JBool (0 <? length (List.filter (resolves_nonblank (body pg)) fields))%nat)])).
Proof.
  unfold summarised. rewrite fieldsWithData_resolved.
  apply get_prop_app_here, metadata_key_fresh.
Qed.

(** X2: in a record that is written, [fields_extracted] is the number of
    schema fields for which the command found a value element with text
    that is not blank on the page; it is at most 15, which is what
    [total_fields] says; and [extraction_success] is true exactly when at
    least one field was found with such text. *)
Theorem fields_extracted_counts_resolved_fields visit now c file rec :
  process_company visit now c = inr (file, rec) →
  ∃ pg meta n,
    visit (frontend_url c) = Some pg
    ∧ get_prop "_extraction_metadata" rec = Some (JObj meta)
    ∧ get_prop "fields_extracted" meta = Some (JNum (Z.of_nat n))
    ∧ get_prop "total_fields" meta = Some (JNum 15)
    ∧ n = length (List.filter (resolves_nonblank (body pg)) fields)
    ∧ (n ≤ 15)%nat
    ∧ (get_prop "extraction_success" meta = Some (JBool true)
       ↔ ∃ f, f ∈ fields ∧ resolves_nonblank (body pg) f = true).
Proof.
  intros (pg & Hv & _ & _ & ->)%process_company_inr.
  eexists pg, _, _. split; [done|]. split; [apply summarised_metadata|].
  split; [reflexivity|]. split; [reflexivity|]. split; [reflexivity|].
  split; [apply (filter_length_le _ fields)|].
  cbn [get_prop initial_metadata app String.eqb Ascii.eqb Bool.eqb].
  rewrite <- filter_nonempty_iff. split.
  - intros [= H]. by apply Nat.ltb_lt.
  - intros H. apply Nat.ltb_lt in H. by rewrite H.
Qed.

Lemma fields_extracted_counts_resolved_fields_witness :
  resolves_nonblank (body nbsp_page) ("Industry", "industry") = false
  ∧ ∃ pg meta n,
      nbsp_visit (frontend_url globex) = Some pg
      ∧ get_prop "_extraction_metadata"
          (summarised (resolveField (body nbsp_page)) (sample_clock 0) globex)
        = Some (JObj meta)
      ∧ get_prop "fields_extracted" meta = Some (JNum (Z.of_nat n))
      ∧ get_prop "total_fields" meta = Some (JNum 15)
      ∧ n = length (List.filter (resolves_nonblank (body pg)) fields)
      ∧ (n ≤ 15)%nat
      ∧ (get_prop "extraction_success" meta = Some (JBool true)
         ↔ ∃ f, f ∈ fields ∧ resolves_nonblank (body pg) f = true).
Proof.
  split; [by vm_compute|].
  apply (fields_extracted_counts_resolved_fields nbsp_visit (sample_clock 0)
           globex (output_file globex)
           (summarised (resolveField (body nbsp_page)) (sample_clock 0) globex)).
  by vm_compute.
Defined.

(** X7: every value stored under a schema key of a written record is
    trimmed: trimming it again changes nothing, and it neither starts nor
    ends with white space, that is, with any of the code points that
    [String.prototype.trim] strips. *)
Theorem stored_values_are_trimmed visit now c file rec :
  process_company visit now c = inr (file, rec) →
  ∀ f, f ∈ fields →
       ∃ s, get_prop f.2 rec = Some (JStr s)
            ∧ trim s = s
            ∧ starts_clean s
            ∧ ends_clean s.
Proof.
  intros (pg & _ & _ & _ & ->)%process_company_inr f Hf.
  destruct (summarised_schema_complete pg now c) as [_ Hall].
  eexists. split; [by apply Hall|].
  destruct (resolveField (body pg) f.1) as [v|] eqn:Hres; simpl.
  - pose proof (resolveField_trimmed _ _ _ Hres) as Ht.
    split; [done|]. rewrite <- Ht. apply trim_clean.
  - split; [done|]. rewrite <- trim_empty. apply trim_clean.
Qed.

Lemma stored_values_are_trimmed_witness :
  text (body nbsp_page) [[1; 1]%nat] = nbsp +:+ "Jakarta" +:+ nbsp
  ∧ ∃ s, get_prop "location"
           (summarised (resolveField (body nbsp_page)) (sample_clock 0) globex)
         = Some (JStr s)
         ∧ trim s = s
         ∧ starts_clean s
         ∧ ends_clean s.
Proof.
  split; [by vm_compute|].
  apply (stored_values_are_trimmed nbsp_visit (sample_clock 0) globex
           (output_file globex)
           (summarised (resolveField (body nbsp_page)) (sample_clock 0) globex))
    with (f := ("Location", "location")).
  - by vm_compute.
  - compute_done.
Defined.

(** The no-break spaces are stripped like any white space: the cell that
    holds nothing else counts as blank. *)
Example nbsp_cells :
  process_company nbsp_visit (sample_clock 0) globex
  = inr (output_file globex,
         summarised (resolveField (body nbsp_page)) (sample_clock 0) globex)
  ∧ resolveField (body nbsp_page) "Industry" = Some ""
  ∧ resolveField (body nbsp_page) "Location" = Some "Jakarta"
  ∧ fieldsWithData
      (extracted (resolveField (body nbsp_page)) (sample_clock 0) globex) = 2%nat.
Proof. by vm_compute. Qed.

Lemma filter_nil_bool {A} (P : A → bool) l :
  (∀ x, x ∈ l → P x = false) → List.filter P l = [].
Proof.
  induction l as [|x l IH]; intros H; simpl; [done|].
  rewrite (H x) by (apply elem_of_cons; by left).
  apply IH. intros y Hy. apply H, elem_of_cons. by right.
Qed.

Lemma closest1_matches body sel lab q :
  closest1 body sel lab = Some q → matches_at body sel q = true.
Proof.
  unfold closest1. intros Hq%head_Some_elem_of.
  by apply elem_of_filter_bool in Hq as [_ Hq].
Qed.

Lemma value_candidates_no_container body label :
  (∀ q, q ∈ elements body → matches_at body container_selector q = false) →
  value_candidates body label = [].
Proof.
  intros Hno. unfold value_candidates.
  assert (closest body container_selector
            (find body (label_selector label) [[]]) = []) as ->; [|apply find_nil].
  unfold closest. apply filter_nil_bool. intros q Hq.
  apply bool_decide_eq_false_2. intros (lab & _ & Hc)%list_elem_of_omap.
  apply closest1_matches in Hc. by rewrite (Hno q Hq) in Hc.
Qed.

(** X3: on a detail view that has no [div] with [rounded] in its class
    attribute, no field is resolved; the record is written all the same,
    with the empty string under each of the 15 keys, [fields_extracted] 0
    and [extraction_success] false. *)
Theorem page_without_cards_gives_empty_record visit now c pg :
  visit (frontend_url c) = Some pg →
  includes (url pg) "company-detail" = true →
  (∀ q, q ∈ elements (body pg) →
        matches_at (body pg) container_selector q = false) →
  ∃ rec meta,
    process_company visit now c = inr (output_file c, rec)
    ∧ (∀ f, f ∈ fields → get_prop f.2 rec = Some (JStr ""))
    ∧ get_prop "_extraction_metadata" rec = Some (JObj meta)
    ∧ get_prop "fields_extracted" meta = Some (JNum 0)
    ∧ get_prop "extraction_success" meta = Some (JBool false).
Proof.
  intros Hv Hu Hno.
  assert (∀ label, resolveField (body pg) label = None) as Hnone.
  { intros label. rewrite resolveField_candidates.
    by rewrite value_candidates_no_container. }
  assert (List.filter (resolves_nonblank (body pg)) fields = []) as Hnil.
  { apply filter_nil_bool. intros f _. unfold resolves_nonblank. by rewrite Hnone. }
  eexists _, _. split; [by apply process_company_detail|]. split.
  { intros f Hf. destruct (summarised_schema_complete pg now c) as [_ Hall].
    by rewrite (Hall f Hf), Hnone. }
  split; [apply summarised_metadata|]. rewrite Hnil. by split.
Qed.

Lemma page_without_cards_gives_empty_record_witness :
  ∃ rec meta,
    process_company (λ _, Some blank_detail_page) (sample_clock 0) acme
    = inr (output_file acme, rec)
    ∧ (∀ f, f ∈ fields → get_prop f.2 rec = Some (JStr ""))
    ∧ get_prop "_extraction_metadata" rec = Some (JObj meta)
    ∧ get_prop "fields_extracted" meta = Some (JNum 0)
    ∧ get_prop "extraction_success" meta = Some (JBool false).
Proof.
  apply (page_without_cards_gives_empty_record (λ _, Some blank_detail_page)
           (sample_clock 0) acme blank_detail_page); [reflexivity|reflexivity|].
  assert (Forall (λ q, matches_at (body blank_detail_page) container_selector q = false)
            (elements (body blank_detail_page))) as Hall by compute_done.
  intros q Hq. by apply (proj1 (Forall_forall _ _) Hall).
Defined.

Lemma keys_set_prop k v o :
  keys (set_prop k v o) = if decide (k ∈ keys o) then keys o else keys o ++ [k].
Proof.
  unfold keys. induction o as [|[k' v'] o IH]; [done|].
  cbn [set_prop]. destruct (String.eqb k k') eqn:E.
  - apply String.eqb_eq in E as ->. rewrite !fmap_cons. cbn [fst].
    destruct (decide (k' ∈ k' :: o.*1)) as [H|H]; [done|].
    exfalso. apply H, elem_of_cons. by left.
  - apply String.eqb_neq in E. rewrite !fmap_cons, IH. cbn [fst].
    destruct (decide (k ∈ o.*1)) as [Hin|Hin];
      destruct (decide (k ∈ k' :: o.*1)) as [H|H]; try done.
    + exfalso. apply H, elem_of_cons. by right.
    + by apply elem_of_cons in H as [?|?].
Qed.

Lemma keys_fold_assign res fs rec :
  (∀ k, k ∈ keys rec → k ∈ keys (fold_left (assign_field res) fs rec))
  ∧ (∀ k, k ∈ keys (fold_left (assign_field res) fs rec) → k ∈ keys rec ∨ k ∈ fs.*2)
  ∧ ((∀ k, k ∈ fs.*2 → k ∈ keys rec) →
     keys (fold_left (assign_field res) fs rec) = keys rec).
Proof.
  revert rec. induction fs as [|f fs IH]; intros rec; simpl.
  - split; [done|]. split; [by left|done].
  - destruct (IH (assign_field res rec f)) as (IH1 & IH2 & IH3).
    assert (keys (assign_field res rec f) = keys rec
            ∨ ((f.2 ∉ keys rec) ∧ keys (assign_field res rec f) = keys rec ++ [f.2]))
      as Hstep.
    { unfold assign_field. destruct (res f.1); [|by left].
      rewrite keys_set_prop. destruct (decide (f.2 ∈ keys rec)); [by left|by right]. }
    split; [|split].
    + intros k Hk. apply IH1. destruct Hstep as [->|[_ ->]]; [done|].
      apply elem_of_app. by left.
    + intros k Hk. rewrite elem_of_cons.
      destruct (IH2 k Hk) as [Hin|Hin]; [|by right; right].
      destruct Hstep as [Heq|[_ Heq]]; rewrite Heq in Hin; [by left|].
      apply elem_of_app in Hin as [?|Hin]; [by left|].
      apply list_elem_of_singleton in Hin as ->. right. by left.
    + intros Hall. destruct Hstep as [Heq|[Hnot _]].
      * rewrite IH3; [done|]. intros k Hk. rewrite Heq. apply Hall.
        apply elem_of_cons. by right.
      * exfalso. apply Hnot, Hall. apply elem_of_cons. by left.
Qed.

(** X4: [extractCompanyFields], on any record, touches the schema keys
    only.  A key outside the schema keeps its value, no key is removed,
    any key that appears is a schema key, and when the record already has
    all schema keys its keys stay the same, in the same order. *)
Theorem extractCompanyFields_touches_schema_keys_only body rec :
  (∀ k, k ∉ fields.*2 →
        get_prop k (extractCompanyFields body rec) = get_prop k rec)
  ∧ (∀ k, k ∈ keys rec → k ∈ keys (extractCompanyFields body rec))
  ∧ (∀ k, k ∈ keys (extractCompanyFields body rec) → k ∈ keys rec ∨ k ∈ fields.*2)
  ∧ ((∀ k, k ∈ fields.*2 → k ∈ keys rec) →
     keys (extractCompanyFields body rec) = keys rec).
Proof.
  unfold extractCompanyFields, extractCompanyFields_with.
  split; [intros k Hk; by apply get_prop_fold_other|].
  apply keys_fold_assign.
Qed.

Lemma extractCompanyFields_touches_schema_keys_only_witness :
  let rec := initial_record (sample_clock 0) globex in
  (∀ k, k ∉ fields.*2 →
        get_prop k (extractCompanyFields detail_body rec) = get_prop k rec)
  ∧ (∀ k, k ∈ keys rec → k ∈ keys (extractCompanyFields detail_body rec))
  ∧ (∀ k, k ∈ keys (extractCompanyFields detail_body rec) →
          k ∈ keys rec ∨ k ∈ fields.*2)
  ∧ ((∀ k, k ∈ fields.*2 → k ∈ keys rec) →
     keys (extractCompanyFields detail_body rec) = keys rec).
Proof.
  exact (extractCompanyFields_touches_schema_keys_only detail_body
           (initial_record (sample_clock 0) globex)).
Defined.

(** X5: what is put in [_extraction_metadata] when the record is
    initialised survives the extraction and the summary.  A written
    record goes to [data/extracted/<name>_frontend_data.json]; its
    metadata has the seven keys in the order of the source, with
    [extracted_at] the time at which the callback started, [company_id]
    and [frontend_url] those of the configuration, [extraction_type]
    ["ai_output_verification"] and [total_fields] 15. *)
Theorem record_metadata_provenance visit now c file rec :
  process_company visit now c = inr (file, rec) →
  file = "data/extracted/" +:+ name c +:+ "_frontend_data.json"
  ∧ ∃ meta,
      get_prop "_extraction_metadata" rec = Some (JObj meta)
      ∧ keys meta = [ "extracted_at"; "company_id"; "frontend_url";
                      "extraction_type"; "total_fields"; "fields_extracted";
                      "extraction_success" ]
      ∧ get_prop "extracted_at" meta = Some (JStr now)
      ∧ get_prop "company_id" meta = Some (id c)
      ∧ get_prop "frontend_url" meta = Some (JStr (frontend_url c))
      ∧ get_prop "extraction_type" meta = Some (JStr "ai_output_verification")
      ∧ get_prop "total_fields" meta = Some (JNum 15).
Proof.
  intros (pg & _ & _ & -> & ->)%process_company_inr. split; [done|].
  eexists. split.
  { unfold summarised. apply get_prop_app_here, metadata_key_fresh. }
  by repeat split.
Qed.

Lemma record_metadata_provenance_witness :
  output_file globex = "data/extracted/" +:+ name globex +:+ "_frontend_data.json"
  ∧ ∃ meta,
      get_prop "_extraction_metadata"
        (summarised (resolveField (body detail_page)) (sample_clock 0) globex)
      = Some (JObj meta)
      ∧ keys meta = [ "extracted_at"; "company_id"; "frontend_url";
                      "extraction_type"; "total_fields"; "fields_extracted";
                      "extraction_success" ]
      ∧ get_prop "extracted_at" meta = Some (JStr (sample_clock 0))
      ∧ get_prop "company_id" meta = Some (id globex)
      ∧ get_prop "frontend_url" meta = Some (JStr (frontend_url globex))
      ∧ get_prop "extraction_type" meta = Some (JStr "ai_output_verification")
      ∧ get_prop "total_fields" meta = Some (JNum 15).
Proof.
  apply (record_metadata_provenance sample_visit (sample_clock 0) globex).
  by vm_compute.
Defined.

(** X6: the record does not tell a field whose value element is blank
    from a field that was not found.  Two detail views on which every
    field resolves to the same text, a field not found counting as the
    empty text, give the same file and the same record. *)
Theorem blank_value_same_as_missing visit visit' now c pg pg' :
  visit (frontend_url c) = Some pg →
  visit' (frontend_url c) = Some pg' →
  includes (url pg) "company-detail" = true →
  includes (url pg') "company-detail" = true →
  (∀ f, f ∈ fields →
        default "" (resolveField (body pg) f.1)
        = default "" (resolveField (body pg') f.1)) →
  process_company visit now c = process_company visit' now c.
Proof.
  intros Hv Hv' Hu Hu' Hsame.
  rewrite (process_company_detail _ _ _ pg Hv Hu),
          (process_company_detail _ _ _ pg' Hv' Hu').
  assert (stored (resolveField (body pg)) <$> fields
          = stored (resolveField (body pg')) <$> fields) as Hstored.
  { apply list_fmap_ext. intros i f Hf. unfold stored.
    rewrite Hsame; [done|]. by eapply list_elem_of_lookup_2. }
  unfold summarised, extracted. by rewrite Hstored.
Qed.

Lemma blank_value_same_as_missing_witness :
  resolveField (body blank_cell_page) "Founders" = Some ""
  ∧ resolveField (body no_cell_page) "Founders" = None
  ∧ process_company (λ _, Some blank_cell_page) (sample_clock 0) globex
    = process_company (λ _, Some no_cell_page) (sample_clock 0) globex.
Proof.
  split; [by vm_compute|]. split; [by vm_compute|].
  apply (blank_value_same_as_missing _ _ (sample_clock 0) globex
           blank_cell_page no_cell_page); try reflexivity.
  assert (Forall (λ f : string * string,
            default "" (resolveField (body blank_cell_page) f.1)
            = default "" (resolveField (body no_cell_page) f.1)) fields) as Hall
    by (repeat constructor; by vm_compute).
  intros f Hf. by apply (proj1 (Forall_forall _ _) Hall).
Defined.
End ExtractionMore.

(** ** Labels that contain one another *)

Section LabelMatching.
Import JsString Js Dom Commands DataExtraction Notions Samples.
Import ExtractionNotions ExtractionSamples.

Lemma elem_of_find body sel set p :
  p ∈ find body sel set
  ↔ p ∈ elements body
    ∧ (∃ a, a ∈ set ∧ strict_prefix a p = true)
    ∧ matches_at body sel p = true.
Proof.
  unfold find. rewrite elem_of_filter_bool, andb_true_iff, existsb_exists.
  split.
  - intros (Hp & (a & Ha%list_elem_of_In & Hpre) & Hm). eauto.
  - intros (Hp & (a & Ha & Hpre) & Hm). split; [done|]. split; [|done].
    exists a. split; [by apply list_elem_of_In|done].
Qed.

Lemma elem_of_closest body sel set p :
  p ∈ closest body sel set
  ↔ p ∈ elements body ∧ ∃ lab, lab ∈ set ∧ closest1 body sel lab = Some p.
Proof.
  unfold closest. rewrite elem_of_filter_bool, bool_decide_eq_true, list_elem_of_omap.
  done.
Qed.

(** An element whose text contains a label contains every piece of that
    label. *)
Lemma label_selector_includes body label label' p :
  includes label' label = true →
  matches_at body (label_selector label') p = true →
  matches_at body (label_selector label) p = true.
Proof.
  intros Hinc. unfold matches_at. destruct (node_at body p) as [n|]; [|done].
  simpl. destruct n as [data|tag cls kids]; [done|].
  unfold matches_compound. cbn [sel_tag sel_classes sel_class_has sel_contains
                                from_option label_selector forallb].
  rewrite !orb_false_r, !andb_true_r. intros [Hc Ht]%andb_true_iff.
  rewrite Hc. simpl. by apply (includes_trans _ label').
Qed.

(** X8: labels are matched by containment.  When a label is contained in
    the text of another label, every value element the command considers
    for the longer label is also considered for the shorter one, so the
    shorter one is resolved whenever the longer one is (on the sample,
    "Industry" takes the value of the "Sub-Industry" card that precedes
    its own). *)
Theorem label_inside_another_shares_its_values body label label' :
  includes label' label = true →
  (∀ p, p ∈ value_candidates body label' → p ∈ value_candidates body label)
  ∧ (is_Some (resolveField body label') → is_Some (resolveField body label)).
Proof.
  intros Hinc.
  assert (∀ p, p ∈ value_candidates body label' → p ∈ value_candidates body label)
    as Hsub.
  { intros p. unfold value_candidates. rewrite !elem_of_find.
    intros (Hp & (c & Hc & Hpre) & Hm). split; [done|]. split; [|done].
    exists c. split; [|done]. revert Hc. rewrite !elem_of_closest.
    intros (Hc & lab & Hlab & Hnear). split; [done|]. exists lab. split; [|done].
    revert Hlab. rewrite !elem_of_find. intros (Hl & Hbelow & Hml).
    split; [done|]. split; [done|]. by apply (label_selector_includes _ _ label'). }
  split; [done|]. rewrite !resolveField_candidates.
  destruct (value_candidates body label') as [|p rest] eqn:Hc'; [by intros [? ?]|].
  intros _. assert (p ∈ value_candidates body label) as Hp.
  { apply Hsub. apply elem_of_cons. by left. }
  destruct (value_candidates body label); [by apply elem_of_nil in Hp|eauto].
Qed.

Lemma label_inside_another_shares_its_values_witness :
  resolveField overlapping_body "Industry" = Some "Payments"
  ∧ (∀ p, p ∈ value_candidates overlapping_body "Sub-Industry" →
          p ∈ value_candidates overlapping_body "Industry")
  ∧ (is_Some (resolveField overlapping_body "Sub-Industry") →
     is_Some (resolveField overlapping_body "Industry")).
Proof.
  split; [by vm_compute|].
  apply (label_inside_another_shares_its_values overlapping_body
           "Industry" "Sub-Industry").
  reflexivity.
Defined.

End LabelMatching.

(** ** Fields on a shared page *)

Section PageIndependence.
Import JsString Js Dom Commands DataExtraction Notions Samples.
Import ExtractionNotions ExtractionSamples.

Lemma filter_id_bool {A} (P : A → bool) l :
  (∀ x, x ∈ l → P x = true) → List.filter P l = l.
Proof.
  induction l as [|x l IH]; intros H; simpl; [done|].
  rewrite (H x) by (apply elem_of_cons; by left).
  f_equal. apply IH. intros y Hy. apply H, elem_of_cons. by right.
Qed.

Lemma filter_filter_bool {A} (P Q : A → bool) l :
  List.filter P (List.filter Q l) = List.filter (λ x, Q x && P x) l.
Proof.
  induction l as [|x l IH]; simpl; [done|].
  destruct (Q x); simpl; [|done]. destruct (P x); by rewrite IH.
Qed.

Lemma filter_ext_elem {A} (P Q : A → bool) l :
  (∀ x, x ∈ l → P x = Q x) → List.filter P l = List.filter Q l.
Proof.
  intros H. apply filter_ext_in. intros x Hx. by apply H, list_elem_of_In.
Qed.

Lemma strict_prefix_spec a p :
  strict_prefix a p = true ↔ ∃ x r, p = a ++ x :: r.
Proof.
  revert p. induction a as [|y a IH]; intros [|z p]; simpl.
  - split; [done|]. by intros (? & ? & ?).
  - split; [eauto|done].
  - split; [done|]. by intros (? & ? & ?).
  - rewrite andb_true_iff, Nat.eqb_eq, IH. split.
    + intros [-> (x & r & ->)]. eauto.
    + intros (x & r & [= -> ->]). eauto.
Qed.

Lemma at_or_below_spec q p : at_or_below q p = true ↔ ∃ r, p = q ++ r.
Proof.
  revert p. induction q as [|i q IH]; intros [|j p]; simpl.
  - split; [by exists []|done].
  - split; [eauto|done].
  - split; [done|]. by intros [? ?].
  - rewrite andb_true_iff, Nat.eqb_eq, IH. split.
    + intros [-> [r ->]]. eauto.
    + intros [r [= -> ->]]. eauto.
Qed.

Lemma at_or_below_app q r : at_or_below q (q ++ r) = true.
Proof. apply at_or_below_spec. eauto. Qed.

(** Whatever lies below a path that is at or below [q] is below [q]. *)
Lemma at_or_below_trans q p r :
  at_or_below q p = true → at_or_below q (p ++ r) = true.
Proof.
  intros [k ->]%at_or_below_spec. rewrite <- (assoc_L (++)). apply at_or_below_app.
Qed.

Lemma kids_elements_cons here i k ks :
  kids_elements here i (k :: ks)
  = subtree_elements (here ++ [i]) k ++ kids_elements here (S i) ks.
Proof. reflexivity. Qed.

(** The elements of the page without the node at [q] are those of the
    page that are neither [q] nor below it, in the same order. *)
Lemma kids_elements_remove q' i kids :
  (∀ here n, subtree_elements here (remove_at q' n)
             = List.filter (λ p, negb (at_or_below (here ++ q') p))
                 (subtree_elements here n)) →
  ∀ here i0,
    kids_elements here i0 (alter (remove_at q') i kids)
    = List.filter (λ p, negb (at_or_below (here ++ (i0 + i)%nat :: q') p))
        (kids_elements here i0 kids).
Proof.
  intros IHq. revert i. induction kids as [|k ks IH]; intros i here i0; [done|].
  assert (∀ j p, j ≠ (i0 + i)%nat →
                 at_or_below (here ++ (i0 + i)%nat :: q') (here ++ j :: p) = false)
    as Hother.
  { intros j p Hj. destruct (at_or_below _ _) eqn:E; [|done].
    apply at_or_below_spec in E as [r Hr]. rewrite <- (assoc_L (++)) in Hr.
    apply app_inv_head in Hr. simpl in Hr. by simplify_eq. }
  destruct i as [|i].
  - change (alter (remove_at q') 0%nat (k :: ks)) with (remove_at q' k :: ks).
    rewrite !kids_elements_cons, List.filter_app. f_equal.
    + rewrite IHq. apply filter_ext_elem. intros p _.
      by rewrite Nat.add_0_r, <- (assoc_L (++)).
    + symmetry. apply filter_id_bool. intros p Hp.
      apply (kids_elements_below here ks) in Hp as (j & r & Hj & ->).
      * rewrite Hother; [done|lia].
      * apply Forall_forall. intros k' _ at_ p'. apply subtree_elements_below.
  - change (alter (remove_at q') (S i) (k :: ks))
      with (k :: alter (remove_at q') i ks).
    rewrite !kids_elements_cons, List.filter_app. f_equal.
    + symmetry. apply filter_id_bool. intros p Hp.
      apply subtree_elements_below in Hp as [r ->].
      rewrite <- (assoc_L (++)). simpl. rewrite Hother; [done|lia].
    + rewrite (IH i here (S i0)). apply filter_ext_elem. intros p _.
      by replace (S i0 + i)%nat with (i0 + S i)%nat by lia.
Qed.

Lemma subtree_elements_remove q :
  ∀ here n,
    subtree_elements here (remove_at q n)
    = List.filter (λ p, negb (at_or_below (here ++ q) p)) (subtree_elements here n).
Proof.
  induction q as [|i q IH]; intros here n.
  - simpl. symmetry. apply filter_nil_bool. intros p Hp.
    apply subtree_elements_below in Hp as [r ->].
    by rewrite app_nil_r, at_or_below_app.
  - destruct n as [s|tag cls kids]; [done|].
    cbn [remove_at]. rewrite !subtree_elements_Element. cbn [List.filter].
    assert (at_or_below (here ++ i :: q) here = false) as ->.
    { destruct (at_or_below _ _) eqn:E; [|done].
      apply at_or_below_spec in E as [r Hr].
      apply (f_equal length) in Hr. rewrite !length_app in Hr. simpl in Hr. lia. }
    cbn [negb]. f_equal.
    by rewrite (kids_elements_remove q i kids IH here 0%nat).
Qed.

Lemma elements_remove q body :
  elements (remove_at q body)
  = List.filter (λ p, negb (at_or_below q p)) (elements body).
Proof. apply (subtree_elements_remove q [] body). Qed.

(** A node off the way to [q] and not below it is the node it was. *)
Lemma node_at_remove_off q :
  ∀ n p, at_or_below q p = false → strict_prefix p q = false →
         node_at (remove_at q n) p = node_at n p.
Proof.
  induction q as [|i q IH]; intros n p Hb Ha; [done|].
  destruct p as [|j p]; [done|]. destruct n as [s|tag cls kids]; [done|].
  simpl in *. destruct (decide (i = j)) as [->|Hne].
  - rewrite Nat.eqb_refl in Hb, Ha. simpl in Hb, Ha.
    rewrite list_lookup_alter_eq. destruct (kids !! j) as [k|]; simpl; [|done].
    by apply IH.
  - by rewrite list_lookup_alter_ne.
Qed.

(** A node on the way to [q] keeps its tag and its class. *)
Lemma node_at_remove_above p :
  ∀ q n, strict_prefix p q = true →
         match node_at n p with
         | Some (Element tag cls kids) =>
             ∃ kids', node_at (remove_at q n) p = Some (Element tag cls kids')
         | Some (TextNode s) => node_at (remove_at q n) p = Some (TextNode s)
         | None => node_at (remove_at q n) p = None
         end.
Proof.
  induction p as [|j p IH]; intros q n Ha.
  - destruct q as [|i q]; [done|]. destruct n as [s|tag cls kids]; simpl; eauto.
  - destruct q as [|i q]; [done|]. simpl in Ha.
    apply andb_true_iff in Ha as [->%Nat.eqb_eq Ha].
    destruct n as [s|tag cls kids]; [done|]. simpl.
    rewrite list_lookup_alter_eq. destruct (kids !! i) as [k|]; simpl; [|done].
    by apply IH.
Qed.

Lemma matches_ignores_text sel tag cls kids kids' :
  ignores_text sel →
  matches sel (Element tag cls kids) = matches sel (Element tag cls kids').
Proof.
  unfold matches. induction 1 as [|c sel Hc _ IH]; [done|].
  cbn [existsb]. rewrite IH. f_equal.
  unfold matches_compound. by rewrite Hc.
Qed.

(** An element that matches the selector of some label carries the class
    of a label, whatever its contents. *)
Lemma includes_empty s : includes s "" = true.
Proof. by destruct s. Qed.

Lemma label_class label tag cls kids kids' :
  matches (label_selector label) (Element tag cls kids) = true →
  matches (label_selector "") (Element tag cls kids') = true.
Proof.
  unfold matches, label_selector. cbn [existsb]. unfold matches_compound.
  cbn [sel_tag sel_classes sel_class_has sel_contains from_option forallb].
  rewrite !orb_false_r, includes_empty, !andb_true_r. cbn [andb].
  by intros [-> _]%andb_true_iff.
Qed.

Section Removal.
Variable body : node.
Variable q : path.

(** Where the two pages agree on a selector that does not look at text:
    everywhere outside the part taken out. *)
Lemma matches_at_remove sel p :
  ignores_text sel →
  at_or_below q p = false →
  matches_at (remove_at q body) sel p = matches_at body sel p.
Proof.
  intros Hsel Hb. unfold matches_at.
  destruct (strict_prefix p q) eqn:Ha.
  - pose proof (node_at_remove_above p q body Ha) as Hn.
    destruct (node_at body p) as [[s|tag cls kids]|]; [by rewrite Hn| |by rewrite Hn].
    destruct Hn as [kids' ->]. simpl. by apply matches_ignores_text.
  - by rewrite node_at_remove_off.
Qed.

(** Where they agree on the selector of a label: outside the part taken
    out, provided no element on the way to it carries the class of a
    label. *)
Lemma matches_at_remove_label label p :
  (strict_prefix p q = true → matches_at body (label_selector "") p = false) →
  at_or_below q p = false →
  matches_at (remove_at q body) (label_selector label) p
  = matches_at body (label_selector label) p.
Proof.
  intros Hclass Hb. unfold matches_at in *.
  destruct (strict_prefix p q) eqn:Ha.
  - specialize (Hclass eq_refl).
    pose proof (node_at_remove_above p q body Ha) as Hn.
    destruct (node_at body p) as [[s|tag cls kids]|]; [by rewrite Hn| |by rewrite Hn].
    destruct Hn as [kids' ->]. cbn [from_option] in *.
    destruct (matches (label_selector label) (Element tag cls kids')) eqn:E1.
    { apply (label_class _ _ _ _ kids) in E1. congruence. }
    destruct (matches (label_selector label) (Element tag cls kids)) eqn:E2; [|done].
    apply (label_class _ _ _ _ kids) in E2. congruence.
  - by rewrite node_at_remove_off.
Qed.

Lemma find_remove sel sel' set :
  (∀ p, p ∈ elements body → at_or_below q p = false →
        matches_at (remove_at q body) sel' p = matches_at body sel p) →
  find (remove_at q body) sel' set
  = List.filter (λ p, negb (at_or_below q p)) (find body sel set).
Proof.
  intros Hsame. unfold find. rewrite elements_remove, !filter_filter_bool.
  apply filter_ext_elem. intros p Hp.
  destruct (at_or_below q p) eqn:Hb; simpl.
  - by rewrite andb_false_r.
  - rewrite andb_true_r. by rewrite Hsame.
Qed.

Lemma elem_of_rev_list {A} (x : A) l : x ∈ rev l → x ∈ l.
Proof. rewrite !list_elem_of_In. apply in_rev. Qed.

Lemma inits_prefix lab p : p ∈ inits lab → ∃ r, lab = p ++ r.
Proof.
  revert p. induction lab as [|i lab IH]; intros p; simpl.
  - intros ->%list_elem_of_singleton. by exists [].
  - intros [->|Hp]%elem_of_cons; [by exists (i :: lab)|].
    apply list_elem_of_In, in_map_iff in Hp as (p' & <- & Hp').
    apply list_elem_of_In, IH in Hp' as [r ->]. by exists r.
Qed.

Lemma closest1_remove sel lab :
  ignores_text sel →
  at_or_below q lab = false →
  closest1 (remove_at q body) sel lab = closest1 body sel lab.
Proof.
  intros Hsel Hb. unfold closest1. f_equal. apply filter_ext_elem.
  intros p Hp%elem_of_rev_list%inits_prefix. destruct Hp as [r ->].
  apply matches_at_remove; [done|].
  destruct (at_or_below q p) eqn:E; [|done].
  by rewrite (at_or_below_trans _ _ r E) in Hb.
Qed.

Lemma closest1_above sel lab c : closest1 body sel lab = Some c → ∃ r, lab = c ++ r.
Proof.
  unfold closest1. intros Hc%head_Some_elem_of.
  apply elem_of_filter_bool in Hc as [Hc%elem_of_rev_list _]. by apply inits_prefix.
Qed.

Lemma closest_remove sel set :
  ignores_text sel →
  (∀ lab, lab ∈ set → at_or_below q lab = false) →
  closest (remove_at q body) sel set = closest body sel set.
Proof.
  intros Hsel Hset. unfold closest.
  assert (omap (closest1 (remove_at q body) sel) set = omap (closest1 body sel) set)
    as ->.
  { apply list_omap_ext, Forall2_same_length_lookup. split; [done|].
    intros i lab lab' Hi Hi'. simplify_eq. apply closest1_remove; [done|].
    by eapply Hset, list_elem_of_lookup_2. }
  rewrite elements_remove, filter_filter_bool.
  apply filter_ext_elem. intros p Hp.
  destruct (bool_decide (p ∈ omap (closest1 body sel) set)) eqn:E;
    [|by rewrite andb_false_r].
  rewrite andb_true_r.
  apply bool_decide_eq_true in E. apply list_elem_of_omap in E as (lab & Hlab & Hc).
  apply closest1_above in Hc as [r ->].
  destruct (at_or_below q p) eqn:Hb; [|done].
  pose proof (Hset _ Hlab) as Hno.
  by rewrite (at_or_below_trans _ _ r Hb) in Hno.
Qed.

(** Taking the node at [q] out of the page leaves the resolution of a
    label as it was, when the part taken out holds no label element and
    no value candidate of that label, no value candidate encloses it, and
    no element enclosing it carries the class of a label. *)
Lemma resolveField_remove label :
  (∀ p, p ∈ elements body → strict_prefix p q = true →
        matches_at body (label_selector "") p = false) →
  (∀ p, p ∈ elements body → at_or_below q p = true →
        matches_at body (label_selector label) p = false) →
  (∀ p, p ∈ value_candidates body label →
        at_or_below q p = false ∧ strict_prefix p q = false) →
  resolveField (remove_at q body) label = resolveField body label.
Proof.
  intros Hwrap Hlabel Hvalue.
  assert (find (remove_at q body) (label_selector label) [[]]
          = find body (label_selector label) [[]]) as Hlabs.
  { rewrite (find_remove (label_selector label)).
    2:{ intros p Hp Hb. apply matches_at_remove_label; [|done]. by apply Hwrap. }
    apply filter_id_bool. intros p (Hp & _ & Hm)%elem_of_find.
    destruct (at_or_below q p) eqn:Hb; [|done].
    by rewrite (Hlabel p Hp Hb) in Hm. }
  assert (ignores_text container_selector) as Hcont by (by repeat constructor).
  assert (ignores_text value_selector) as Hval by (by repeat constructor).
  assert (value_candidates (remove_at q body) label = value_candidates body label)
    as Hcands.
  { unfold value_candidates. rewrite Hlabs.
    rewrite closest_remove; [|done|].
    2:{ intros lab (Hp & _ & Hm)%elem_of_find.
        destruct (at_or_below q lab) eqn:Hb; [|done].
        by rewrite (Hlabel lab Hp Hb) in Hm. }
    rewrite (find_remove value_selector).
    2:{ intros p _ Hb. by apply matches_at_remove. }
    apply filter_id_bool. intros p Hp.
    destruct (Hvalue p Hp) as [-> _]. done. }
  rewrite !resolveField_candidates, Hcands.
  destruct (value_candidates body label) as [|p rest] eqn:Hc; [done|].
  destruct (Hvalue p) as [Hb Ha]; [apply elem_of_cons; by left|].
  unfold text. simpl. by rewrite node_at_remove_off.
Qed.

End Removal.

(** C5, as the code has it.  In the loop the fields are independent:
    with the outcome of one field forced to "not found", what is stored
    for any other field is unchanged and is that field's own outcome,
    wherever the two stand in the schema order, so a field that is not
    found never keeps a later one from being attempted.  On the page they
    are independent under a proviso: when a node is taken out of the
    page, a field resolves as before, and the same value is stored for
    it, provided the part taken out holds none of the field's own label
    elements or value candidates, none of its value candidates encloses
    that part, and no element enclosing that part carries the class of a
    label. *)
Theorem field_resolution_independent res rec f g :
  f ∈ fields → g ∈ fields → f ≠ g →
  get_prop g.2 (extractCompanyFields_with (force_not_found f.1 res) rec)
  = get_prop g.2 (extractCompanyFields_with res rec)
  ∧ get_prop g.2 (extractCompanyFields_with (force_not_found f.1 res) rec)
    = match res g.1 with
      | Some v => Some (JStr v)
      | None => get_prop g.2 rec
      end
  ∧ ∀ body q,
      (∀ p, p ∈ elements body → strict_prefix p q = true →
            matches_at body (label_selector "") p = false) →
      (∀ p, p ∈ elements body → at_or_below q p = true →
            matches_at body (label_selector g.1) p = false) →
      (∀ p, p ∈ value_candidates body g.1 →
            at_or_below q p = false ∧ strict_prefix p q = false) →
      resolveField (remove_at q body) g.1 = resolveField body g.1
      ∧ get_prop g.2 (extractCompanyFields (remove_at q body) rec)
        = get_prop g.2 (extractCompanyFields body rec).
Proof.
  intros Hf Hg Hne.
  assert (force_not_found f.1 res g.1 = res g.1) as Hforce.
  { unfold force_not_found. destruct (String.eqb g.1 f.1) eqn:E; [|done].
    apply String.eqb_eq in E. exfalso. apply Hne. by apply fields_label_inj. }
  unfold extractCompanyFields, extractCompanyFields_with.
  rewrite !get_prop_fold_assign by (apply fields_keys_NoDup || done).
  rewrite Hforce. split; [done|]. split; [done|].
  intros body q Hwrap Hlabel Hvalue.
  pose proof (resolveField_remove body q g.1 Hwrap Hlabel Hvalue) as Hsame.
  split; [done|].
  rewrite !(get_prop_fold_assign _ fields rec g fields_keys_NoDup Hg).
  by rewrite Hsame.
Qed.

Lemma field_resolution_independent_witness :
  resolveField detail_body "Location" = Some "Jakarta"
  ∧ resolveField (remove_at [1%nat] detail_body) "Location" = None
  ∧ resolveField (remove_at [1%nat] detail_body) "Industry"
    = resolveField detail_body "Industry"
  ∧ get_prop "industry"
      (extractCompanyFields (remove_at [1%nat] detail_body)
         (initial_record (sample_clock 0) globex))
    = get_prop "industry"
        (extractCompanyFields detail_body (initial_record (sample_clock 0) globex)).
Proof.
  split; [by vm_compute|]. split; [by vm_compute|].
  apply (field_resolution_independent (resolveField detail_body)
           (initial_record (sample_clock 0) globex)
           ("Location", "location") ("Industry", "industry"));
    [compute_done|compute_done|done|..].
  - assert (Forall (λ p, strict_prefix p [1%nat] = true →
                         matches_at detail_body (label_selector "") p = false)
              (elements detail_body)) as Hall by compute_done.
    intros p Hp. by apply (proj1 (Forall_forall _ _) Hall).
  - assert (Forall (λ p, at_or_below [1%nat] p = true →
                         matches_at detail_body (label_selector "Industry") p = false)
              (elements detail_body)) as Hall by compute_done.
    intros p Hp. by apply (proj1 (Forall_forall _ _) Hall).
  - assert (Forall (λ p, at_or_below [1%nat] p = false
                         ∧ strict_prefix p [1%nat] = false)
              (value_candidates detail_body "Industry")) as Hall by compute_done.
    intros p Hp. by apply (proj1 (Forall_forall _ _) Hall).
Defined.

(** C5, as the specification has it, fails on the code.  Inside a wrapper
    that matches the label selector and is itself a rounded [div], taking
    the card of "Location" out of the page makes "Location" not found
    and changes what is stored for "Industry" from "Jakarta" to
    "Fintech". *)
Lemma wrapper_couples_fields :
  resolveField wrapper_body "Location" = Some "Jakarta"
  ∧ resolveField (remove_at [0; 0]%nat wrapper_body) "Location" = None
  ∧ resolveField wrapper_body "Industry" = Some "Jakarta"
  ∧ resolveField (remove_at [0; 0]%nat wrapper_body) "Industry" = Some "Fintech"
  ∧ ¬ independent_on_page wrapper_body (initial_record (sample_clock 0) globex).
Proof.
  split; [by vm_compute|]. split; [by vm_compute|].
  split; [by vm_compute|]. split; [by vm_compute|].
  intros H.
  specialize (H ("Location", "location") ("Industry", "industry") [0; 0]%nat).
  assert (get_prop "industry"
            (extractCompanyFields (remove_at [0; 0]%nat wrapper_body)
               (initial_record (sample_clock 0) globex))
          = get_prop "industry"
              (extractCompanyFields wrapper_body
                 (initial_record (sample_clock 0) globex))) as Heq.
  { apply H; [compute_done|compute_done|done| |by vm_compute].
    exists [0; 0]%nat. split; [compute_done|reflexivity]. }
  by vm_compute in Heq.
Qed.

End PageIndependence.

(** ** Changes of one directory *)

Section FrameFacts.
Import JsString Js Fs Tasks FsNotions FrameNotions.

(** A change of the entries of the directory at [d] shows only at [d],
    on the way to it, and below the entries changed. *)
Lemma lookup_alter_dir_frame f d p fs :
  is_prefix p d = false →
  (∀ x r es, p = d ++ x :: r → f es !! x = es !! x) →
  lookup_path p (alter_dir f d fs) = lookup_path p fs.
Proof.
  revert p fs. induction d as [|y d IH]; intros p fs Hpre Hf.
  - destruct p as [|x r]; [done|]. destruct fs as [c a|es a]; [done|].
    simpl. by rewrite (Hf x r es).
  - destruct p as [|x r]; [done|]. destruct fs as [c a|es a]; [done|].
    simpl in *. destruct (decide (x = y)) as [->|Hne].
    + rewrite String.eqb_refl in Hpre. simpl in Hpre.
      rewrite lookup_alter_eq. destruct (es !! y) as [child|]; simpl; [|done].
      apply IH; [done|]. intros x' r' es' ->. by apply (Hf x' r' es').
    + by rewrite lookup_alter_ne.
Qed.

Lemma is_prefix_trans a b c :
  is_prefix a b = true → is_prefix b c = true → is_prefix a c = true.
Proof.
  rewrite !is_prefix_spec. intros [r ->] [r' ->]. exists (r ++ r').
  by rewrite (assoc_L (++)).
Qed.

End FrameFacts.

(** ** [clearDownloads]: when it returns, when it throws *)

Section ClearDownloadsMore.
Import JsString Js Fs Tasks FsNotions FsSamples FrameNotions TaskSamples.

Variable downloadsFolder : path.

(** The loop in a folder that cannot be written to: it fails at the first
    regular file, having deleted nothing. *)
Lemma clear_loop_unwritable fs es a names :
  lookup_path downloadsFolder fs = Some (Dir es a) →
  writable a = false →
  (∀ x, x ∈ names → is_Some (es !! x)) →
  forEach names
    (λ file,
       let filePath := downloadsFolder ++ [file] in
       do st <- statSync filePath;
       if isFile st then unlinkSync filePath else ret tt) fs
  = (if existsb (file_entry es) names
     then inl "EACCES: permission denied, unlink" else inr tt, fs).
Proof.
  intros Hd Hw. induction names as [|x names IH]; intros Hin; [done|].
  cbn [forEach existsb]. unfold bind at 1. unfold bind at 1. unfold statSync at 1.
  rewrite lookup_path_snoc, Hd. unfold file_entry at 1.
  destruct (Hin x) as [n Hn]; [apply elem_of_cons; by left|]. rewrite Hn.
  destruct n as [c a'|es' a']; cbn [is_file isFile orb].
  - unfold unlinkSync. by rewrite lookup_path_snoc, Hd, Hn, split_last_app, Hd, Hw.
  - unfold ret at 1. apply IH. intros y Hy. apply Hin, elem_of_cons. by right.
Qed.

(** The loop in a folder that holds no regular file changes nothing. *)
Lemma clear_loop_no_files fs es a names :
  lookup_path downloadsFolder fs = Some (Dir es a) →
  (∀ x, x ∈ names → ∃ es' a', es !! x = Some (Dir es' a')) →
  forEach names
    (λ file,
       let filePath := downloadsFolder ++ [file] in
       do st <- statSync filePath;
       if isFile st then unlinkSync filePath else ret tt) fs
  = (inr tt, fs).
Proof.
  intros Hd. induction names as [|x names IH]; intros Hin; [done|].
  cbn [forEach]. unfold bind at 1. unfold bind at 1. unfold statSync at 1.
  rewrite lookup_path_snoc, Hd.
  destruct (Hin x) as (es' & a' & Hx); [apply elem_of_cons; by left|]. rewrite Hx.
  cbn [is_file isFile]. unfold ret at 1.
  apply IH. intros y Hy. apply Hin, elem_of_cons. by right.
Qed.

Lemma names_listed (es : gmap string inode) x :
  x ∈ (map_to_list es).*1 ↔ is_Some (es !! x).
Proof.
  rewrite list_elem_of_fmap. split.
  - intros ([k n] & -> & Hk). apply elem_of_map_to_list in Hk. eauto.
  - intros [n Hn]. exists (x, n). split; [done|]. by apply elem_of_map_to_list.
Qed.

(** X9: [clearDownloads] is idempotent.  After a call that returned, a
    second call returns [null] and leaves the file system as the first
    call left it. *)
Theorem clearDownloads_twice_changes_nothing_more fs v fs' :
  clearDownloads downloadsFolder fs = (inr v, fs') →
  clearDownloads downloadsFolder fs' = (inr JNull, fs').
Proof.
  unfold clearDownloads at 1. unfold bind at 1. unfold existsSync at 1.
  destruct (lookup_path downloadsFolder fs) as [n|] eqn:Hd; cbn [ret].
  2:{ unfold ret. intros ?. simplify_eq. unfold clearDownloads, bind, existsSync.
      cbv zeta. by rewrite Hd. }
  unfold bind at 1. unfold readdirSync at 1. rewrite Hd.
  destruct n as [c a|es a]; [done|].
  destruct (readable a) eqn:Hr; [|done].
  unfold bind at 1.
  destruct (clear_loop downloadsFolder fs es a (map_to_list es).*1 [] Hd)
    as (res & removed & Hrun & Hfiles & _ & Hall).
  { intros x Hx. by apply elem_of_nil in Hx. }
  assert (remove_names [] downloadsFolder fs = fs) as Hnil.
  { unfold remove_names. simpl. apply alter_dir_id. }
  rewrite Hnil in Hrun. cbv zeta in Hrun. rewrite Hrun.
  destruct res as [e|[]]; [done|]. unfold ret at 1. intros ?. simplify_eq.
  assert (lookup_path downloadsFolder (remove_names removed downloadsFolder fs)
          = Some (Dir (foldr delete es removed) a)) as Hd'.
  { unfold remove_names.
    by rewrite (lookup_alter_dir_here _ _ _ _ _ Hd). }
  unfold clearDownloads. cbv zeta. unfold bind at 1. unfold existsSync at 1.
  rewrite Hd'.
  unfold bind at 1. unfold readdirSync at 1. rewrite Hd', Hr.
  unfold bind at 1. rewrite (clear_loop_no_files _ _ a _ Hd'); [done|].
  intros x [n Hn]%names_listed. rewrite lookup_foldr_delete in Hn.
  rewrite lookup_foldr_delete.
  destruct (decide (x ∈ removed)) as [?|Hnot]; [done|].
  destruct (Hall eq_refl x) as [?|Hdir]; [apply names_listed; eauto|done|].
  destruct n as [c a'|es' a']; [by destruct (Hdir c a')|eauto].
Qed.

(** X10: [clearDownloads] has no [try]/[catch].  When the downloads
    folder can be listed but not written to and holds a regular file, the
    task throws the [EACCES] error of [unlinkSync] and nothing has been
    deleted. *)
Theorem clearDownloads_throws_in_unwritable_folder fs es a name :
  lookup_path downloadsFolder fs = Some (Dir es a) →
  readable a = true →
  writable a = false →
  file_in downloadsFolder fs name →
  clearDownloads downloadsFolder fs
  = (inl "EACCES: permission denied, unlink", fs).
Proof.
  intros Hd Hr Hw (c & a' & Hfile).
  rewrite lookup_path_snoc, Hd in Hfile.
  unfold clearDownloads. cbv zeta. unfold bind at 1. unfold existsSync at 1.
  rewrite Hd.
  unfold bind at 1. unfold readdirSync at 1. rewrite Hd, Hr.
  unfold bind at 1. rewrite (clear_loop_unwritable _ es a _ Hd Hw).
  2:{ intros x Hx. by apply names_listed. }
  assert (existsb (file_entry es) (map_to_list es).*1 = true) as ->; [|done].
  apply existsb_exists. exists name. split.
  - apply list_elem_of_In, names_listed. eauto.
  - unfold file_entry. by rewrite Hfile.
Qed.

End ClearDownloadsMore.

Section ClearDownloadsWritable.
Import JsString Js Fs Tasks FsNotions FsSamples FrameNotions.

Variable downloadsFolder : path.

(** Two changes of the entries of a directory that agree on the entries
    it has give the same file system. *)
Lemma alter_dir_ext_at f g d fs es a :
  lookup_path d fs = Some (Dir es a) →
  f es = g es →
  alter_dir f d fs = alter_dir g d fs.
Proof.
  revert fs. induction d as [|x d IH]; intros fs Hd Hfg.
  - simpl in Hd. simplify_eq. simpl. by rewrite Hfg.
  - destruct fs as [c0 a0|es0 a0]; [done|]. simpl in *. f_equal.
    destruct (es0 !! x) as [child|] eqn:Hx; [|done]. simpl in Hd.
    apply map_eq. intros y. destruct (decide (y = x)) as [->|Hne].
    + rewrite !lookup_alter_eq, Hx. simpl. f_equal. by apply IH.
    + by rewrite !lookup_alter_ne.
Qed.

(** The loop in a folder that can be written to deletes the regular
    files among the names it is given, and returns. *)
Lemma clear_loop_writable fs es a names removed :
  lookup_path downloadsFolder fs = Some (Dir es a) →
  writable a = true →
  NoDup names →
  (∀ x, x ∈ names → (x ∉ removed) ∧ is_Some (es !! x)) →
  ∃ removed',
    forEach names
      (λ file,
         let filePath := downloadsFolder ++ [file] in
         do st <- statSync filePath;
         if isFile st then unlinkSync filePath else ret tt)
      (remove_names removed downloadsFolder fs)
    = (inr tt, remove_names removed' downloadsFolder fs)
    ∧ ∀ x, x ∈ removed' ↔ x ∈ removed ∨ (x ∈ names ∧ file_entry es x = true).
Proof.
  intros Hd Hw. revert removed.
  induction names as [|x names IH]; intros removed Hnd Hin.
  - exists removed. split; [done|]. intros x. split; [by left|].
    by intros [?|[?%elem_of_nil _]].
  - apply NoDup_cons in Hnd as [Hx Hnd].
    destruct (Hin x) as [Hfresh [n Hn]]; [apply elem_of_cons; by left|].
    cbn [forEach]. unfold bind at 1. unfold bind at 1. unfold statSync at 1.
    rewrite (lookup_remove_names removed downloadsFolder fs es a x Hd).
    rewrite decide_False by done. rewrite Hn.
    destruct n as [c a'|es' a']; cbn [is_file isFile].
    + unfold unlinkSync at 1.
      rewrite (lookup_remove_names removed downloadsFolder fs es a x Hd).
      rewrite decide_False by done. rewrite Hn, split_last_app.
      unfold remove_names at 1. rewrite (lookup_alter_dir_here _ _ _ _ _ Hd), Hw.
      unfold remove_names at 1. rewrite alter_dir_compose.
      destruct (IH (x :: removed) Hnd) as (removed' & Hrun & Hiff).
      { intros y Hy. destruct (Hin y) as [? ?]; [apply elem_of_cons; by right|].
        split; [|done]. intros [->|?]%elem_of_cons; done. }
      exists removed'. split; [exact Hrun|]. intros y. rewrite Hiff, !elem_of_cons.
      split.
      * intros [[->|?]|[? ?]]; [|by left|by right; split; [right|]].
        right. split; [by left|]. unfold file_entry. by rewrite Hn.
      * intros [?|[[->|?] Hf]]; [by left; right|by left; left|by right].
    + unfold ret at 1.
      destruct (IH removed Hnd) as (removed' & Hrun & Hiff).
      { intros y Hy. apply Hin, elem_of_cons. by right. }
      exists removed'. split; [exact Hrun|]. intros y. rewrite Hiff, !elem_of_cons.
      split.
      * intros [?|[? ?]]; [by left|by right; split; [right|]].
      * intros [?|[[->|?] Hf]]; [by left| |by right].
        unfold file_entry in Hf. by rewrite Hn in Hf.
Qed.

(** X11: when the downloads folder is a directory that can be listed and
    written to, [clearDownloads] returns [null], and the file system it
    leaves is the initial one with exactly the regular files of the
    folder taken out of it. *)
Theorem clearDownloads_empties_writable_folder fs es a :
  lookup_path downloadsFolder fs = Some (Dir es a) →
  readable a = true →
  writable a = true →
  clearDownloads downloadsFolder fs
  = (inr JNull,
     alter_dir (filter (λ entry, is_file entry.2 = false)) downloadsFolder fs).
Proof.
  intros Hd Hr Hw.
  unfold clearDownloads. cbv zeta. unfold bind at 1. unfold existsSync at 1.
  rewrite Hd. unfold bind at 1. unfold readdirSync at 1. rewrite Hd, Hr.
  unfold bind at 1.
  destruct (clear_loop_writable fs es a (map_to_list es).*1 [] Hd Hw)
    as (removed & Hrun & Hiff).
  { apply NoDup_fst_map_to_list. }
  { intros x Hx. split; [apply not_elem_of_nil|by apply names_listed]. }
  assert (remove_names [] downloadsFolder fs = fs) as Hnil.
  { unfold remove_names. simpl. apply alter_dir_id. }
  rewrite Hnil in Hrun. cbv zeta in Hrun. rewrite Hrun. unfold ret. f_equal.
  unfold remove_names. apply (alter_dir_ext_at _ _ _ _ es a Hd).
  apply map_eq. intros x. rewrite lookup_foldr_delete, map_lookup_filter.
  destruct (decide (x ∈ removed)) as [Hx|Hx].
  - apply Hiff in Hx as [?%elem_of_nil|[_ Hf]]; [done|].
    unfold file_entry in Hf. destruct (es !! x) as [[c a'|es' a']|]; try done.
  - destruct (es !! x) as [n|] eqn:Hn; [|done]. simpl.
    destruct n as [c a'|es' a'].
    + exfalso. apply Hx, Hiff. right. split; [apply names_listed; eauto|].
      unfold file_entry. by rewrite Hn.
    + by rewrite option_guard_True.
Qed.

End ClearDownloadsWritable.

Section ClearDownloadsMoreSample.
Import JsString Js Fs Tasks FsNotions FsSamples FrameNotions TaskSamples.

Lemma clearDownloads_twice_changes_nothing_more_witness :
  let fs' := (clearDownloads sample_downloadsFolder sample_fs).2 in
  clearDownloads sample_downloadsFolder fs' = (inr JNull, fs').
Proof.
  intros fs'.
  apply (clearDownloads_twice_changes_nothing_more sample_downloadsFolder
           sample_fs JNull fs').
  by vm_compute.
Defined.

Lemma clearDownloads_throws_in_unwritable_folder_witness :
  clearDownloads sample_downloadsFolder locked_fs
  = (inl "EACCES: permission denied, unlink", locked_fs).
Proof.
  eapply (clearDownloads_throws_in_unwritable_folder sample_downloadsFolder
            locked_fs _ _ "a.pdf").
  - by vm_compute.
  - reflexivity.
  - reflexivity.
  - exists "memo", (rw 5). by vm_compute.
Defined.

End ClearDownloadsMoreSample.

Section ClearDownloadsWritableSample.
Import JsString Js Fs Tasks FsNotions FsSamples FrameNotions.

Lemma clearDownloads_empties_writable_folder_witness :
  clearDownloads sample_downloadsFolder sample_fs
  = (inr JNull,
     alter_dir (filter (λ entry, is_file entry.2 = false))
       sample_downloadsFolder sample_fs).
Proof.
  eapply (clearDownloads_empties_writable_folder sample_downloadsFolder sample_fs).
  - by vm_compute.
  - reflexivity.
  - reflexivity.
Defined.

End ClearDownloadsWritableSample.

(** ** [moveDownloadedFile]: what a run leaves alone *)

Section RenameFrame.
Import JsString Js Fs Tasks FsNotions FrameNotions.

Lemma diverge_snoc p d x :
  diverge p (d ++ [x]) →
  is_prefix p d = false ∧ ∀ r, p ≠ d ++ x :: r.
Proof.
  intros [H1 H2]. split.
  - destruct (is_prefix p d) eqn:E; [|done].
    by rewrite (is_prefix_app_r _ _ [x] E) in H1.
  - intros r ->. rewrite (cons_middle x d r), (assoc_L (++)) in H2.
    by rewrite is_prefix_app in H2.
Qed.

(** A rename that returns leaves alone whatever lies neither on the way
    to the source or the destination nor at or below them. *)
Lemma renameSync_frame src dst fs fs' p :
  renameSync src dst fs = (inr tt, fs') →
  diverge p src → diverge p dst →
  lookup_path p fs' = lookup_path p fs.
Proof.
  unfold renameSync. intros Hrun Hsrc Hdst.
  destruct (lookup_path src fs) as [n|]; [|done].
  destruct (split_last src) as [[sdir sbase]|] eqn:Hs; [|done].
  destruct (split_last dst) as [[ddir dbase]|] eqn:Hd; [|done].
  apply split_last_Some in Hs as ->. apply split_last_Some in Hd as ->.
  apply diverge_snoc in Hsrc as [Hs1 Hs2]. apply diverge_snoc in Hdst as [Hd1 Hd2].
  assert (lookup_path p (alter_dir <[dbase:=n]> ddir
                           (alter_dir (delete sbase) sdir fs))
          = lookup_path p fs) as Hmoved.
  { rewrite lookup_alter_dir_frame; [|done|].
    - rewrite lookup_alter_dir_frame; [done|done|].
      intros x r es ->. apply lookup_delete_ne. intros <-. by apply (Hs2 r).
    - intros x r es ->. apply lookup_insert_ne. intros <-. by apply (Hd2 r). }
  destruct (lookup_path sdir fs) as [[c sa|ses sa]|];
    destruct (lookup_path ddir fs) as [[c' da|des da]|]; try (by simplify_eq).
  cbv zeta in Hrun. case_bool_decide.
  { by simplify_eq. }
  destruct (is_prefix (sdir ++ [sbase]) (ddir ++ [dbase])); [by simplify_eq|].
  destruct (negb (writable sa && writable da)); [by simplify_eq|].
  destruct n as [c na|nes na]; destruct (des !! dbase) as [[c' a'|es' a']|];
    try (by simplify_eq).
  destruct (map_to_list es'); by simplify_eq.
Qed.

End RenameFrame.

Section MoveMore.
Import JsString Js Fs Tasks FsNotions FrameNotions.

Variable downloadsFolder : path.
Variable cwd : path.
Variable now : Z.

(** The two ways the task ends: without having moved anything, the file
    system being as it was when the downloads folder was (or would have
    been) listed, or with one entry of the downloads folder renamed. *)
Lemma moveDownloadedFile_cases companyName targetFolder fs r fs' :
  let targetFilePath :=
    path_join (path_join cwd targetFolder) (companyName +:+ "_Investment_Memo.pdf") in
  let listed := prepared cwd now targetFolder fs in
  moveDownloadedFile downloadsFolder cwd now companyName targetFolder fs = (inr r, fs') →
  (move_success r = false ∧ fs' = listed)
  ∨ (move_success r = true
     ∧ ∃ name n,
         lookup_path (downloadsFolder ++ [name]) listed = Some n
         ∧ is_pdf_name name = true
         ∧ renameSync (downloadsFolder ++ [name]) targetFilePath listed = (inr tt, fs')).
Proof.
  intros targetFilePath listed.
  set (targetPath := path_join cwd targetFolder).
  destruct ((do present <- existsSync targetPath;
             if negb present then mkdirSync_recursive now targetPath else ret tt) fs)
    as [res1 fs1] eqn:Hens.
  assert (listed = fs1) as ->.
  { subst listed. unfold prepared. cbv zeta. fold targetPath. by rewrite Hens. }
  unfold moveDownloadedFile, try_catch. cbv zeta. fold targetPath.
  unfold bind at 1. unfold bind at 1 in Hens.
  destruct (existsSync targetPath fs) as [[e|present] fs0] eqn:Hex.
  { unfold existsSync in Hex. done. }
  unfold bind at 1. rewrite Hens.
  destruct res1 as [e|[]].
  { unfold ret. intros ?. simplify_eq. by left. }
  unfold bind at 1. unfold readdirSync at 1.
  destruct (lookup_path downloadsFolder fs1) as [[c a|es a]|] eqn:Hd.
  { unfold ret. intros ?. simplify_eq. by left. }
  2:{ unfold ret. intros ?. simplify_eq. by left. }
  destruct (readable a) eqn:Hread.
  2:{ unfold ret. intros ?. simplify_eq. by left. }
  assert (∀ name, es !! name = lookup_path (downloadsFolder ++ [name]) fs1) as Hes.
  { intros name. by rewrite lookup_path_snoc, Hd. }
  set (names := (map_to_list es).*1).
  assert (∀ name, name ∈ names → is_Some (es !! name)) as Hnames.
  { intros name. apply names_listed. }
  unfold bind at 1. rewrite mapM_stat.
  2:{ intros file [Hf _]%elem_of_filter_bool. rewrite <- Hes. by apply Hnames. }
  destruct (sort_newest_first (listed_at downloadsFolder fs1 <$> List.filter is_pdf_name names))
    as [|x rest] eqn:Hsort.
  { unfold ret. intros ?. simplify_eq. by left. }
  apply sort_newest_first_cons in Hsort as [Hx Hmax].
  apply list_elem_of_fmap in Hx as (name & -> & [Hname Hpdf]%elem_of_filter_bool).
  destruct (Hnames name Hname) as [n Hn].
  assert (lookup_path (downloadsFolder ++ [name]) fs1 = Some n) as Hsrc.
  { by rewrite <- Hes. }
  cbn [l_path listed_at]. unfold bind at 1. subst targetFilePath. fold targetPath.
  destruct (renameSync (downloadsFolder ++ [name])
              (path_join targetPath (companyName +:+ "_Investment_Memo.pdf")) fs1)
    as [[e|[]] fs2] eqn:Hren.
  { unfold ret. intros ?. simplify_eq. left. split; [done|].
    unfold renameSync in Hren. by repeat case_match; simplify_eq. }
  unfold ret. intros ?. simplify_eq. right. split; [done|]. eauto.
Qed.

(** Making sure of the target folder changes nothing when the folder
    is there, and otherwise only what lies on the way to it or below. *)
Lemma prepared_frame targetFolder fs :
  (is_Some (lookup_path (path_join cwd targetFolder) fs) →
   prepared cwd now targetFolder fs = fs)
  ∧ ∀ p, is_prefix p (path_join cwd targetFolder) = false →
         lookup_path p (prepared cwd now targetFolder fs) = lookup_path p fs.
Proof.
  unfold prepared, bind, existsSync. cbv zeta. split.
  - intros [n ->]. done.
  - intros p Hp.
    destruct (lookup_path (path_join cwd targetFolder) fs) as [n|];
      cbn [negb ret]; [done|].
    unfold mkdirSync_recursive.
    destruct (mkdir_p now (path_join cwd targetFolder) fs) as [e|fs1] eqn:Hmk; [done|].
    cbn [snd]. by apply (mkdir_p_off now (path_join cwd targetFolder) _ fs fs1 Hmk).
Qed.

(** X12: when [moveDownloadedFile] returns [success: false], no file has
    been moved.  The file system is the initial one except that the
    target folder may have been created: it is the initial one when the
    target folder existed, and in any case every path that is not on the
    way to the target folder is as it was. *)
Theorem moveDownloadedFile_failure_moves_nothing companyName targetFolder fs r fs' :
  moveDownloadedFile downloadsFolder cwd now companyName targetFolder fs = (inr r, fs') →
  move_success r = false →
  fs' = prepared cwd now targetFolder fs
  ∧ (is_Some (lookup_path (path_join cwd targetFolder) fs) → fs' = fs)
  ∧ ∀ p, is_prefix p (path_join cwd targetFolder) = false →
         lookup_path p fs' = lookup_path p fs.
Proof.
  intros Hrun Hfail.
  destruct (moveDownloadedFile_cases _ _ _ _ _ Hrun) as [[_ ->]|[Hs _]];
    [|by rewrite Hs in Hfail].
  split; [done|]. apply prepared_frame.
Qed.

(** X13: when [moveDownloadedFile] returns [success: true] and the
    target file path and the downloads folder do not lead to one another,
    exactly one entry has left the downloads folder.  It has a PDF name,
    it is now at the target file path, every other entry of the folder is
    as the task found it, and so is every path that leads neither to nor
    from the moved entry or the target file path. *)
Theorem moveDownloadedFile_moves_one_entry companyName targetFolder fs r fs' :
  let targetFilePath :=
    path_join (path_join cwd targetFolder) (companyName +:+ "_Investment_Memo.pdf") in
  let listed := prepared cwd now targetFolder fs in
  moveDownloadedFile downloadsFolder cwd now companyName targetFolder fs = (inr r, fs') →
  move_success r = true →
  diverge targetFilePath downloadsFolder →
  ∃ name,
    is_pdf_name name = true
    ∧ is_Some (lookup_path (downloadsFolder ++ [name]) listed)
    ∧ lookup_path targetFilePath fs' = lookup_path (downloadsFolder ++ [name]) listed
    ∧ lookup_path (downloadsFolder ++ [name]) fs' = None
    ∧ (∀ name', name' ≠ name →
         lookup_path (downloadsFolder ++ [name']) fs'
         = lookup_path (downloadsFolder ++ [name']) listed)
    ∧ (∀ p, diverge p (downloadsFolder ++ [name]) → diverge p targetFilePath →
            lookup_path p fs' = lookup_path p listed).
Proof.
  intros targetFilePath listed Hrun Hok [Hdiv1 Hdiv2].
  destruct (moveDownloadedFile_cases _ _ _ _ _ Hrun) as [[Hs _]|[_ Hmove]];
    [by rewrite Hs in Hok|].
  destruct Hmove as (name & n & Hn & Hpdf & Hren).
  fold targetFilePath listed in Hren. fold listed in Hn.
  assert (downloadsFolder ++ [name] ≠ targetFilePath) as Hne.
  { intros Heq. by rewrite <- Heq, is_prefix_app in Hdiv2. }
  destruct (renameSync_moves _ _ _ _ n Hn Hren) as [Hthere Hgone].
  exists name. split; [done|]. split; [eauto|]. split; [by rewrite Hn|].
  split; [by apply Hgone|].
  assert (∀ p, diverge p (downloadsFolder ++ [name]) → diverge p targetFilePath →
               lookup_path p fs' = lookup_path p listed) as Hframe.
  { intros p. by apply renameSync_frame. }
  split; [|done]. intros name' Hname'. apply Hframe.
  - split.
    + destruct (is_prefix (downloadsFolder ++ [name']) (downloadsFolder ++ [name]))
        eqn:E; [|done].
      rewrite is_prefix_app_both in E. simpl in E.
      rewrite andb_true_r in E. by apply String.eqb_eq in E.
    + destruct (is_prefix (downloadsFolder ++ [name]) (downloadsFolder ++ [name']))
        eqn:E; [|done].
      rewrite is_prefix_app_both in E. simpl in E.
      rewrite andb_true_r in E. apply String.eqb_eq in E. by subst.
  - split.
    + destruct (is_prefix (downloadsFolder ++ [name']) targetFilePath) eqn:E; [|done].
      rewrite (is_prefix_trans downloadsFolder _ _ (is_prefix_app _ _) E) in Hdiv2.
      done.
    + destruct (is_prefix targetFilePath (downloadsFolder ++ [name'])) eqn:E; [|done].
      apply is_prefix_spec in E as [rest Hr].
      destruct (decide (rest = [])) as [->|Hr'].
      * rewrite app_nil_r in Hr. by rewrite <- Hr, is_prefix_app in Hdiv2.
      * destruct (exists_last Hr') as (r0 & z & ->).
        rewrite (assoc_L (++)) in Hr. apply app_inj_tail in Hr as [-> _].
        by rewrite is_prefix_app in Hdiv1.
Qed.

End MoveMore.

Section MoveMoreSample.
Import JsString Js Fs Tasks FsNotions FsSamples FrameNotions.

Lemma moveDownloadedFile_failure_moves_nothing_witness :
  let run := moveDownloadedFile ["proj"; "cypress"; "fixtures"] sample_cwd 100
               "Acme" "data/ai_outputs" sample_fs in
  run.1 = inr (NotMoved "No PDF file found in downloads")
  ∧ run.2 = prepared sample_cwd 100 "data/ai_outputs" sample_fs
  ∧ (is_Some (lookup_path (path_join sample_cwd "data/ai_outputs") sample_fs) →
     run.2 = sample_fs)
  ∧ ∀ p, is_prefix p (path_join sample_cwd "data/ai_outputs") = false →
         lookup_path p run.2 = lookup_path p sample_fs.
Proof.
  intros run. split; [by vm_compute|].
  apply (moveDownloadedFile_failure_moves_nothing ["proj"; "cypress"; "fixtures"]
           sample_cwd 100 "Acme" "data/ai_outputs" sample_fs
           (NotMoved "No PDF file found in downloads") run.2).
  - by vm_compute.
  - reflexivity.
Defined.

Lemma moveDownloadedFile_moves_one_entry_witness :
  let run := moveDownloadedFile sample_downloadsFolder sample_cwd 100
               "Acme" "data/ai_outputs" sample_fs in
  let listed := prepared sample_cwd 100 "data/ai_outputs" sample_fs in
  let target := ["proj"; "data"; "ai_outputs"; "Acme_Investment_Memo.pdf"] in
  ∃ name,
    is_pdf_name name = true
    ∧ is_Some (lookup_path (sample_downloadsFolder ++ [name]) listed)
    ∧ lookup_path target run.2 = lookup_path (sample_downloadsFolder ++ [name]) listed
    ∧ lookup_path (sample_downloadsFolder ++ [name]) run.2 = None
    ∧ (∀ name', name' ≠ name →
         lookup_path (sample_downloadsFolder ++ [name']) run.2
         = lookup_path (sample_downloadsFolder ++ [name']) listed)
    ∧ (∀ p, diverge p (sample_downloadsFolder ++ [name]) → diverge p target →
            lookup_path p run.2 = lookup_path p listed).
Proof.
  intros run listed target.
  apply (moveDownloadedFile_moves_one_entry sample_downloadsFolder sample_cwd 100
           "Acme" "data/ai_outputs" sample_fs
           (Moved "Acme_Investment_Memo.pdf"
              "/proj/data/ai_outputs/Acme_Investment_Memo.pdf") run.2).
  - by vm_compute.
  - reflexivity.
  - split; reflexivity.
Defined.

End MoveMoreSample.

Section PdfNames.
Import JsString Js Fs Tasks.

Lemma toLowerCase_app a b : toLowerCase (a +:+ b) = toLowerCase a +:+ toLowerCase b.
Proof. induction a as [|x a IH]; [done|]. simpl. by rewrite IH. Qed.

Lemma toLowerCase_split s a b :
  toLowerCase s = a +:+ b →
  ∃ s1 s2, s = s1 +:+ s2 ∧ toLowerCase s1 = a ∧ toLowerCase s2 = b.
Proof.
  revert s. induction a as [|x a IH]; intros s Hs.
  - by exists "", s.
  - destruct s as [|y s]; [done|]. rewrite string_app_cons in Hs. simpl in Hs.
    injection Hs as Hx Hs. destruct (IH s Hs) as (s1 & s2 & -> & H1 & H2).
    exists (String y s1), s2. simpl. by rewrite Hx, H1.
Qed.

Lemma endsWith_spec s p : endsWith s p = true ↔ ∃ r, s = r +:+ p.
Proof.
  unfold endsWith. rewrite startsWith_spec. split.
  - intros [r Hr]. exists (String.rev r).
    by rewrite <- (string_rev_involutive s), Hr, string_rev_app_distr,
      string_rev_involutive.
  - intros [r ->]. exists (String.rev r). apply string_rev_app_distr.
Qed.

(** X14: the names [moveDownloadedFile] takes for PDF files are those
    that end in [.pdf] written in any mix of upper and lower case. *)
Theorem pdf_names_end_in_pdf_in_any_case file :
  is_pdf_name file = true
  ↔ ∃ stem ext, file = stem +:+ ext ∧ toLowerCase ext = ".pdf".
Proof.
  unfold is_pdf_name. rewrite endsWith_spec. split.
  - intros [r Hr]. apply toLowerCase_split in Hr as (stem & ext & -> & _ & Hext).
    eauto.
  - intros (stem & ext & -> & Hext). exists (toLowerCase stem).
    by rewrite toLowerCase_app, Hext.
Qed.

End PdfNames.

(** ** [moveDownloadedFile]: when it succeeds, and on what *)

Section MoveSuccess.
Import JsString Js Fs Tasks FsNotions FrameNotions.

Variable downloadsFolder : path.
Variable cwd : path.
Variable now : Z.

(** X19: when every entry of the downloads folder with a PDF name is a
    regular file, the task does what it is meant to.  If the downloads
    folder, as the task lists it, can be listed and written to and holds
    such an entry, the target folder is there, the directory that is to
    hold the target file can be written to and holds no directory under
    the target name, and the target file path is not inside the downloads
    folder, then the task returns [success: true] with the file name built
    from the company name, and the file it has moved to the target path
    is a PDF file of the downloads folder with the latest modification
    time among them. *)
Theorem moveDownloadedFile_moves_newest_pdf_file
    companyName targetFolder fs es a ddir dbase des da :
  let targetFileName := companyName +:+ "_Investment_Memo.pdf" in
  let targetFilePath := path_join (path_join cwd targetFolder) targetFileName in
  let listed := prepared cwd now targetFolder fs in
  lookup_path downloadsFolder listed = Some (Dir es a) →
  readable a = true →
  writable a = true →
  (∃ name, is_Some (es !! name) ∧ is_pdf_name name = true) →
  (∀ name n, es !! name = Some n → is_pdf_name name = true → is_file n = true) →
  is_Some (lookup_path (path_join cwd targetFolder) listed) →
  targetFilePath = ddir ++ [dbase] →
  lookup_path ddir listed = Some (Dir des da) →
  writable da = true →
  (∀ es' a', des !! dbase ≠ Some (Dir es' a')) →
  is_prefix downloadsFolder targetFilePath = false →
  ∃ name content fa fs',
    moveDownloadedFile downloadsFolder cwd now companyName targetFolder fs
    = (inr (Moved targetFileName (path_to_string targetFilePath)), fs')
    ∧ es !! name = Some (File content fa)
    ∧ is_pdf_name name = true
    ∧ (∀ name' n', es !! name' = Some n' → is_pdf_name name' = true →
                   mtime (attrs_of n') ≤ mtime fa)
    ∧ lookup_path targetFilePath fs' = Some (File content fa)
    ∧ lookup_path (downloadsFolder ++ [name]) fs' = None.
Proof.
  intros targetFileName targetFilePath listed Hd Hread Hwrite (pdf & Hpdf & Hispdf)
    Hfiles Hfolder Htarget Hddir Hdwrite Hfree Hout.
  set (targetPath := path_join cwd targetFolder) in *.
  destruct ((do present <- existsSync targetPath;
             if negb present then mkdirSync_recursive now targetPath else ret tt) fs)
    as [res1 fs1] eqn:Hens.
  assert (listed = fs1) as Hlisted.
  { subst listed. unfold prepared. cbv zeta. fold targetPath. by rewrite Hens. }
  rewrite Hlisted in *. clear Hlisted listed.
  assert (∀ name, es !! name = lookup_path (downloadsFolder ++ [name]) fs1) as Hes.
  { intros name. by rewrite lookup_path_snoc, Hd. }
  set (names := (map_to_list es).*1).
  assert (∀ name, name ∈ names ↔ is_Some (es !! name)) as Hnames.
  { intros name. apply names_listed. }
  destruct (sort_newest_first
              (listed_at downloadsFolder fs1 <$> List.filter is_pdf_name names))
    as [|x rest] eqn:Hsort.
  { exfalso.
    assert (listed_at downloadsFolder fs1 pdf
            ∈ sort_newest_first
                (listed_at downloadsFolder fs1 <$> List.filter is_pdf_name names))
      as Hin.
    { apply elem_of_sort_newest_first, list_elem_of_fmap_2, elem_of_filter_bool.
      split; [by apply Hnames|done]. }
    rewrite Hsort in Hin. by apply elem_of_nil in Hin. }
  pose proof Hsort as [Hx Hmax]%sort_newest_first_cons.
  apply list_elem_of_fmap in Hx as (name & -> & [Hname Hnpdf]%elem_of_filter_bool).
  apply Hnames in Hname as [n Hn].
  pose proof (Hfiles name n Hn Hnpdf) as Hfile.
  destruct n as [content fa|? ?]; [|done].
  assert (lookup_path (downloadsFolder ++ [name]) fs1 = Some (File content fa)) as Hsrc.
  { by rewrite <- Hes. }
  assert (downloadsFolder ++ [name] ≠ targetFilePath) as Hne.
  { intros Heq. by rewrite <- Heq, is_prefix_app in Hout. }
  assert (renameSync (downloadsFolder ++ [name]) targetFilePath fs1
          = (inr tt,
             alter_dir <[dbase := File content fa]> ddir
               (alter_dir (delete name) downloadsFolder fs1))) as Hren.
  { unfold renameSync. rewrite Hsrc, Htarget, !split_last_app, Hd, Hddir.
    cbv zeta. rewrite bool_decide_eq_false_2 by (by rewrite <- Htarget).
    assert (is_prefix (downloadsFolder ++ [name]) (ddir ++ [dbase]) = false) as ->.
    { destruct (is_prefix (downloadsFolder ++ [name]) (ddir ++ [dbase])) eqn:E;
        [|done].
      rewrite <- Htarget in E.
      by rewrite (is_prefix_trans downloadsFolder _ _ (is_prefix_app _ _) E) in Hout. }
    rewrite Hwrite, Hdwrite. cbn [andb negb].
    destruct (des !! dbase) as [[c' a'|es' a']|] eqn:Hdb; [done| |done].
    by destruct (Hfree es' a'). }
  destruct (renameSync_moves _ _ _ _ _ Hsrc Hren) as [Hthere Hgone].
  eexists name, content, fa, _. split; [|split; [done|split; [done|split; [|split]]]].
  - unfold moveDownloadedFile, try_catch. cbv zeta. fold targetPath.
    unfold bind at 1. unfold bind at 1 in Hens.
    destruct (existsSync targetPath fs) as [[e|present] fs0] eqn:Hex.
    { unfold existsSync in Hex. done. }
    unfold bind at 1. rewrite Hens.
    destruct res1 as [e|[]].
    { exfalso. unfold existsSync in Hex. simplify_eq.
      destruct (lookup_path targetPath fs0) eqn:Hthere0; cbn [negb] in Hens;
        [by unfold ret in Hens|].
      unfold mkdirSync_recursive in Hens.
      destruct (mkdir_p now targetPath fs0) eqn:Hmk; simplify_eq.
      rewrite Hthere0 in Hfolder. by destruct Hfolder. }
    unfold bind at 1. unfold readdirSync at 1. rewrite Hd, Hread.
    unfold bind at 1. rewrite mapM_stat.
    2:{ intros file [Hf _]%elem_of_filter_bool. rewrite <- Hes. by apply Hnames. }
    fold names. rewrite Hsort. cbn [l_path listed_at]. unfold bind at 1.
    fold targetFileName targetFilePath. rewrite Hren. done.
  - intros name' n' Hn' Hpdf'.
    assert (listed_at downloadsFolder fs1 name'
            ∈ listed_at downloadsFolder fs1 <$> List.filter is_pdf_name names)
      as Hl.
    { apply list_elem_of_fmap_2, elem_of_filter_bool. split; [|done].
      apply Hnames. eauto. }
    apply Hmax in Hl. unfold listed_at in Hl. cbn [l_mtime] in Hl.
    by rewrite Hsrc, <- Hes, Hn' in Hl.
  - done.
  - by apply Hgone.
Qed.
End MoveSuccess.

Section MoveSuccessSample.
Import JsString Js Fs Tasks FsNotions FsSamples FrameNotions TaskSamples.

Lemma moveDownloadedFile_moves_newest_pdf_file_witness :
  let es : gmap string inode :=
    list_to_map
      [ ("a.pdf", File "older memo" (rw 5));
        ("b.PDF", File "newer memo" (rw 9));
        ("note.txt", File "note" (rw 20));
        ("sub", Dir (list_to_map [("c.pdf", File "kept" (rw 30))]) (rw 1)) ] in
  let target := ["proj"; "data"; "ai_outputs"; "Acme_Investment_Memo.pdf"] in
  ∃ name content fa fs',
    moveDownloadedFile sample_downloadsFolder sample_cwd 100
      "Acme" "data/ai_outputs" sample_fs
    = (inr (Moved "Acme_Investment_Memo.pdf"
              "/proj/data/ai_outputs/Acme_Investment_Memo.pdf"), fs')
    ∧ es !! name = Some (File content fa)
    ∧ is_pdf_name name = true
    ∧ (∀ name' n', es !! name' = Some n' → is_pdf_name name' = true →
                   mtime (attrs_of n') ≤ mtime fa)
    ∧ lookup_path target fs' = Some (File content fa)
    ∧ lookup_path (sample_downloadsFolder ++ [name]) fs' = None.
Proof.
  intros es target.
  apply (moveDownloadedFile_moves_newest_pdf_file sample_downloadsFolder
           sample_cwd 100 "Acme" "data/ai_outputs" sample_fs
           es (rw 2) ["proj"; "data"; "ai_outputs"] "Acme_Investment_Memo.pdf"
           ∅ (rw 100)).
  - by vm_compute.
  - reflexivity.
  - reflexivity.
  - exists "a.pdf". split; [by eexists|reflexivity].
  - intros name n Hn Hpdf. apply elem_of_list_to_map_2 in Hn.
    assert (Forall (λ entry : string * inode,
                      is_pdf_name entry.1 = true → is_file entry.2 = true)
              [ ("a.pdf", File "older memo" (rw 5));
                ("b.PDF", File "newer memo" (rw 9));
                ("note.txt", File "note" (rw 20));
                ("sub", Dir (list_to_map [("c.pdf", File "kept" (rw 30))]) (rw 1)) ])
      as Hall by (repeat constructor; by vm_compute).
    by apply (proj1 (Forall_forall _ _) Hall (name, n)).
  - vm_compute. by eexists.
  - reflexivity.
  - by vm_compute.
  - reflexivity.
  - intros es' a' H. by vm_compute in H.
  - reflexivity.
Defined.

(** C8: the task tests names only.  With a regular file [memo.pdf] and a
    more recent directory [scan.pdf] in the downloads folder, it reports
    [success: true] having moved the directory, with what it holds, to
    the target path; the PDF file is still in the downloads folder. *)
Theorem moveDownloadedFile_takes_directory_named_pdf :
  let '(result, fs') :=
    moveDownloadedFile sample_downloadsFolder sample_cwd 100
      "Acme" "data/ai_outputs" scan_fs in
  result = inr (Moved "Acme_Investment_Memo.pdf"
                  "/proj/data/ai_outputs/Acme_Investment_Memo.pdf")
  ∧ lookup_path ["proj"; "data"; "ai_outputs"; "Acme_Investment_Memo.pdf"] fs'
    = Some (Dir (list_to_map [("page1.png", File "scan" (rw 8))]) (rw 9))
  ∧ lookup_path (sample_downloadsFolder ++ ["scan.pdf"]) fs' = None
  ∧ lookup_path (sample_downloadsFolder ++ ["memo.pdf"]) fs'
    = Some (File "memo" (rw 5)).
Proof. by vm_compute. Qed.

End MoveSuccessSample.

(** ** [updateConfigWithMemoPath]: what a run leaves alone *)

Section PatchMore.
Import JsString Js Fs Tasks FsNotions FrameNotions.

Variable JSON_parse : string → option jsval.
Variable JSON_stringify : jsval → string.
Variable cwd : path.
Variable now : Z.

(** The two callbacks, one after the other. *)
Lemma update_configs_two companyName fs entries fs' :
  update_configs JSON_parse JSON_stringify cwd now companyName [] configPaths fs
  = (inr entries, fs') →
  ∃ e1 e2 fs1,
    entries = [e1; e2]
    ∧ entry_path e1 = "cypress/fixtures/config.json"
    ∧ entry_path e2 = "config.json"
    ∧ (if entry_success e1
       then store_written JSON_parse JSON_stringify cwd now companyName
              "cypress/fixtures/config.json" fs fs1
       else fs1 = fs)
    ∧ (if entry_success e2
       then store_written JSON_parse JSON_stringify cwd now companyName
              "config.json" fs1 fs'
       else fs' = fs1).
Proof.
  unfold configPaths. cbn [update_configs]. unfold bind at 1.
  destruct (update_config_pushes_one JSON_parse JSON_stringify cwd now
              companyName [] "cypress/fixtures/config.json" fs)
    as (e1 & fs1 & -> & Hp1 & He1).
  unfold bind at 1.
  destruct (update_config_pushes_one JSON_parse JSON_stringify cwd now
              companyName ([] ++ [e1]) "config.json" fs1)
    as (e2 & fs2 & -> & Hp2 & He2).
  unfold ret. intros ?. simplify_eq. by exists e1, e2, fs1.
Qed.

(** Rewriting a store shows only at the store and on the way to it. *)
Lemma store_written_frame companyName configPath fs fs' p :
  store_written JSON_parse JSON_stringify cwd now companyName configPath fs fs' →
  diverge p (path_join cwd configPath) →
  lookup_path p fs' = lookup_path p fs.
Proof.
  intros (dir & base & content & a0 & configData & companies & index
          & -> & _ & _ & _ & _ & ->) Hdiv.
  apply diverge_snoc in Hdiv as [H1 H2].
  apply lookup_alter_dir_frame; [done|].
  intros x r es ->. apply lookup_insert_ne. intros <-. by apply (H2 r).
Qed.

Lemma config_paths_diverge :
  diverge (path_join cwd "cypress/fixtures/config.json") (path_join cwd "config.json").
Proof.
  rewrite path_join_fixtures, path_join_root. split; by rewrite is_prefix_app_both.
Qed.

Lemma diverge_sym p q : diverge p q → diverge q p.
Proof. by intros [? ?]. Qed.

(** X15: [successCount] never exceeds [totalFiles], and when
    [updateConfigWithMemoPath] reports [success: false] it has changed
    nothing: the file system is the initial one and every entry carries
    an error. *)
Theorem updateConfigWithMemoPath_failure_changes_nothing companyName fs report fs' :
  updateConfigWithMemoPath JSON_parse JSON_stringify cwd now companyName fs
  = (inr report, fs') →
  (successCount report ≤ totalFiles report)%nat
  ∧ (success report = false →
     fs' = fs ∧ Forall (λ e, is_Some (entry_error e)) (results report)).
Proof.
  destruct (updateConfigWithMemoPath_report JSON_parse JSON_stringify cwd now
              companyName fs) as (entries & fs0 & Hrun & Hpaths & ->).
  intros ?. simplify_eq. cbn [successCount totalFiles success results].
  destruct (update_configs_two _ _ _ _ Hrun)
    as (e1 & e2 & fs1 & -> & _ & _ & H1 & H2).
  split.
  { simpl. destruct (entry_success e1), (entry_success e2); simpl; lia. }
  simpl. destruct e1 as [p1 m1 memo1|p1 err1]; [done|].
  destruct e2 as [p2 m2 memo2|p2 err2]; [done|].
  simpl in *. intros _. split; [congruence|]. repeat constructor; eauto.
Qed.

(** X16: [updateConfigWithMemoPath] touches its two configuration files
    only.  Every path that leads neither to nor from one of the two files
    is as it was, and a file whose entry reports [success: false] is as
    it was. *)
Theorem updateConfigWithMemoPath_touches_only_its_stores companyName fs report fs' :
  updateConfigWithMemoPath JSON_parse JSON_stringify cwd now companyName fs
  = (inr report, fs') →
  (∀ p, diverge p (path_join cwd "cypress/fixtures/config.json") →
        diverge p (path_join cwd "config.json") →
        lookup_path p fs' = lookup_path p fs)
  ∧ (∀ e, e ∈ results report → entry_success e = false →
          lookup_path (path_join cwd (entry_path e)) fs'
          = lookup_path (path_join cwd (entry_path e)) fs).
Proof.
  destruct (updateConfigWithMemoPath_report JSON_parse JSON_stringify cwd now
              companyName fs) as (entries & fs0 & Hrun & Hpaths & ->).
  intros ?. simplify_eq. cbn [results].
  destruct (update_configs_two _ _ _ _ Hrun)
    as (e1 & e2 & fs1 & -> & Hp1 & Hp2 & H1 & H2).
  assert (∀ p, diverge p (path_join cwd "cypress/fixtures/config.json") →
               lookup_path p fs1 = lookup_path p fs) as Hstep1.
  { intros p Hp. destruct (entry_success e1); [|by subst].
    by apply (store_written_frame _ _ _ _ _ H1). }
  assert (∀ p, diverge p (path_join cwd "config.json") →
               lookup_path p fs' = lookup_path p fs1) as Hstep2.
  { intros p Hp. destruct (entry_success e2); [|by subst].
    by apply (store_written_frame _ _ _ _ _ H2). }
  split.
  - intros p Hfix Hroot. by rewrite Hstep2, Hstep1.
  - intros e He Hfail. apply elem_of_cons in He as [->|He].
    + rewrite Hfail in H1. subst fs1. rewrite Hp1.
      apply Hstep2, config_paths_diverge.
    + apply list_elem_of_singleton in He as ->.
      rewrite Hfail in H2. subst fs'. rewrite Hp2.
      apply Hstep1, diverge_sym, config_paths_diverge.
Qed.

End PatchMore.

Section PatchMoreSample.
Import JsString Js Fs Tasks FsNotions FsSamples FrameNotions TaskSamples.

Lemma updateConfigWithMemoPath_failure_changes_nothing_witness :
  (successCount nobody_report ≤ totalFiles nobody_report)%nat
  ∧ (success nobody_report = false →
     sample_fs = sample_fs
     ∧ Forall (λ e, is_Some (entry_error e)) (results nobody_report)).
Proof.
  apply (updateConfigWithMemoPath_failure_changes_nothing sample_parse sample_print
           sample_cwd 100 "Nobody" sample_fs nobody_report sample_fs).
  by vm_compute.
Defined.

Lemma updateConfigWithMemoPath_touches_only_its_stores_witness :
  let fs' := (updateConfigWithMemoPath sample_parse sample_print sample_cwd 100
                "Acme" sample_fs).2 in
  (∀ p, diverge p (path_join sample_cwd "cypress/fixtures/config.json") →
        diverge p (path_join sample_cwd "config.json") →
        lookup_path p fs' = lookup_path p sample_fs)
  ∧ (∀ e, e ∈ results acme_report → entry_success e = false →
          lookup_path (path_join sample_cwd (entry_path e)) fs'
          = lookup_path (path_join sample_cwd (entry_path e)) sample_fs).
Proof.
  intros fs'.
  apply (updateConfigWithMemoPath_touches_only_its_stores sample_parse sample_print
           sample_cwd 100 "Acme" sample_fs acme_report fs').
  by vm_compute.
Defined.

End PatchMoreSample.

Section MemoPatch.
Import JsString Js Fs Tasks FsNotions FrameNotions TaskSamples.

(** What [find] reports: the company at the index has the name, and no
    company before it has. *)
Lemma find_company_Some companyName k cs i :
  find_company companyName k cs = inr (Some i) →
  ∃ j props,
    i = (k + j)%nat
    ∧ cs !! j = Some (JObj props)
    ∧ get_prop "name" props = Some (JStr companyName)
    ∧ ∀ j' props', (j' < j)%nat → cs !! j' = Some (JObj props') →
                   get_prop "name" props' ≠ Some (JStr companyName).
Proof.
  revert k. induction cs as [|c cs IH]; intros k; [done|].
  assert (find_company companyName (S k) cs = inr (Some i) →
          (∀ props', c = JObj props' →
                     get_prop "name" props' ≠ Some (JStr companyName)) →
          ∃ j props,
            i = (k + j)%nat
            ∧ (c :: cs) !! j = Some (JObj props)
            ∧ get_prop "name" props = Some (JStr companyName)
            ∧ ∀ j' props', (j' < j)%nat → (c :: cs) !! j' = Some (JObj props') →
                           get_prop "name" props' ≠ Some (JStr companyName))
    as Hrest.
  { intros (j & props & -> & Hj & Hname & Hfirst)%IH Hc.
    exists (S j), props. split; [lia|]. split; [done|]. split; [done|].
    intros [|j'] props' Hlt; simpl.
    - intros [= ->]. by apply Hc.
    - apply Hfirst. lia. }
  cbn [find_company]. destruct c as [|b|z|s|items|props]; try done;
    try (intros H; by apply Hrest).
  destruct (get_prop "name" props) as [[|b|z|n|items|props']|] eqn:Hname;
    try (intros H; apply Hrest; [done|]; intros ? [= <-]; by rewrite Hname).
  destruct (String.eqb n companyName) eqn:E.
  - apply String.eqb_eq in E as ->. intros [= <-].
    exists 0%nat, props. split; [lia|]. split; [done|]. split; [done|].
    intros j' props' Hlt. lia.
  - apply String.eqb_neq in E. intros H. apply Hrest; [done|].
    intros ? [= <-]. rewrite Hname. congruence.
Qed.

(** Setting the memo path of any company leaves the outcome of the search
    by name as it is. *)
Lemma find_company_alter companyName memoPath cs k j :
  find_company companyName k
    (alter (λ c, match c with
                 | JObj cprops =>
                     JObj (set_prop "ai_generated_memo" (JStr memoPath) cprops)
                 | _ => c
                 end) j cs)
  = find_company companyName k cs.
Proof.
  revert k j. induction cs as [|c cs IH]; intros k j; [done|].
  destruct j as [|j].
  - destruct c as [|b|z|s|items|props]; try done. simpl.
    by rewrite get_set_prop_ne.
  - simpl. destruct c as [|b|z|s|items|props]; try done; try apply IH.
    destruct (get_prop "name" props) as [[|b|z|n|items|props']|]; try apply IH.
    destruct (String.eqb n companyName); [done|apply IH].
Qed.

(** X17: the memo path is set on the first company of the list that has
    the name, and on that one only.  The company found has the name and
    no company before it has; after the assignment the list has the same
    length, the company found carries [ai_generated_memo], every other
    company (a later one of the same name included) is as it was, and a
    search by name finds the same company again. *)
Theorem memo_path_set_on_first_match companyName configData companies index memoPath :
  companies_of configData = inr companies →
  find_company companyName 0 companies = inr (Some index) →
  ∃ props companies',
    companies !! index = Some (JObj props)
    ∧ get_prop "name" props = Some (JStr companyName)
    ∧ (∀ j props', (j < index)%nat → companies !! j = Some (JObj props') →
                   get_prop "name" props' ≠ Some (JStr companyName))
    ∧ companies_of (set_memo configData index memoPath) = inr companies'
    ∧ companies' !! index
      = Some (JObj (set_prop "ai_generated_memo" (JStr memoPath) props))
    ∧ (∀ j, j ≠ index → companies' !! j = companies !! j)
    ∧ length companies' = length companies
    ∧ find_company companyName 0 companies' = inr (Some index).
Proof.
  intros Hcs Hfind.
  destruct (find_company_Some _ _ _ _ Hfind)
    as (j & props & -> & Hj & Hname & Hfirst). simpl in *.
  destruct configData as [|b|z|s|items|cprops]; try done. simpl in Hcs.
  destruct (get_prop "companies" cprops) as [[|b|z|s|items|o]|] eqn:Hc; try done.
  simplify_eq. eexists props, _. split; [done|]. split; [done|]. split; [done|].
  unfold set_memo. rewrite Hc. cbn [companies_of]. rewrite get_set_prop_eq.
  split; [reflexivity|]. split.
  { by rewrite list_lookup_alter_eq, Hj. }
  split.
  { intros j' Hne. by apply list_lookup_alter_ne. }
  split; [apply length_alter|].
  by rewrite find_company_alter.
Qed.

Lemma memo_path_set_on_first_match_witness :
  ∃ props companies',
    [ JObj [("id", JNum 1); ("name", JStr "Beta")];
      JObj [("id", JNum 2); ("name", JStr "Acme")];
      JObj [("id", JNum 3); ("name", JStr "Acme")] ] !! 1%nat = Some (JObj props)
    ∧ get_prop "name" props = Some (JStr "Acme")
    ∧ (∀ j props', (j < 1)%nat →
         [ JObj [("id", JNum 1); ("name", JStr "Beta")];
           JObj [("id", JNum 2); ("name", JStr "Acme")];
           JObj [("id", JNum 3); ("name", JStr "Acme")] ] !! j = Some (JObj props') →
         get_prop "name" props' ≠ Some (JStr "Acme"))
    ∧ companies_of (set_memo duplicate_config 1 "data/ai_outputs/Acme_Investment_Memo.pdf")
      = inr companies'
    ∧ companies' !! 1%nat
      = Some (JObj (set_prop "ai_generated_memo"
                      (JStr "data/ai_outputs/Acme_Investment_Memo.pdf") props))
    ∧ (∀ j, j ≠ 1%nat →
         companies' !! j
         = [ JObj [("id", JNum 1); ("name", JStr "Beta")];
             JObj [("id", JNum 2); ("name", JStr "Acme")];
             JObj [("id", JNum 3); ("name", JStr "Acme")] ] !! j)
    ∧ length companies' = 3%nat
    ∧ find_company "Acme" 0 companies' = inr (Some 1%nat).
Proof.
  apply (memo_path_set_on_first_match "Acme" duplicate_config
           [ JObj [("id", JNum 1); ("name", JStr "Beta")];
             JObj [("id", JNum 2); ("name", JStr "Acme")];
             JObj [("id", JNum 3); ("name", JStr "Acme")] ] 1%nat
           "data/ai_outputs/Acme_Investment_Memo.pdf"); reflexivity.
Defined.

End MemoPatch.

(** ** [updateConfigWithMemoPath]: what success means *)

Section PatchSuccess.
Import JsString Js Fs Tasks FsNotions FrameNotions.

Variable JSON_parse : string → option jsval.
Variable JSON_stringify : jsval → string.
Variable cwd : path.
Variable now : Z.

(** What the assignment does to the configuration in which [find] found
    the company. *)
Lemma set_memo_found companyName configData companies index memoPath :
  companies_of configData = inr companies →
  find_company companyName 0 companies = inr (Some index) →
  ∃ props companies',
    companies !! index = Some (JObj props)
    ∧ get_prop "name" props = Some (JStr companyName)
    ∧ companies_of (set_memo configData index memoPath) = inr companies'
    ∧ length companies' = length companies
    ∧ companies' !! index
      = Some (JObj (set_prop "ai_generated_memo" (JStr memoPath) props))
    ∧ ∀ j, j ≠ index → companies' !! j = companies !! j.
Proof.
  intros Hcs Hfind.
  destruct (find_company_Some _ _ _ _ Hfind)
    as (j & props & -> & Hj & Hname & _). simpl in *.
  destruct configData as [|b|z|s|items|cprops]; try done. simpl in Hcs.
  destruct (get_prop "companies" cprops) as [[|b|z|s|items|o]|] eqn:Hc; try done.
  simplify_eq. eexists props, _. split; [done|]. split; [done|].
  unfold set_memo. rewrite Hc. cbn [companies_of]. rewrite get_set_prop_eq.
  split; [reflexivity|]. split; [apply length_alter|]. split.
  { by rewrite list_lookup_alter_eq, Hj. }
  intros j' Hne. by apply list_lookup_alter_ne.
Qed.

(** A callback that rewrote its store has updated it. *)
Lemma store_written_updated companyName configPath fs fs' :
  store_written JSON_parse JSON_stringify cwd now companyName configPath fs fs' →
  store_updated JSON_parse JSON_stringify now companyName
    (path_join cwd configPath) fs fs'.
Proof.
  intros (dir & base & content & a0 & configData & companies & index
          & -> & Hfile & Hparse & Hcs & Hfind & ->).
  destruct (set_memo_found companyName configData companies index
              (memo_path companyName) Hcs Hfind)
    as (props & companies' & Hi & Hname & Hcs' & Hlen & Hi' & Hother).
  exists content, a0, configData, companies, index, props,
    (set_memo configData index (memo_path companyName)), companies'.
  split; [done|]. split; [done|]. split; [done|]. split; [done|].
  split; [done|]. split; [done|]. split.
  { rewrite lookup_path_snoc in Hfile.
    destruct (lookup_path dir fs) as [[c a|es a]|] eqn:Hdir; try done.
    rewrite lookup_path_snoc, (lookup_alter_dir_here _ _ _ _ _ Hdir).
    apply lookup_insert_eq. }
  split; [done|]. split; [done|]. split; [done|]. split; [done|].
  split; [apply get_set_prop_eq|done].
Qed.

(** What the two callbacks leave: a store whose entry reports success has
    been updated, one whose entry reports failure is as it was. *)
Lemma update_configs_outcome companyName fs entries fs' :
  update_configs JSON_parse JSON_stringify cwd now companyName [] configPaths fs
  = (inr entries, fs') →
  ∀ e, e ∈ entries →
       if entry_success e
       then store_updated JSON_parse JSON_stringify now companyName
              (path_join cwd (entry_path e)) fs fs'
       else lookup_path (path_join cwd (entry_path e)) fs'
            = lookup_path (path_join cwd (entry_path e)) fs.
Proof.
  intros Hrun.
  destruct (update_configs_two _ _ _ _ _ _ _ _ Hrun)
    as (e1 & e2 & fs1 & -> & Hp1 & Hp2 & H1 & H2).
  assert (∀ p, diverge p (path_join cwd "cypress/fixtures/config.json") →
               lookup_path p fs1 = lookup_path p fs) as Hstep1.
  { intros p Hp. destruct (entry_success e1); [|by subst].
    by apply (store_written_frame _ _ _ _ _ _ _ _ _ H1). }
  assert (∀ p, diverge p (path_join cwd "config.json") →
               lookup_path p fs' = lookup_path p fs1) as Hstep2.
  { intros p Hp. destruct (entry_success e2); [|by subst].
    by apply (store_written_frame _ _ _ _ _ _ _ _ _ H2). }
  pose proof (config_paths_diverge cwd) as Hdiv.
  intros e He. apply elem_of_cons in He as [->|He].
  - rewrite Hp1. destruct (entry_success e1).
    + apply store_written_updated in H1.
      destruct H1 as (content & a & configData & companies & index & props
                      & configData' & companies' & Hfile & Hrest).
      exists content, a, configData, companies, index, props, configData', companies'.
      split; [done|]. rewrite (Hstep2 _ Hdiv). exact Hrest.
    + subst fs1. by apply Hstep2.
  - apply list_elem_of_singleton in He as ->. rewrite Hp2.
    destruct (entry_success e2).
    + apply store_written_updated in H2.
      destruct H2 as (content & a & configData & companies & index & props
                      & configData' & companies' & Hfile & Hrest).
      exists content, a, configData, companies, index, props, configData', companies'.
      rewrite <- (Hstep1 _ (diverge_sym _ _ Hdiv)). done.
    + subst fs'. by apply Hstep1, diverge_sym.
Qed.

(** C9: the [success] flag of the report is true exactly when
    [successCount] is positive, that is, when at least one entry reports
    success.  An entry reports success only for a store that has been
    updated: the file held a configuration that lists the company, and it
    now holds the serialisation of that configuration with the memo path
    set on the first company of that name and nothing else changed; and
    the store of an entry that reports failure is as it was.  So a report
    with [successCount] 1 of 2 has [success] true. *)
Theorem patch_success_iff_some_location_updated companyName fs :
  ∃ report fs',
    updateConfigWithMemoPath JSON_parse JSON_stringify cwd now companyName fs
    = (inr report, fs')
    ∧ (success report = true ↔ (0 < successCount report)%nat)
    ∧ (success report = true
       ↔ ∃ e, e ∈ results report ∧ entry_success e = true)
    ∧ (∀ e, e ∈ results report → entry_success e = true →
            store_updated JSON_parse JSON_stringify now companyName
              (path_join cwd (entry_path e)) fs fs')
    ∧ (∀ e, e ∈ results report → entry_success e = false →
            lookup_path (path_join cwd (entry_path e)) fs'
            = lookup_path (path_join cwd (entry_path e)) fs)
    ∧ (successCount report = 1%nat → totalFiles report = 2%nat
       ∧ success report = true).
Proof.
  destruct (updateConfigWithMemoPath_report JSON_parse JSON_stringify cwd now
              companyName fs) as (entries & fs' & Hrun & Hpaths & ->).
  eexists _, fs'. split; [done|]. cbn [results totalFiles successCount success].
  pose proof (update_configs_outcome companyName fs entries fs' Hrun) as Hout.
  split; [apply Nat.ltb_lt|]. split; [|split; [|split]].
  - rewrite Nat.ltb_lt. apply filter_nonempty_iff.
  - intros e He Hs. specialize (Hout e He). by rewrite Hs in Hout.
  - intros e He Hs. specialize (Hout e He). by rewrite Hs in Hout.
  - intros ->. done.
Qed.

End PatchSuccess.

Section PatchSuccessSample.
Import JsString Js Fs Tasks FsNotions FsSamples FrameNotions TaskSamples.

Lemma patch_success_iff_some_location_updated_witness :
  ∃ report fs',
    updateConfigWithMemoPath sample_parse sample_print sample_cwd 100 "Acme" sample_fs
    = (inr report, fs')
    ∧ successCount report = 1%nat
    ∧ totalFiles report = 2%nat
    ∧ success report = true
    ∧ store_updated sample_parse sample_print 100 "Acme"
        (path_join sample_cwd "cypress/fixtures/config.json") sample_fs fs'
    ∧ lookup_path (path_join sample_cwd "cypress/fixtures/config.json") fs'
      = Some (File "data/ai_outputs/Acme_Investment_Memo.pdf" (rw 100)).
Proof.
  destruct (patch_success_iff_some_location_updated
              sample_parse sample_print sample_cwd 100 "Acme" sample_fs)
    as (report & fs' & Hrun & _ & _ & Hupd & _ & Hone).
  exists report, fs'. split; [done|].
  assert (report = acme_report
          ∧ lookup_path (path_join sample_cwd "cypress/fixtures/config.json") fs'
            = Some (File "data/ai_outputs/Acme_Investment_Memo.pdf" (rw 100)))
    as [-> Hfile].
  { revert Hrun. vm_compute. intros ?. by simplify_eq. }
  split; [done|]. split; [done|]. split; [by apply Hone|]. split; [|done].
  apply (Hupd (Patched "cypress/fixtures/config.json"
                 "Updated cypress/fixtures/config.json with memo path for Acme"
                 "data/ai_outputs/Acme_Investment_Memo.pdf")); [|done].
  apply elem_of_cons. by left.
Defined.

End PatchSuccessSample.

(** ** The two tasks together *)

Section PathJoin.
Import JsString Js Fs Tasks FsNotions FrameNotions.

Lemma split_slash_app acc s1 s2 :
  split_slash acc (s1 +:+ "/" +:+ s2) = split_slash acc s1 ++ split_slash "" s2.
Proof.
  revert acc. induction s1 as [|a s1 IH]; intros acc; [done|].
  rewrite string_app_cons. cbn [split_slash].
  destruct (Ascii.eqb a "/"); by rewrite IH.
Qed.

Lemma normalize_app stack l1 l2 :
  normalize stack (l1 ++ l2) = normalize (rev (normalize stack l1)) l2.
Proof.
  revert stack. induction l1 as [|c l1 IH]; intros stack; simpl.
  - by rewrite rev_involutive.
  - destruct (String.eqb c "" || String.eqb c "."); [apply IH|].
    destruct (String.eqb c ".."); apply IH.
Qed.

(** [path.join(path.join(base, a), b)] is [path.join(base, a + '/' + b)]. *)
Lemma path_join_join base a b :
  path_join (path_join base a) b = path_join base (a +:+ "/" +:+ b).
Proof. unfold path_join. by rewrite split_slash_app, normalize_app. Qed.

Variable JSON_parse : string → option jsval.
Variable JSON_stringify : jsval → string.
Variable downloadsFolder : path.
Variable cwd : path.

(** The memo path of an entry that reports success. *)
Lemma update_config_memoPath now companyName results configPath fs entries fs' :
  update_config JSON_parse JSON_stringify cwd now companyName results configPath fs
  = (inr entries, fs') →
  ∃ e, entries = results ++ [e]
       ∧ ∀ p m memoPath,
           e = Patched p m memoPath →
           memoPath = "data/ai_outputs/" +:+ companyName +:+ "_Investment_Memo.pdf".
Proof.
  unfold update_config, try_catch, bind, existsSync, readFileSync,
    writeFileSync, ret, throw.
  intros H. repeat case_match; simplify_eq; eexists; (split; [done|]);
    intros ? ? ? ?; by simplify_eq.
Qed.

(** X18: the two tasks agree on where the memo is.  When
    [moveDownloadedFile], called with the target folder
    [data/ai_outputs], reports [success: true], the [memoPath] of any
    successful entry of [updateConfigWithMemoPath] for the same company,
    joined to the working directory, is the [fullPath] reported by the
    move, and the moved file is there. *)
Theorem memo_path_names_the_moved_file
    now now' companyName fs filename fullPath fs' store report store' e :
  moveDownloadedFile downloadsFolder cwd now companyName "data/ai_outputs" fs
  = (inr (Moved filename fullPath), fs') →
  updateConfigWithMemoPath JSON_parse JSON_stringify cwd now' companyName store
  = (inr report, store') →
  e ∈ results report →
  entry_success e = true →
  ∃ p m memoPath,
    e = Patched p m memoPath
    ∧ fullPath = path_to_string (path_join cwd memoPath)
    ∧ is_Some (lookup_path (path_join cwd memoPath) fs').
Proof.
  intros Hmove Hpatch He Hok.
  destruct e as [p m memoPath|p err]; [|done]. exists p, m, memoPath.
  split; [done|].
  assert (memoPath = "data/ai_outputs/" +:+ companyName +:+ "_Investment_Memo.pdf")
    as ->.
  { unfold updateConfigWithMemoPath, bind in Hpatch.
    destruct (update_configs JSON_parse JSON_stringify cwd now' companyName []
                configPaths store) as [[err|entries] st] eqn:Hrun; [done|].
    unfold ret in Hpatch. simplify_eq. cbn [results] in He.
    unfold configPaths in Hrun. cbn [update_configs] in Hrun.
    apply bind_inr in Hrun as (r1 & st1 & H1 & Hrun).
    apply bind_inr in Hrun as (r2 & st2 & H2 & Hrun).
    unfold ret in Hrun. simplify_eq.
    apply update_config_memoPath in H1 as (e1 & -> & Hm1).
    apply update_config_memoPath in H2 as (e2 & -> & Hm2).
    simpl in He. apply elem_of_cons in He as [He|He]; [by apply (Hm1 p m)|].
    apply list_elem_of_singleton in He. by apply (Hm2 p m). }
  assert (path_join cwd ("data/ai_outputs/" +:+ companyName +:+ "_Investment_Memo.pdf")
          = path_join (path_join cwd "data/ai_outputs")
              (companyName +:+ "_Investment_Memo.pdf")) as ->.
  { by rewrite path_join_join. }
  destruct (moveDownloadedFile_filename _ _ _ _ _ _ _ _ Hmove _ _ eq_refl)
    as [_ ->].
  split; [done|].
  destruct (moveDownloadedFile_cases _ _ _ _ _ _ _ _ Hmove) as [[? _]|[_ Hren]];
    [done|].
  destruct Hren as (name & n & Hn & _ & Hren).
  destruct (renameSync_moves _ _ _ _ n Hn Hren) as [-> _]. eauto.
Qed.

End PathJoin.

Section PathJoinSample.
Import JsString Js Fs Tasks FsNotions FsSamples FrameNotions TaskSamples.

Lemma memo_path_names_the_moved_file_witness :
  let fs' := (moveDownloadedFile sample_downloadsFolder sample_cwd 100
                "Acme" "data/ai_outputs" sample_fs).2 in
  ∃ p m memoPath,
    Patched "cypress/fixtures/config.json"
      "Updated cypress/fixtures/config.json with memo path for Acme"
      "data/ai_outputs/Acme_Investment_Memo.pdf"
    = Patched p m memoPath
    ∧ "/proj/data/ai_outputs/Acme_Investment_Memo.pdf"
      = path_to_string (path_join sample_cwd memoPath)
    ∧ is_Some (lookup_path (path_join sample_cwd memoPath) fs').
Proof.
  intros fs'.
  apply (memo_path_names_the_moved_file sample_parse sample_print
           sample_downloadsFolder sample_cwd 100 200 "Acme" sample_fs
           "Acme_Investment_Memo.pdf" "/proj/data/ai_outputs/Acme_Investment_Memo.pdf"
           fs' fs' acme_report
           (updateConfigWithMemoPath sample_parse sample_print sample_cwd 200
              "Acme" fs').2).
  - by vm_compute.
  - by vm_compute.
  - apply elem_of_cons. by left.
  - reflexivity.
Defined.

End PathJoinSample.
